(** * StockAlert: stock-change detection, keyword matching and de-duplication

    A shallow embedding of the core of the notifier, in its two variants:
    - [App]: the modular variant, [app.js] with [config.js], [scraper.js]
      and [notifier.js];
    - [FetchData]: the last of the single-file variants of [FetchData.js],
      the one with the scheduler, the lock and the quiet hours;
    and beside them [FetchData1] and [FetchData2], the two earlier
    versions of [FetchData.js], and [TestProxy], the manual test of
    [test-proxy.js].

    Data.  JavaScript strings are [string]s, sequences of 8-bit code
    units: [toLowerCase] and [trim] are the JavaScript functions on ASCII
    text, and the default order of [Array.prototype.sort] is the
    lexicographic order of the code units.  The [Set] of notified tokens
    is a [gset string].  The module variables [previousOverallStockSignature],
    [notifiedItemsThisOverallStockCycle] and [isCheckRunning] are the
    fields of a [State] that every function takes and returns.

    Effects.  What the awaited calls and the clock answer during an
    invocation is an argument of it (a [World]); an invocation returns
    the new state and a [Report] with its matches, the message body and
    the [trace] of what it did, in program order.  An [async] function
    runs without interruption from one [await] to the next, so an
    invocation is first modelled as one function; [App.deliver] then
    cuts it at its awaits and lets the timer fire in between. *)

From Stdlib Require Import ZArith Ascii String List Lia Permutation.
From stdpp Require Import base decidable option list sets gmap strings sorting.

Local Open Scope string_scope.
Local Open Scope list_scope.

#[local] Set Warnings "-clear-no-such-hyp".

(** ** JavaScript primitives used by the program *)

Module JS.

(** [c.toLowerCase()] on one code unit: only [A]..[Z] are mapped. *)
Definition lower_ascii (c : ascii) : ascii :=
  let n := N_of_ascii c in
  if ((65 <=? n) && (n <=? 90))%N then ascii_of_N (n + 32) else c.

(** [String.prototype.toLowerCase]. *)
Fixpoint toLowerCase (s : string) : string :=
  match s with
  | EmptyString => EmptyString
  | String c s' => String (lower_ascii c) (toLowerCase s')
  end.

(** [s.includes(sub)]: [sub] occurs in [s] at some position. *)
Fixpoint includes (s sub : string) : bool :=
  if String.prefix sub s then true
  else match s with
       | EmptyString => false
       | String _ s' => includes s' sub
       end.

(** [arr.join(sep)]. *)
Definition join (sep : string) (l : list string) : string :=
  String.concat sep l.

(** [arr.sort()] on an array of strings: ascending in the code-unit
    order.  That order is total and antisymmetric, so the sorted array
    is unique and the sorting algorithm does not matter. *)
Definition sort (l : list string) : list string :=
  merge_sort String.le l.

(** [s.trim()]. *)
Fixpoint trimStart (s : string) : string :=
  match s with
  | EmptyString => EmptyString
  | String c s' => if Ascii.is_space c then trimStart s' else s
  end.

Definition trim (s : string) : string :=
  String.rev (trimStart (String.rev (trimStart s))).

(** Truthiness of a string: only the empty string is falsy. *)
Definition truthy (s : string) : bool :=
  match s with EmptyString => false | _ => true end.

(** The characters that a Rocq literal cannot hold directly. *)
Definition nl : string := String "010"%char EmptyString.
Definition dquote : string := String "034"%char EmptyString.

End JS.

(** ** Data shared by the two variants *)

(** A stock item as the program reads it: only its [name] property is
    used.  [None] stands for an entry without a string name (a [null]
    entry or a missing or non-string [name]). *)
Record StockItem := { name : option string }.

(** [{ name, category, matchedKeyword }]; [itemName] is the [name]
    property (the source's local variable of that name). *)
Record MatchResult := {
  itemName : string;
  category : string;
  matchedKeyword : string
}.

(** [{ name: n }] *)
Definition item (n : string) : StockItem := {| name := Some n |}.

(** The item has a non-empty string name. *)
Definition named (it : StockItem) : Prop :=
  exists n, name it = Some n /\ n <> "".

(** What sits in a stock array of the API of [FetchData.js], where an
    item is expected: any JSON value.  Of an entry the program reads only
    its [name] property. *)
Inductive NameValue :=
| NameUndefined                 (* no [name] property *)
| NameString (s : string)
| NameOther (truthy : bool).    (* [null], a boolean, a number, an array or an
                                   object, with its truthiness *)

Inductive Entry :=
| EntryNull                       (* [null]: reading [item.name] throws *)
| EntryValue (name : NameValue).  (* any other value, with its [name] property
                                     ([undefined] on a boolean, a number or a
                                     string) *)

(** The entry as the guards [item && typeof item.name === 'string'] see
    it. *)
Definition toItem (e : Entry) : StockItem :=
  match e with
  | EntryValue (NameString s) => {| name := Some s |}
  | _ => {| name := None |}
  end.

(** The de-duplication key [`${name}|${category}`]. *)
Definition token (n cat : string) : string := n +:+ "|" +:+ cat.

Definition resultToken (m : MatchResult) : string :=
  token (itemName m) (category m).

(** The outcome of an awaited call: the promise resolves or rejects. *)
Inductive Awaited (A : Type) :=
| Resolved (a : A)
| Rejected.
Arguments Resolved {A} a.
Arguments Rejected {A}.

(** What one invocation does to the outside world and to the set of
    notified tokens, in program order. *)
Inductive Event :=
| EvSkip                    (* the "previous check is still running" log *)
| EvFetch                   (* the stock provider is awaited *)
| EvClear                   (* [notified.clear()] *)
| EvAdd (tok : string)      (* [notified.add(tok)] *)
| EvQuiet (quiet : bool)    (* [isQuietHours()] is evaluated *)
| EvSend (body : string)    (* the alert sender is awaited *)
| EvFatal.                  (* the FATAL ERROR log of the catch block *)

Inductive Outcome :=
| Skipped | Idle | NoStock | NoMatches | Suppressed
| NotConfigured | Delivered (ok : bool) | Threw.

Record Report := {
  outcome : Outcome;
  newlyFoundKeywordItems : list MatchResult;
  messageBody : option string;
  trace : list Event
}.

(** A sequence of invocations of [step], each with its own answers of
    the outside world. *)
Fixpoint runAll {St W : Type} (step : W -> St -> St * Report)
    (ws : list W) (s : St) : St * list Report :=
  match ws with
  | [] => (s, [])
  | w :: ws' =>
      let '(s1, rep) := step w s in
      let '(s2, reps) := runAll step ws' s1 in
      (s2, rep :: reps)
  end.

(** The invocations [ws], started in [s], stay in the epoch of [s]: none
    of them changes the stored signature. *)
Fixpoint sameEpoch {St W : Type} (stored : St -> string)
    (step : W -> St -> St * Report) (ws : list W) (s : St) : Prop :=
  match ws with
  | [] => True
  | w :: ws' =>
      stored (fst (step w s)) = stored s /\
      sameEpoch stored step ws' (fst (step w s))
  end.

(** The part of a trace that precedes the quiet-hours decision and the
    call of the alert sender. *)
Fixpoint beforeGate (tr : list Event) : list Event :=
  match tr with
  | [] => []
  | EvQuiet _ :: _ => []
  | EvSend _ :: _ => []
  | e :: tr' => e :: beforeGate tr'
  end.

(** The bodies handed to the alert sender, in order. *)
Fixpoint sends (tr : list Event) : list string :=
  match tr with
  | [] => []
  | EvSend body :: tr' => body :: sends tr'
  | _ :: tr' => sends tr'
  end.

Definition notGate (e : Event) : Prop :=
  match e with
  | EvQuiet _ | EvSend _ => False
  | _ => True
  end.

(** What the matching loop of [app.js] maintains, [N0] being the notified
    set when the loop starts: the set grows by the tokens of the matches,
    every addition is recorded, and a token is matched only once and only
    when it was not in [N0]. *)
Definition scanInv (N0 : gset string)
    (acc : gset string * list MatchResult * list Event) : Prop :=
  fst (fst acc) = list_to_set (map resultToken (snd (fst acc))) ∪ N0 /\
  snd acc = map (fun m => EvAdd (resultToken m)) (snd (fst acc)) /\
  Forall (fun m => resultToken m ∉ N0) (snd (fst acc)) /\
  NoDup (map resultToken (snd (fst acc))).

(** [includes] on lower-cased strings: the keyword test of both variants. *)
Definition keywordHit (itemNameLower kw : string) : bool :=
  JS.includes itemNameLower (JS.toLowerCase kw).

(** No code unit of [s] is a comma. *)
Fixpoint commaFree (s : string) : bool :=
  match s with
  | EmptyString => true
  | String c s' => negb (Ascii.eqb c ",") && commaFree s'
  end.

(** ** The modular variant: [config.js], [scraper.js], [notifier.js], [app.js] *)

Module App.

(** *** config.js *)

Definition TARGET_MINUTES : list Z := [2; 6; 11; 16; 21; 26; 31; 36; 41; 46; 51; 56]%Z.
Definition TARGET_SECONDS : Z := 30.

(** The values read from the environment ([QUIET_HOURS_START],
    [QUIET_HOURS_END]) and the keyword list. *)
Record Config := {
  QUIET_HOURS_START : Z;
  QUIET_HOURS_END : Z;
  KEYWORDS_TO_MONITOR : list string
}.

(** The configuration of [config.js] when the environment sets nothing. *)
Definition defaultConfig : Config := {|
  QUIET_HOURS_START := 0;
  QUIET_HOURS_END := 9;
  KEYWORDS_TO_MONITOR :=
    ["Sugar Apple"; "Feijoa"; "Loquat"; "Prickly Pear"; "Bell Pepper";
     "Kiwi"; "Pineapple"; "Bug Egg"; "Lightning Rod"; "Master Sprinkler"]
|}.

(** *** scraper.js *)

(** [{ seedsStock: [], eggStock: [], gearStock: [] }] *)
Record Stock := {
  seedsStock : list StockItem;
  eggStock : list StockItem;
  gearStock : list StockItem
}.

(** The three arrays of the [stock] object; [stockCategories] holds
    references to them, two headings sharing [stock.gearStock]. *)
Inductive ArrayRef := RefSeeds | RefEgg | RefGear.

Definition stockCategories : list (string * ArrayRef) :=
  [("SEEDS STOCK", RefSeeds); ("EGG STOCK", RefEgg); ("GEAR STOCK", RefGear);
   ("HONEY STOCK", RefGear); ("COSMETICS STOCK", RefGear)].

(** [targetList.push(item)] through a reference. *)
Definition push (r : ArrayRef) (item : StockItem) (stock : Stock) : Stock :=
  match r with
  | RefSeeds => {| seedsStock := seedsStock stock ++ [item];
                   eggStock := eggStock stock; gearStock := gearStock stock |}
  | RefEgg => {| seedsStock := seedsStock stock;
                 eggStock := eggStock stock ++ [item]; gearStock := gearStock stock |}
  | RefGear => {| seedsStock := seedsStock stock;
                  eggStock := eggStock stock; gearStock := gearStock stock ++ [item] |}
  end.

(** The page as the selectors of [fetchStockData] see it (cheerio is an
    external library): for a heading text, [None] when
    [$('h2:contains(..)')] is empty, otherwise the text of the first
    [span] of every [li] under the first sibling [ul]. *)
Definition Page := string -> option (list string).

(** What the try block can run into. *)
Inductive Response :=
| BadProxy                       (* [new URL(proxyUrl)] throws *)
| RequestFailed                  (* [axios.get] rejects *)
| ParseFailed                    (* cheerio throws *)
| Html (page : Page).

Definition scrapeItem (r : ArrayRef) (stock : Stock) (text : string) : Stock :=
  let itemName := JS.trim text in
  if JS.truthy itemName then push r {| name := Some itemName |} stock else stock.

Definition scrapeCategory (page : Page) (stock : Stock)
    (entry : string * ArrayRef) : Stock :=
  match page (fst entry) with
  | None => stock
  | Some lis => fold_left (scrapeItem (snd entry)) lis stock
  end.

(** [fetchStockData]: [None] is [null]. *)
Definition fetchStockData (resp : Response) : option Stock :=
  match resp with
  | Html page =>
      Some (fold_left (scrapeCategory page) stockCategories
              {| seedsStock := []; eggStock := []; gearStock := [] |})
  | _ => None
  end.

(** What the specification expects under one heading: an item for every
    [li] whose trimmed text is not empty. *)
Definition scraped (page : Page) (heading : string) : list StockItem :=
  match page heading with
  | None => []
  | Some lis =>
      flat_map (fun text => if JS.truthy (JS.trim text)
                            then [{| name := Some (JS.trim text) |}] else []) lis
  end.

(** *** notifier.js *)

(** [sendWhatsAppAlert]: [isInitialized] is the module flag, [twilio]
    the outcome of [twilioClient.messages.create]. *)
Definition sendWhatsAppAlert (isInitialized : bool) (twilio : Awaited unit) : bool :=
  if isInitialized then
    match twilio with Resolved _ => true | Rejected => false end
  else false.

(** *** app.js *)

Record State := {
  notifiedItemsThisOverallStockCycle : gset string;
  previousOverallStockSignature : string;
  isCheckRunning : bool
}.

Definition initialState : State := {|
  notifiedItemsThisOverallStockCycle := ∅;
  previousOverallStockSignature := "";
  isCheckRunning := false
|}.

Definition setRunning (b : bool) (s : State) : State := {|
  notifiedItemsThisOverallStockCycle := notifiedItemsThisOverallStockCycle s;
  previousOverallStockSignature := previousOverallStockSignature s;
  isCheckRunning := b
|}.

Definition setNotified (n : gset string) (s : State) : State := {|
  notifiedItemsThisOverallStockCycle := n;
  previousOverallStockSignature := previousOverallStockSignature s;
  isCheckRunning := isCheckRunning s
|}.

(** [isQuietHours], on the hour that [getCurrentTimeInTimezone] returns. *)
Definition isQuietHours (cfg : Config) (hour : Z) : bool :=
  if (QUIET_HOURS_START cfg <? QUIET_HOURS_END cfg)%Z then
    (QUIET_HOURS_START cfg <=? hour)%Z && (hour <? QUIET_HOURS_END cfg)%Z
  else
    (QUIET_HOURS_START cfg <=? hour)%Z || (hour <? QUIET_HOURS_END cfg)%Z.

(** [new Date()] as the formatter reads it in [TIMEZONE]: the time of
    day, with the hour from 0 to 23. *)
Record Now := {
  hourOfDay : Z;
  minuteOfHour : Z;
  secondOfMinute : Z
}.

(** The [hour] part that [Intl.DateTimeFormat('en-US', { hour: '2-digit',
    hour12: false, .. }).formatToParts(now)] yields on the Node 18 that
    the Dockerfile installs: for the locale [en-US] the option
    [hour12: false] selects the hour cycle that counts from 1 to 24, so
    the hour after midnight is printed as [24], not [00]. *)
Definition hourPart (now : Now) : Z :=
  if (hourOfDay now =? 0)%Z then 24 else hourOfDay now.

(** [getCurrentTimeInTimezone]: the parts [{ hour, minute, second }],
    parsed by [parseInt] ([formatted] is built from them for the logs). *)
Definition getCurrentTimeInTimezone (now : Now) : Z * Z * Z :=
  (hourPart now, minuteOfHour now, secondOfMinute now).

(** [isQuietHours()] as the program calls it, with the clock it reads. *)
Definition isQuietHoursNow (cfg : Config) (now : Now) : bool :=
  let '(hour, _, _) := getCurrentTimeInTimezone now in
  isQuietHours cfg hour.

(** The keys of [stock], in the order of [Object.keys(stock)]. *)
Inductive CatKey := KeySeeds | KeyEgg | KeyGear.

Definition keys : list CatKey := [KeySeeds; KeyEgg; KeyGear].

Definition get (stock : Stock) (catKey : CatKey) : list StockItem :=
  match catKey with
  | KeySeeds => seedsStock stock
  | KeyEgg => eggStock stock
  | KeyGear => gearStock stock
  end.

Definition categoryMap (catKey : CatKey) : string :=
  match catKey with
  | KeySeeds => "Seeds"
  | KeyEgg => "Egg"
  | KeyGear => "Gear/Honey/Cosmetics"
  end.

(** [if (item && item.name) allCurrentStockItems.push(...)] *)
Definition signatureToken (catKey : CatKey) (item : StockItem) : list string :=
  match name item with
  | Some n => if JS.truthy n then [token n (categoryMap catKey)] else []
  | None => []
  end.

Definition allCurrentStockItems (stock : Stock) : list string :=
  flat_map (fun catKey => flat_map (signatureToken catKey) (get stock catKey)) keys.

Definition currentOverallStockSignature (stock : Stock) : string :=
  JS.join "," (JS.sort (allCurrentStockItems stock)).

(** The items that count for the signature, with the key of their
    array, and the multiset of (name, mapped category) pairs they form:
    the items with a non-empty name, the only ones [fetchStockData]
    produces. *)
Definition namedItem (catKey : CatKey) (item : StockItem) : list (string * CatKey) :=
  match name item with
  | Some n => if JS.truthy n then [(n, catKey)] else []
  | None => []
  end.

Definition namedItems (stock : Stock) : list (string * CatKey) :=
  flat_map (fun catKey => flat_map (namedItem catKey) (get stock catKey)) keys.

Definition labelOf (p : string * CatKey) : string * string :=
  (fst p, categoryMap (snd p)).

Definition tokenOf (p : string * CatKey) : string :=
  token (fst p) (categoryMap (snd p)).

Definition pairs (stock : Stock) : list (string * string) :=
  map labelOf (namedItems stock).

(** No name of the snapshot holds a comma. *)
Definition commaFreeNames (stock : Stock) : Prop :=
  Forall (fun p => commaFree (fst p) = true) (pairs stock).

(** The accumulator of the matching loops: the notified set, the
    matches found so far and the additions made, in order. *)
Definition Scan : Type := gset string * list MatchResult * list Event.

(** The body of [stock[catKey].forEach(item => ...)]. *)
Definition scanItem (keywords : list string) (catKey : CatKey)
    (acc : Scan) (item : StockItem) : Scan :=
  let '(notified, found, evs) := acc in
  match name item with
  | None => acc
  | Some n =>
      if negb (JS.truthy n) then acc
      else
        let itemIdentifier := token n (categoryMap catKey) in
        if decide (itemIdentifier ∈ notified) then acc
        else
          let lowerCaseItemName := JS.toLowerCase n in
          match find (keywordHit lowerCaseItemName) keywords with
          | Some matchedKeyword =>
              if JS.truthy matchedKeyword then
                ({[itemIdentifier]} ∪ notified,
                 found ++ [{| itemName := n; category := categoryMap catKey;
                              matchedKeyword := matchedKeyword |}],
                 evs ++ [EvAdd itemIdentifier])
              else acc
          | None => acc
          end
  end.

Definition scanCategory (keywords : list string) (stock : Stock)
    (acc : Scan) (catKey : CatKey) : Scan :=
  fold_left (scanItem keywords catKey) (get stock catKey) acc.

Definition scanStock (keywords : list string) (stock : Stock)
    (notified : gset string) : Scan :=
  fold_left (scanCategory keywords stock) keys (notified, [], []).

Definition messageLine (m : MatchResult) : string :=
  JS.nl +:+ "- *" +:+ itemName m +:+ "* (Category: " +:+ category m +:+ ")".

Definition buildMessage (found : list MatchResult) : string :=
  fold_left (fun body m => body +:+ messageLine m) found
    ("*Grow A Garden Stock Alert!* 🌱" +:+ JS.nl +:+ JS.nl +:+ "New items in stock:" +:+ JS.nl).

(** What the awaited calls and the clock answer during one invocation. *)
Record World := {
  fetched : Awaited (option Stock);    (* [await fetchStockData()] *)
  hour : Z;                            (* [getCurrentTimeInTimezone().hour] *)
  sent : Awaited bool                  (* [await sendWhatsAppAlert(body)] *)
}.

(** The signature check: clear and store on a change. *)
Definition detectChange (stock : Stock) (s : State) : State * list Event :=
  let current := currentOverallStockSignature stock in
  if decide (current ≠ previousOverallStockSignature s) then
    ({| notifiedItemsThisOverallStockCycle := ∅;
        previousOverallStockSignature := current;
        isCheckRunning := isCheckRunning s |}, [EvClear])
  else (s, []).

(** Where the [try] block stands when it stops running: it has
    completed, or it is suspended at [await sendWhatsAppAlert(messageBody)]. *)
Inductive Progress :=
| Completed (rep : Report)
| AwaitingSend (found : list MatchResult) (body : string) (evs : list Event).

(** The [try] block from the answer of [fetchStockData] to the call of
    the sender; the outcome [Threw] is an exception that leaves the
    block. *)
Definition untilSend (cfg : Config) (fetched : Awaited (option Stock)) (hour : Z)
    (s : State) : State * Progress :=
  match fetched with
  | Rejected =>
      (s, Completed {| outcome := Threw; newlyFoundKeywordItems := [];
                       messageBody := None; trace := [EvFetch] |})
  | Resolved None =>
      (s, Completed {| outcome := NoStock; newlyFoundKeywordItems := [];
                       messageBody := None; trace := [EvFetch] |})
  | Resolved (Some stock) =>
      let '(s1, evs1) := detectChange stock s in
      let '(notified, found, evs2) :=
        scanStock (KEYWORDS_TO_MONITOR cfg) stock
          (notifiedItemsThisOverallStockCycle s1) in
      let s2 := setNotified notified s1 in
      let evs := EvFetch :: evs1 ++ evs2 in
      match found with
      | [] =>
          (s2, Completed {| outcome := NoMatches; newlyFoundKeywordItems := [];
                            messageBody := None; trace := evs |})
      | _ :: _ =>
          let body := buildMessage found in
          if isQuietHours cfg hour then
            (s2, Completed {| outcome := Suppressed; newlyFoundKeywordItems := found;
                              messageBody := Some body;
                              trace := evs ++ [EvQuiet true] |})
          else
            (s2, AwaitingSend found body (evs ++ [EvQuiet false; EvSend body]))
      end
  end.

(** The rest of the [try] block, once the sender has answered. *)
Definition afterSend (sent : Awaited bool) (found : list MatchResult)
    (body : string) (evs : list Event) : Report :=
  match sent with
  | Resolved success =>
      {| outcome := Delivered success; newlyFoundKeywordItems := found;
         messageBody := Some body; trace := evs |}
  | Rejected =>
      {| outcome := Threw; newlyFoundKeywordItems := found;
         messageBody := Some body; trace := evs |}
  end.

(** The whole [try] block. *)
Definition tryBlock (cfg : Config) (w : World) (s : State) : State * Report :=
  let '(s', progress) := untilSend cfg (fetched w) (hour w) s in
  (s', match progress with
       | Completed rep => rep
       | AwaitingSend found body evs => afterSend (sent w) found body evs
       end).

(** [catch] logs, [finally] releases the lock. *)
Definition catchFinally (r : State * Report) : State * Report :=
  let '(s, rep) := r in
  (setRunning false s,
   match outcome rep with
   | Threw => {| outcome := Threw;
                 newlyFoundKeywordItems := newlyFoundKeywordItems rep;
                 messageBody := messageBody rep;
                 trace := trace rep ++ [EvFatal] |}
   | _ => rep
   end).

Definition checkStockAndNotify (cfg : Config) (w : World) (s : State) : State * Report :=
  if isCheckRunning s then
    (s, {| outcome := Skipped; newlyFoundKeywordItems := [];
           messageBody := None; trace := [EvSkip] |})
  else
    catchFinally (tryBlock cfg w (setRunning true s)).

(** The callback that [mainScheduler] hands to [setInterval]. *)
Definition mainScheduler (cfg : Config) (minute second : Z) (w : World) (s : State)
    : State * Report :=
  if existsb (Z.eqb minute) TARGET_MINUTES && (second =? TARGET_SECONDS)%Z then
    checkStockAndNotify cfg w s
  else
    (s, {| outcome := Idle; newlyFoundKeywordItems := [];
           messageBody := None; trace := [] |}).

(** One invocation with the repository's own provider and sender. *)
Definition world (resp : Response) (h : Z) (isInitialized : bool)
    (twilio : Awaited unit) : World := {|
  fetched := Resolved (fetchStockData resp);
  hour := h;
  sent := Resolved (sendWhatsAppAlert isInitialized twilio)
|}.

(** A sequence of invocations, each with its own answers. *)
Definition run (cfg : Config) : list World -> State -> State * list Report :=
  runAll (checkStockAndNotify cfg).

(** *** The invocation between its awaits

    An invocation runs until its next [await]; in the meantime the timer
    may call [checkStockAndNotify] again.  The machine below holds the
    state and the suspended invocation, if any. *)
Inductive Pending :=
| PendingFetch
| PendingSend (found : list MatchResult) (body : string) (evs : list Event).

Inductive Signal :=
| Tick                                                   (* the timer invokes *)
| FetchSettled (a : Awaited (option Stock)) (hour : Z)   (* the provider answers *)
| SendSettled (a : Awaited bool).                        (* the sender answers *)

Definition deliver (cfg : Config) (m : State * option Pending) (sg : Signal)
    : State * option Pending :=
  match sg, snd m with
  | Tick, _ =>
      if isCheckRunning (fst m) then m
      else (setRunning true (fst m), Some PendingFetch)
  | FetchSettled a h, Some PendingFetch =>
      match untilSend cfg a h (fst m) with
      | (s', Completed rep) => (fst (catchFinally (s', rep)), None)
      | (s', AwaitingSend found body evs) => (s', Some (PendingSend found body evs))
      end
  | SendSettled a, Some (PendingSend found body evs) =>
      (fst (catchFinally (fst m, afterSend a found body evs)), None)
  | _, _ => m
  end.

(** The lock is held exactly while an invocation is suspended. *)
Definition consistent (m : State * option Pending) : Prop :=
  match snd m with
  | None => isCheckRunning (fst m) = false
  | Some _ => isCheckRunning (fst m) = true
  end.

End App.

(** ** The single-file variant: [FetchData.js] *)

Module FetchData.

(** *** Application configuration *)

Definition TARGET_MINUTES : list Z := [1; 5; 10; 15; 20; 25; 30; 35; 40; 45; 50; 55]%Z.
Definition TARGET_SECONDS : Z := 30.
Definition TIMEZONE : string := "Asia/Jerusalem".

(** The values read from the environment, the keyword list, and whether
    the Twilio client could be created ([twilioClient] is defined). *)
Record Config := {
  QUIET_HOURS_START : Z;
  QUIET_HOURS_END : Z;
  keywordsToMonitor : list string;
  twilioClient : bool
}.

Definition defaultConfig (client : bool) : Config := {|
  QUIET_HOURS_START := 0;
  QUIET_HOURS_END := 9;
  keywordsToMonitor :=
    ["Dragon Fruit"; "Mango"; "Grape"; "Mushroom"; "Pepper"; "Cacao";
     "Beanstalk"; "Bug Egg"; "Legendary Egg"; "Mythical Egg"; "Lightning Rod"];
  twilioClient := client
|}.

(** The object that [fetchGrowAGardenStock] returns, as far as the
    program reads it: a property is [None] when it is missing or is not
    an array. *)
Record StockData := {
  seedsStock : option (list StockItem);
  eggStock : option (list StockItem);
  gearStock : option (list StockItem)
}.

(** What [getCurrentTimeInJerusalem] returns, as far as it is used. *)
Record Time := {
  hour : Z;
  minute : Z;
  second : Z;
  formatted : string
}.

Record State := {
  notifiedItemsThisOverallStockCycle : gset string;
  previousOverallStockSignature : string;
  isCheckRunning : bool
}.

Definition initialState : State := {|
  notifiedItemsThisOverallStockCycle := ∅;
  previousOverallStockSignature := "";
  isCheckRunning := false
|}.

Definition setRunning (b : bool) (s : State) : State := {|
  notifiedItemsThisOverallStockCycle := notifiedItemsThisOverallStockCycle s;
  previousOverallStockSignature := previousOverallStockSignature s;
  isCheckRunning := b
|}.

Definition setNotified (n : gset string) (s : State) : State := {|
  notifiedItemsThisOverallStockCycle := n;
  previousOverallStockSignature := previousOverallStockSignature s;
  isCheckRunning := isCheckRunning s
|}.

(** [isQuietHours(currentTime)] *)
Definition isQuietHours (cfg : Config) (currentTime : Time) : bool :=
  let currentHour := hour currentTime in
  if (QUIET_HOURS_START cfg <=? currentHour)%Z && (currentHour <? QUIET_HOURS_END cfg)%Z
  then true else false.

(** [const categories = ['seedsStock', 'eggStock', 'gearStock']] *)
Inductive CatKey := KeySeeds | KeyEgg | KeyGear.

Definition categories : list CatKey := [KeySeeds; KeyEgg; KeyGear].

Definition get (stockData : StockData) (catKey : CatKey) : option (list StockItem) :=
  match catKey with
  | KeySeeds => seedsStock stockData
  | KeyEgg => eggStock stockData
  | KeyGear => gearStock stockData
  end.

Definition categoryMap (catKey : CatKey) : string :=
  match catKey with
  | KeySeeds => "Seed"
  | KeyEgg => "Egg"
  | KeyGear => "Gear"
  end.

(** The inner [for (const keyword of currentKeywords)] loop: it stops at
    the first keyword that the name includes. *)
Fixpoint scanKeywords (itemName itemNameLower categoryName : string)
    (notifiedItemsSet : gset string) (currentKeywords : list string)
    : list MatchResult :=
  match currentKeywords with
  | [] => []
  | keyword :: rest =>
      if JS.includes itemNameLower (JS.toLowerCase keyword) then
        if decide (token itemName categoryName ∈ notifiedItemsSet) then []
        else [{| itemName := itemName; category := categoryName;
                 matchedKeyword := keyword |}]
      else scanKeywords itemName itemNameLower categoryName notifiedItemsSet rest
  end.

Definition findInItem (categoryName : string) (currentKeywords : list string)
    (notifiedItemsSet : gset string) (item : StockItem) : list MatchResult :=
  match name item with
  | None => []
  | Some itemName =>
      scanKeywords itemName (JS.toLowerCase itemName) categoryName
        notifiedItemsSet currentKeywords
  end.

Definition findNewKeywordItemsInCategory (items : option (list StockItem))
    (categoryName : string) (currentKeywords : list string)
    (notifiedItemsSet : gset string) : list MatchResult :=
  match items with
  | None => []
  | Some items => flat_map (findInItem categoryName currentKeywords notifiedItemsSet) items
  end.

(** [if (item && typeof item.name === 'string') ...push(...)] *)
Definition signatureToken (catKey : CatKey) (item : StockItem) : list string :=
  match name item with
  | Some n => [token n (categoryMap catKey)]
  | None => []
  end.

Definition allCurrentStockItemsForSignature (stockData : StockData) : list string :=
  flat_map (fun catKey =>
              match get stockData catKey with
              | Some items => flat_map (signatureToken catKey) items
              | None => []
              end) categories.

Definition currentOverallStockSignature (stockData : StockData) : string :=
  JS.join "," (JS.sort (allCurrentStockItemsForSignature stockData)).

(** The items that count for the signature, with the key of their
    array, and the multiset of (name, mapped category) pairs they form. *)
Definition namedItem (catKey : CatKey) (item : StockItem) : list (string * CatKey) :=
  match name item with
  | Some n => [(n, catKey)]
  | None => []
  end.

Definition namedItems (stockData : StockData) : list (string * CatKey) :=
  flat_map (fun catKey =>
              match get stockData catKey with
              | Some items => flat_map (namedItem catKey) items
              | None => []
              end) categories.

Definition labelOf (p : string * CatKey) : string * string :=
  (fst p, categoryMap (snd p)).

Definition tokenOf (p : string * CatKey) : string :=
  token (fst p) (categoryMap (snd p)).

Definition pairs (stockData : StockData) : list (string * string) :=
  map labelOf (namedItems stockData).

(** No name of the snapshot holds a comma. *)
Definition commaFreeNames (stockData : StockData) : Prop :=
  Forall (fun p => commaFree (fst p) = true) (pairs stockData).

Definition detectChange (stockData : StockData) (s : State) : State * list Event :=
  let current := currentOverallStockSignature stockData in
  if decide (current ≠ previousOverallStockSignature s) then
    ({| notifiedItemsThisOverallStockCycle := ∅;
        previousOverallStockSignature := current;
        isCheckRunning := isCheckRunning s |}, [EvClear])
  else (s, []).

(** The keyword matcher over the whole snapshot. *)
Definition findAll (keywords : list string) (stockData : StockData)
    (notified : gset string) : list MatchResult :=
  flat_map (fun catKey =>
              match get stockData catKey with
              | Some items =>
                  findNewKeywordItemsInCategory (Some items) (categoryMap catKey)
                    keywords notified
              | None => []
              end) categories.

Definition messageLine (m : MatchResult) : string :=
  JS.nl +:+ "- *" +:+ itemName m +:+ "* (Category: " +:+ category m +:+
  ", Keyword: " +:+ JS.dquote +:+ matchedKeyword m +:+ JS.dquote +:+ ")".

Definition buildMessage (currentTimeDetails : Time) (found : list MatchResult) : string :=
  fold_left (fun body m => body +:+ messageLine m) found
    ("*GrowAGarden Stock Alert!* 🌱 (" +:+ formatted currentTimeDetails +:+ " " +:+
     TIMEZONE +:+ ")" +:+ JS.nl +:+ JS.nl +:+ "New keyword items in stock:" +:+ JS.nl)
  +:+ JS.nl +:+ JS.nl +:+
  "Check now: https://www.roblox.com/games/126884695634066/Grow-a-Garden#ropro-quick-play".

(** [newlyFoundKeywordItems.forEach(item => notified.add(...))] *)
Definition markAll (found : list MatchResult) (notified : gset string)
    : gset string * list Event :=
  fold_left (fun acc m => ({[resultToken m]} ∪ fst acc, snd acc ++ [EvAdd (resultToken m)]))
    found (notified, []).

(** What the awaited calls answer during one invocation. *)
Record World := {
  fetched : Awaited (option StockData);   (* [await fetchGrowAGardenStock()] *)
  created : Awaited unit                  (* [await twilioClient.messages.create(..)] *)
}.

(** [checkStockAndNotify(currentTimeDetails)]; the outcome [Threw] is an
    exception that leaves the function. *)
Definition checkStockAndNotify (cfg : Config) (currentTimeDetails : Time)
    (w : World) (s : State) : State * Report :=
  match fetched w with
  | Rejected =>
      (s, {| outcome := Threw; newlyFoundKeywordItems := [];
             messageBody := None; trace := [EvFetch] |})
  | Resolved None =>
      (s, {| outcome := NoStock; newlyFoundKeywordItems := [];
             messageBody := None; trace := [EvFetch] |})
  | Resolved (Some stockData) =>
      let '(s1, evs1) := detectChange stockData s in
      let found :=
        findAll (keywordsToMonitor cfg) stockData
          (notifiedItemsThisOverallStockCycle s1) in
      match found with
      | [] =>
          (s1, {| outcome := NoMatches; newlyFoundKeywordItems := [];
                  messageBody := None; trace := EvFetch :: evs1 |})
      | _ :: _ =>
          let body := buildMessage currentTimeDetails found in
          let '(notified, evs2) :=
            markAll found (notifiedItemsThisOverallStockCycle s1) in
          let s2 := setNotified notified s1 in
          let evs := EvFetch :: evs1 ++ evs2 in
          if isQuietHours cfg currentTimeDetails then
            (s2, {| outcome := Suppressed; newlyFoundKeywordItems := found;
                    messageBody := Some body; trace := evs ++ [EvQuiet true] |})
          else if twilioClient cfg then
            (s2, {| outcome := Delivered (match created w with
                                          | Resolved _ => true
                                          | Rejected => false
                                          end);
                    newlyFoundKeywordItems := found;
                    messageBody := Some body;
                    trace := evs ++ [EvQuiet false; EvSend body] |})
          else
            (s2, {| outcome := NotConfigured; newlyFoundKeywordItems := found;
                    messageBody := Some body; trace := evs ++ [EvQuiet false] |})
      end
  end.

(** [catch] logs, [finally] releases the lock. *)
Definition catchFinally (r : State * Report) : State * Report :=
  let '(s, rep) := r in
  (setRunning false s,
   match outcome rep with
   | Threw => {| outcome := Threw;
                 newlyFoundKeywordItems := newlyFoundKeywordItems rep;
                 messageBody := messageBody rep;
                 trace := trace rep ++ [EvFatal] |}
   | _ => rep
   end).

(** [mainScheduler], once [getCurrentTimeInJerusalem] has returned
    [currentTime]. *)
Definition mainScheduler (cfg : Config) (currentTime : Time) (w : World)
    (s : State) : State * Report :=
  if existsb (Z.eqb (minute currentTime)) TARGET_MINUTES
     && (second currentTime =? TARGET_SECONDS)%Z then
    if isCheckRunning s then
      (s, {| outcome := Skipped; newlyFoundKeywordItems := [];
             messageBody := None; trace := [EvSkip] |})
    else
      catchFinally (checkStockAndNotify cfg currentTime w (setRunning true s))
  else
    (s, {| outcome := Idle; newlyFoundKeywordItems := [];
           messageBody := None; trace := [] |}).

(** A sequence of scheduler ticks, each with its time and its answers. *)
Definition run (cfg : Config) : list (Time * World) -> State -> State * list Report :=
  runAll (fun tick => mainScheduler cfg (fst tick) (snd tick)).

End FetchData.

(** ** The manual scraper test: [test-proxy.js] *)

Module TestProxy.

(** [[...stock.seedsStock, ...stock.eggStock, ...stock.gearStock]] *)
Definition allStockItems (stock : App.Stock) : list StockItem :=
  App.seedsStock stock ++ App.eggStock stock ++ App.gearStock stock.

(** [KEYWORDS_TO_MONITOR.includes(item.name)]: the name is one of the
    keywords, letter for letter. *)
Definition monitored (keywords : list string) (item : StockItem) : bool :=
  match name item with
  | Some n => existsb (String.eqb n) keywords
  | None => false
  end.

Definition foundItems (keywords : list string) (stock : App.Stock) : list StockItem :=
  List.filter (monitored keywords) (allStockItems stock).

(** [`${item.name} (${item.stock})`]: the items of the scraper have no
    [stock] property. *)
Definition describe (item : StockItem) : string :=
  match name item with Some n => n | None => "undefined" end +:+ " (undefined)".

(** What [runTest] logs. *)
Inductive Verdict :=
| ScraperFailed                     (* the scraper returned no data *)
| NothingMonitored                  (* no monitored item is in stock *)
| InStock (itemNames : string)      (* the monitored items in stock *)
| Unexpected.                       (* the catch block *)

Definition runTest (keywords : list string) (fetched : Awaited (option App.Stock))
    : Verdict :=
  match fetched with
  | Rejected => Unexpected
  | Resolved None => ScraperFailed
  | Resolved (Some stock) =>
      match foundItems keywords stock with
      | [] => NothingMonitored
      | found => InStock (JS.join ", " (map describe found))
      end
  end.

End TestProxy.

(** ** The consolidated variant before the scheduler: [FetchData.js], second version

    It runs every five minutes, has neither lock nor quiet hours, and
    marks the matches as notified only after a successful send.  Its
    loops read [item.name] and call [itemName.toLowerCase()] without a
    guard: [findNewKeywordItemsInEntries] is the matcher on an array of
    arbitrary entries, where it can throw; the cycle is modelled on the
    snapshots whose entries are objects with a string name or none
    ([None] is a missing name), on which nothing throws. *)

Module FetchData2.

Record Config := {
  keywordsToMonitor : list string;
  twilioClient : bool
}.

Definition defaultConfig (client : bool) : Config := {|
  keywordsToMonitor :=
    ["Dragon Fruit"; "Mango"; "Grape"; "Mushroom"; "Pepper"; "Cacao";
     "Beanstalk"; "Bug Egg"; "Legendary Egg"; "Mythical Egg"; "Lightning Rod";
     "Godly Sprinkler"];
  twilioClient := client
|}.

Record State := {
  notifiedItemsThisOverallStockCycle : gset string;
  previousOverallStockSignature : string
}.

Definition initialState : State := {|
  notifiedItemsThisOverallStockCycle := ∅;
  previousOverallStockSignature := ""
|}.

(** [item.name + '|Seed']: a missing name prints as [undefined]. *)
Definition signatureToken (catKey : FetchData.CatKey) (item : StockItem) : string :=
  match name item with Some n => n | None => "undefined" end +:+ "|" +:+
  FetchData.categoryMap catKey.

Definition allCurrentStockItemsForSignature (stockData : FetchData.StockData)
    : list string :=
  flat_map (fun catKey =>
              match FetchData.get stockData catKey with
              | Some items => map (signatureToken catKey) items
              | None => []
              end) FetchData.categories.

Definition currentOverallStockSignature (stockData : FetchData.StockData) : string :=
  JS.join "," (JS.sort (allCurrentStockItemsForSignature stockData)).

(** The body of the loop of [findNewKeywordItemsInCategory] on an entry
    that is an object with a string name or none:
    [if (!itemName) continue] skips a missing and an empty name. *)
Definition findInItem (categoryName : string) (currentKeywords : list string)
    (notifiedItemsSet : gset string) (item : StockItem) : list MatchResult :=
  match name item with
  | None => []
  | Some itemName =>
      if JS.truthy itemName then
        FetchData.scanKeywords itemName (JS.toLowerCase itemName) categoryName
          notifiedItemsSet currentKeywords
      else []
  end.

(** The same body on an arbitrary entry; [None] is a [TypeError]:
    [item.name] on [null], or [itemName.toLowerCase()] on a truthy value
    that is not a string. *)
Definition findInEntry (categoryName : string) (currentKeywords : list string)
    (notifiedItemsSet : gset string) (item : Entry) : option (list MatchResult) :=
  match item with
  | EntryNull => None
  | EntryValue NameUndefined => Some []
  | EntryValue (NameString itemName) =>
      Some (if JS.truthy itemName then
              FetchData.scanKeywords itemName (JS.toLowerCase itemName) categoryName
                notifiedItemsSet currentKeywords
            else [])
  | EntryValue (NameOther truthy) => if truthy then None else Some []
  end.

(** [findNewKeywordItemsInCategory] on an array of arbitrary entries: the
    first entry that throws ends the loop, and the function with it. *)
Fixpoint findNewKeywordItemsInEntries (items : list Entry) (categoryName : string)
    (currentKeywords : list string) (notifiedItemsSet : gset string)
    : option (list MatchResult) :=
  match items with
  | [] => Some []
  | item :: rest =>
      match findInEntry categoryName currentKeywords notifiedItemsSet item with
      | None => None
      | Some found =>
          match findNewKeywordItemsInEntries rest categoryName currentKeywords
                  notifiedItemsSet with
          | None => None
          | Some foundItems => Some (found ++ foundItems)
          end
      end
  end.

Definition findNewKeywordItemsInCategory (items : option (list StockItem))
    (categoryName : string) (currentKeywords : list string)
    (notifiedItemsSet : gset string) : list MatchResult :=
  match items with
  | None => []
  | Some items => flat_map (findInItem categoryName currentKeywords notifiedItemsSet) items
  end.

Definition findAll (keywords : list string) (stockData : FetchData.StockData)
    (notified : gset string) : list MatchResult :=
  flat_map (fun catKey =>
              match FetchData.get stockData catKey with
              | Some items =>
                  findNewKeywordItemsInCategory (Some items)
                    (FetchData.categoryMap catKey) keywords notified
              | None => []
              end) FetchData.categories.

Definition buildMessage (found : list MatchResult) : string :=
  fold_left (fun body m => body +:+ FetchData.messageLine m) found
    ("*GrowAGarden Stock Alert!* 🌱" +:+ JS.nl +:+ JS.nl +:+
     "New keyword items in stock:" +:+ JS.nl)
  +:+ JS.nl +:+ JS.nl +:+
  "Check now: https://www.roblox.com/games/126884695634066/Grow-a-Garden#ropro-quick-play".

Definition detectChange (stockData : FetchData.StockData) (s : State)
    : State * list Event :=
  let current := currentOverallStockSignature stockData in
  if decide (current ≠ previousOverallStockSignature s) then
    ({| notifiedItemsThisOverallStockCycle := ∅;
        previousOverallStockSignature := current |}, [EvClear])
  else (s, []).

(** [checkStockAndNotify]; the outcome [Threw] is a rejection of
    [fetchGrowAGardenStock], which leaves the function. *)
Definition checkStockAndNotify (cfg : Config) (w : FetchData.World) (s : State)
    : State * Report :=
  match FetchData.fetched w with
  | Rejected =>
      (s, {| outcome := Threw; newlyFoundKeywordItems := [];
             messageBody := None; trace := [EvFetch] |})
  | Resolved None =>
      (s, {| outcome := NoStock; newlyFoundKeywordItems := [];
             messageBody := None; trace := [EvFetch] |})
  | Resolved (Some stockData) =>
      let '(s1, evs1) := detectChange stockData s in
      let found :=
        findAll (keywordsToMonitor cfg) stockData
          (notifiedItemsThisOverallStockCycle s1) in
      match found with
      | [] =>
          (s1, {| outcome := NoMatches; newlyFoundKeywordItems := [];
                  messageBody := None; trace := EvFetch :: evs1 |})
      | _ :: _ =>
          let body := buildMessage found in
          if twilioClient cfg then
            match FetchData.created w with
            | Resolved _ =>
                let '(notified, evs2) :=
                  FetchData.markAll found (notifiedItemsThisOverallStockCycle s1) in
                ({| notifiedItemsThisOverallStockCycle := notified;
                    previousOverallStockSignature := previousOverallStockSignature s1 |},
                 {| outcome := Delivered true; newlyFoundKeywordItems := found;
                    messageBody := Some body;
                    trace := EvFetch :: evs1 ++ [EvSend body] ++ evs2 |})
            | Rejected =>
                (s1, {| outcome := Delivered false; newlyFoundKeywordItems := found;
                        messageBody := Some body;
                        trace := EvFetch :: evs1 ++ [EvSend body] |})
            end
          else
            (s1, {| outcome := NotConfigured; newlyFoundKeywordItems := found;
                    messageBody := Some body; trace := EvFetch :: evs1 |})
      end
  end.

End FetchData2.

(** ** The first version of [FetchData.js]: one message per item

    Every match is sent on its own, inside the matching loop, and it is
    marked as notified only when its message has been delivered.  The
    signature check is that of the second version, and as there the
    cycle is modelled on the snapshots whose entries are objects with a
    string name or none. *)

Module FetchData1.

Record Config := {
  keywordsToMonitor : list string;
  twilioClient : bool
}.

Definition defaultConfig (client : bool) : Config := {|
  keywordsToMonitor :=
    ["Dragon Fruit"; "Mango"; "Grape"; "Mushroom"; "Pepper"; "Cacao";
     "Beanstalk"; "Bug Egg"; "Legendary Egg"; "Mythical Egg"; "Godly Sprinkler"];
  twilioClient := client
|}.

(** What the awaited calls answer during one invocation: [created k] is
    the answer to the call number [k] of [twilioClient.messages.create],
    counted from 0. *)
Record World := {
  fetched : Awaited (option FetchData.StockData);
  created : nat -> Awaited unit
}.

Definition notificationMessageWhatsapp (categoryName itemName : string) : string :=
  "*Grow a Garden Stock Alert!* ðŸŒ±" +:+ JS.nl +:+ JS.nl +:+
  "Category: " +:+ categoryName +:+ JS.nl +:+ "Item: *" +:+ itemName +:+ "*" +:+
  JS.nl +:+ JS.nl +:+
  "Now available: https://www.roblox.com/games/126884695634066/Grow-a-Garden#ropro-quick-play".

(** Where the loops of [processCategoryForKeywords] stand: the notified
    set, the number of calls of the sender made so far, what has been
    done in order, and the flag that the function returns. *)
Record Loop := {
  notifiedItemsSet : gset string;
  calls : nat;
  events : list Event;
  keywordFoundInCategoryThisCycle : bool
}.

(** The inner [for (const keyword of currentKeywords)] loop, with the
    send in it; it stops at the first keyword that the name includes. *)
Fixpoint scanKeywords (cfg : Config) (w : World)
    (itemName itemNameLower categoryName : string) (p : Loop)
    (currentKeywords : list string) : Loop :=
  match currentKeywords with
  | [] => p
  | keyword :: rest =>
      if JS.includes itemNameLower (JS.toLowerCase keyword) then
        let itemKeyForNotification := token itemName categoryName in
        if decide (itemKeyForNotification ∈ notifiedItemsSet p) then p
        else
          let body := notificationMessageWhatsapp categoryName itemName in
          if twilioClient cfg then
            match created w (calls p) with
            | Resolved _ =>
                {| notifiedItemsSet := {[itemKeyForNotification]} ∪ notifiedItemsSet p;
                   calls := S (calls p);
                   events := events p ++ [EvSend body; EvAdd itemKeyForNotification];
                   keywordFoundInCategoryThisCycle := true |}
            | Rejected =>
                {| notifiedItemsSet := notifiedItemsSet p;
                   calls := S (calls p);
                   events := events p ++ [EvSend body];
                   keywordFoundInCategoryThisCycle := true |}
            end
          else
            {| notifiedItemsSet := notifiedItemsSet p;
               calls := calls p;
               events := events p;
               keywordFoundInCategoryThisCycle := true |}
      else scanKeywords cfg w itemName itemNameLower categoryName p rest
  end.

(** The body of [for (const item of items)]. *)
Definition scanItem (cfg : Config) (w : World) (categoryName : string)
    (currentKeywords : list string) (p : Loop) (item : StockItem) : Loop :=
  match name item with
  | None => p
  | Some itemName =>
      if JS.truthy itemName then
        scanKeywords cfg w itemName (JS.toLowerCase itemName) categoryName p
          currentKeywords
      else p
  end.

(** [processCategoryForKeywords]: the flag of the result is the value
    returned. *)
Definition processCategoryForKeywords (cfg : Config) (w : World)
    (items : option (list StockItem)) (categoryName : string)
    (currentKeywords : list string) (p : Loop) : Loop :=
  let start := {| notifiedItemsSet := notifiedItemsSet p; calls := calls p;
                  events := events p; keywordFoundInCategoryThisCycle := false |} in
  match items with
  | None => start
  | Some items => fold_left (scanItem cfg w categoryName currentKeywords) items start
  end.

(** The three [if (stockData.xStock) { if (await processCategoryForKeywords(..))
    anyKeywordsFoundThisRun = true }] blocks, in order. *)
Definition processStock (cfg : Config) (w : World) (stockData : FetchData.StockData)
    (acc : Loop * bool) (catKey : FetchData.CatKey) : Loop * bool :=
  match FetchData.get stockData catKey with
  | Some items =>
      let p := processCategoryForKeywords cfg w (Some items)
                 (FetchData.categoryMap catKey) (keywordsToMonitor cfg) (fst acc) in
      (p, snd acc || keywordFoundInCategoryThisCycle p)
  | None => acc
  end.

(** What an invocation reports: [anyKeywordsFoundThisRun] and what it has
    done, in order. *)
Record Summary := {
  anyKeywordsFoundThisRun : bool;
  steps : list Event
}.

Definition checkStockAndNotify (cfg : Config) (w : World) (s : FetchData2.State)
    : FetchData2.State * Summary :=
  match fetched w with
  | Rejected => (s, {| anyKeywordsFoundThisRun := false; steps := [EvFetch] |})
  | Resolved None => (s, {| anyKeywordsFoundThisRun := false; steps := [EvFetch] |})
  | Resolved (Some stockData) =>
      let '(s1, evs1) := FetchData2.detectChange stockData s in
      let '(p, anyKeywordsFoundThisRun) :=
        fold_left (processStock cfg w stockData) FetchData.categories
          ({| notifiedItemsSet := FetchData2.notifiedItemsThisOverallStockCycle s1;
              calls := 0; events := EvFetch :: evs1;
              keywordFoundInCategoryThisCycle := false |}, false) in
      ({| FetchData2.notifiedItemsThisOverallStockCycle := notifiedItemsSet p;
          FetchData2.previousOverallStockSignature :=
            FetchData2.previousOverallStockSignature s1 |},
       {| anyKeywordsFoundThisRun := anyKeywordsFoundThisRun; steps := events p |})
  end.

End FetchData1.

(** ** Notions of the specification *)

(** "[kw] is a case-insensitive substring of [n]". *)
Definition containsIgnoringCase (n kw : string) : Prop :=
  exists pre post, JS.toLowerCase n = pre +:+ JS.toLowerCase kw +:+ post.

(** [kw] is the first keyword of [kws], in list order, that [n] contains. *)
Definition firstMatch (n : string) (kws : list string) (kw : string) : Prop :=
  exists pre post, kws = pre ++ kw :: post /\ containsIgnoringCase n kw /\
                   Forall (fun k => ~ containsIgnoringCase n k) pre.

(** An item of category [cat] that the keyword matcher must report: its
    name contains some keyword and its token is not in the notified set. *)
Definition wanted (kws : list string) (N : gset string)
    (tagged : string * StockItem) : Prop :=
  exists n, name (snd tagged) = Some n /\
            (exists kw, In kw kws /\ containsIgnoringCase n kw) /\
            token n (fst tagged) ∉ N.

(** The match result that reports the item. *)
Definition reports (kws : list string) (tagged : string * StockItem)
    (m : MatchResult) : Prop :=
  name (snd tagged) = Some (itemName m) /\ category m = fst tagged /\
  firstMatch (itemName m) kws (matchedKeyword m).

(** The output that the specification asks of the keyword matcher: going
    through the items in order, one result for every wanted item and
    nothing for the others. *)
Inductive Matched (kws : list string) (N : gset string)
    : list (string * StockItem) -> list MatchResult -> Prop :=
| Matched_nil : Matched kws N [] []
| Matched_hit tagged m items ms :
    wanted kws N tagged -> reports kws tagged m ->
    Matched kws N items ms -> Matched kws N (tagged :: items) (m :: ms)
| Matched_miss tagged items ms :
    ~ wanted kws N tagged ->
    Matched kws N items ms -> Matched kws N (tagged :: items) ms.

(** The items of a snapshot of [FetchData.js] with the label of their
    category, in the order of the category list. *)
Definition FetchData_tagged (d : FetchData.StockData) : list (string * StockItem) :=
  flat_map (fun catKey =>
              match FetchData.get d catKey with
              | Some items => map (pair (FetchData.categoryMap catKey)) items
              | None => []
              end) FetchData.categories.

(** The snapshot of the two-match scenario:
    [{Seed: [{name: "Mango"}], Egg: [{name: "Bug Egg"}]}]. *)
Definition scenarioStock : FetchData.StockData := {|
  FetchData.seedsStock := Some [item "Mango"];
  FetchData.eggStock := Some [item "Bug Egg"];
  FetchData.gearStock := None
|}.

(** ** Auxiliary notions of the proofs *)

(** [d] ends with [b]. *)
Fixpoint endsWith (d b : string) : bool :=
  if String.eqb d b then true
  else match d with
       | EmptyString => false
       | String _ d' => endsWith d' b
       end.

(** The length of [join(',')]: the elements and the separators. *)
Definition joinLength (l : list string) : nat :=
  list_sum (map String.length l) + (length l - 1).

(** What every token is: comma-free when its name is, and never empty. *)
Definition tokenLike (t : string) : Prop := commaFree t = true /\ t <> "".

(** The signature of an array of tokens. *)
Definition sortedJoin (l : list string) : string := JS.join "," (JS.sort l).

(** The name and the keyword with which the matching loop of [app.js]
    reports an item whose token is not notified yet: the name is not
    empty, the keyword is the first that the name includes, and it is
    not empty. *)
Definition App_hit (kws : list string) (it : StockItem) : option (string * string) :=
  match name it with
  | Some n =>
      if JS.truthy n then
        match find (keywordHit (JS.toLowerCase n)) kws with
        | Some kw => if JS.truthy kw then Some (n, kw) else None
        | None => None
        end
      else None
  | None => None
  end.

(** The snapshot that the last invocation of [ws] to receive one has
    received. *)
Fixpoint lastStock (ws : list App.World) : option App.Stock :=
  match ws with
  | [] => None
  | w :: ws' =>
      match lastStock ws' with
      | Some stock => Some stock
      | None => match App.fetched w with
                | Resolved (Some stock) => Some stock
                | _ => None
                end
      end
  end.

(** The entries on which the loops of the first two versions of
    [FetchData.js] throw. *)
Definition entryThrows (e : Entry) : bool :=
  match e with
  | EntryNull => true
  | EntryValue (NameOther truthy) => truthy
  | EntryValue _ => false
  end.

(** The item has a name that is not empty. *)
Definition hasName (it : StockItem) : bool :=
  match name it with
  | Some n => JS.truthy n
  | None => false
  end.

(** The snapshot without the items that have no name or an empty one. *)
Definition withNames (d : FetchData.StockData) : FetchData.StockData := {|
  FetchData.seedsStock := option_map (List.filter hasName) (FetchData.seedsStock d);
  FetchData.eggStock := option_map (List.filter hasName) (FetchData.eggStock d);
  FetchData.gearStock := option_map (List.filter hasName) (FetchData.gearStock d)
|}.

(** The message that the first version of [FetchData.js] sends for a
    match. *)
Definition bodyOf (m : MatchResult) : string :=
  FetchData1.notificationMessageWhatsapp (category m) (itemName m).

Definition nonEmpty {A : Type} (l : list A) : bool :=
  match l with
  | [] => false
  | _ :: _ => true
  end.

(** In the first version of [FetchData.js] no message is delivered:
    there is no client, or Twilio fails. *)
Definition undelivered (cfg : FetchData1.Config) (w : FetchData1.World) : Prop :=
  FetchData1.twilioClient cfg = false \/
  forall k, FetchData1.created w k = Rejected.

(** Every message is delivered. *)
Definition delivered (cfg : FetchData1.Config) (w : FetchData1.World) : Prop :=
  FetchData1.twilioClient cfg = true /\
  forall k, exists u, FetchData1.created w k = Resolved u.

(** The messages that the loops hand to Twilio for the matches [ms]. *)
Definition tried (cfg : FetchData1.Config) (ms : list MatchResult) : list string :=
  if FetchData1.twilioClient cfg then map bodyOf ms else [].

(** * Properties *)

(** ** Strings *)

Lemma append_nil_l (s : string) : "" +:+ s = s.
Proof. reflexivity. Qed.

Lemma append_cons (c : ascii) (s t : string) : String c s +:+ t = String c (s +:+ t).
Proof. reflexivity. Qed.

Lemma append_nil_r (s : string) : s +:+ "" = s.
Proof. induction s as [|c s IH]; [reflexivity|]. now rewrite append_cons, IH. Qed.

Lemma append_assoc (s t u : string) : (s +:+ t) +:+ u = s +:+ t +:+ u.
Proof.
  induction s as [|c s IH]; [reflexivity|].
  now rewrite !append_cons, IH.
Qed.

Lemma append_length (s t : string) :
  String.length (s +:+ t) = String.length s + String.length t.
Proof.
  induction s as [|c s IH]; [reflexivity|].
  rewrite append_cons. simpl. now rewrite IH.
Qed.

Lemma prefix_spec (p s : string) :
  String.prefix p s = true <-> exists t, s = p +:+ t.
Proof.
  revert p. induction s as [|b s IH]; intros [|a p]; simpl.
  - split; [exists ""; reflexivity | reflexivity].
  - split; [discriminate | intros [t Ht]; rewrite append_cons in Ht; discriminate].
  - split; [exists (String b s); reflexivity | reflexivity].
  - destruct (ascii_dec a b) as [->|Hne].
    + rewrite IH. split; intros [t Ht]; exists t.
      * now rewrite append_cons, Ht.
      * rewrite append_cons in Ht. now inversion Ht.
    + split; [discriminate|]. intros [t Ht]. rewrite append_cons in Ht.
      inversion Ht. congruence.
Qed.

Lemma includes_unfold (s sub : string) :
  JS.includes s sub =
  if String.prefix sub s then true
  else match s with
       | EmptyString => false
       | String _ s' => JS.includes s' sub
       end.
Proof. destruct s; reflexivity. Qed.

(** [includes] is the substring relation. *)
Lemma includes_spec (s sub : string) :
  JS.includes s sub = true <-> exists pre post, s = pre +:+ sub +:+ post.
Proof.
  induction s as [|c s IH]; rewrite includes_unfold.
  - destruct (String.prefix sub "") eqn:Hp.
    + split; [intros _|reflexivity].
      apply prefix_spec in Hp as [t Ht]. exists "", t. now rewrite append_nil_l.
    + split; [discriminate|]. intros (pre & post & H).
      destruct pre as [|a pre]; [|rewrite append_cons in H; discriminate].
      rewrite append_nil_l in H.
      assert (String.prefix sub "" = true) by (apply prefix_spec; eauto).
      congruence.
  - destruct (String.prefix sub (String c s)) eqn:Hp.
    + split; [intros _|reflexivity].
      apply prefix_spec in Hp as [t Ht]. exists "", t. now rewrite append_nil_l.
    + rewrite IH. split.
      * intros (pre & post & ->). exists (String c pre), post.
        now rewrite append_cons.
      * intros (pre & post & H). destruct pre as [|a pre].
        -- rewrite append_nil_l in H.
           assert (String.prefix sub (String c s) = true) by (apply prefix_spec; eauto).
           congruence.
        -- rewrite append_cons in H. inversion H. eauto.
Qed.

Lemma keywordHit_spec (n kw : string) :
  keywordHit (JS.toLowerCase n) kw = true <-> containsIgnoringCase n kw.
Proof. apply includes_spec. Qed.

(** ** The quiet-hours decision *)

(** The comparisons of [isQuietHours] of [app.js], for an hour [h] from
    0 to 23 in the variable [hour]: [true] exactly on [[start, end)]
    when [start < end], and exactly on [[start, 24)] or [[0, end)] when
    [start >= end]; with start 22 and end 7 that is 22, 23 and 0 to 6. *)
Theorem isQuietHours_window (cfg : App.Config) (h : Z) :
  (0 <= h < 24)%Z ->
  ((App.QUIET_HOURS_START cfg < App.QUIET_HOURS_END cfg)%Z ->
   (App.isQuietHours cfg h = true <->
    (App.QUIET_HOURS_START cfg <= h < App.QUIET_HOURS_END cfg)%Z)) /\
  ((App.QUIET_HOURS_START cfg >= App.QUIET_HOURS_END cfg)%Z ->
   (App.isQuietHours cfg h = true <->
    (App.QUIET_HOURS_START cfg <= h < 24)%Z \/ (0 <= h < App.QUIET_HOURS_END cfg)%Z)) /\
  (App.QUIET_HOURS_START cfg = 22%Z -> App.QUIET_HOURS_END cfg = 7%Z ->
   (App.isQuietHours cfg h = true <-> In h [22; 23; 0; 1; 2; 3; 4; 5; 6]%Z) /\
   (App.isQuietHours cfg h = false <->
    In h [7; 8; 9; 10; 11; 12; 13; 14; 15; 16; 17; 18; 19; 20; 21]%Z)).
Proof.
  intros Hh. unfold App.isQuietHours.
  destruct (Z.ltb_spec (App.QUIET_HOURS_START cfg) (App.QUIET_HOURS_END cfg)) as [Hlt|Hge].
  - split; [|split]; intros; lia.
  - split; [|split]; [intros; lia| |].
    + intros _. rewrite orb_true_iff, Z.leb_le, Z.ltb_lt. lia.
    + intros Hs He. rewrite Hs, He, orb_true_iff, orb_false_iff.
      rewrite Z.leb_le, Z.ltb_lt, Z.leb_gt, Z.ltb_ge. simpl In. lia.
Qed.

Lemma isQuietHours_window_witness :
  (0 <= 23 < 24)%Z /\
  App.isQuietHours {| App.QUIET_HOURS_START := 22; App.QUIET_HOURS_END := 7;
                      App.KEYWORDS_TO_MONITOR := [] |} 23 = true.
Proof.
  split; [lia|].
  apply (isQuietHours_window
           {| App.QUIET_HOURS_START := 22; App.QUIET_HOURS_END := 7;
              App.KEYWORDS_TO_MONITOR := [] |} 23); simpl; lia.
Defined.

(** C3. [isQuietHours()] of [app.js] on the clock of the time zone.  At
    every hour of the day but the first it answers as the claim says:
    [true] exactly on [[start, end)] when [start < end], and exactly on
    [[start, 24)] or [[0, end)] when [start >= end].  In the hour after
    midnight the formatter hands it 24, not 0: with [start < end <= 24]
    it answers [false], also when [start] is 0 and the hour is in the
    window; with [end <= start <= 24] it answers [true], also when [end]
    is 0 and the hour is outside. *)
Theorem isQuietHours_on_the_clock (cfg : App.Config) (now : App.Now) :
  (0 <= App.hourOfDay now < 24)%Z ->
  (App.hourOfDay now <> 0%Z ->
   ((App.QUIET_HOURS_START cfg < App.QUIET_HOURS_END cfg)%Z ->
    (App.isQuietHoursNow cfg now = true <->
     (App.QUIET_HOURS_START cfg <= App.hourOfDay now < App.QUIET_HOURS_END cfg)%Z)) /\
   ((App.QUIET_HOURS_START cfg >= App.QUIET_HOURS_END cfg)%Z ->
    (App.isQuietHoursNow cfg now = true <->
     (App.QUIET_HOURS_START cfg <= App.hourOfDay now < 24)%Z \/
     (0 <= App.hourOfDay now < App.QUIET_HOURS_END cfg)%Z))) /\
  (App.hourOfDay now = 0%Z ->
   ((App.QUIET_HOURS_START cfg < App.QUIET_HOURS_END cfg <= 24)%Z ->
    App.isQuietHoursNow cfg now = false) /\
   ((App.QUIET_HOURS_END cfg <= App.QUIET_HOURS_START cfg <= 24)%Z ->
    App.isQuietHoursNow cfg now = true)).
Proof.
  intros Hh. unfold App.isQuietHoursNow, App.getCurrentTimeInTimezone, App.hourPart.
  destruct (Z.eqb_spec (App.hourOfDay now) 0) as [H0|H0].
  - split; [contradiction|]. intros _. unfold App.isQuietHours.
    destruct (Z.ltb_spec (App.QUIET_HOURS_START cfg) (App.QUIET_HOURS_END cfg));
      split; intros; lia.
  - split; [|contradiction]. intros _.
    destruct (isQuietHours_window cfg (App.hourOfDay now) Hh) as (Hin & Hover & _).
    split; assumption.
Qed.

(** With the defaults of [config.js], quiet from 0 to 9, the program is
    not quiet at 00:30. *)
Lemma isQuietHours_on_the_clock_witness :
  let now := {| App.hourOfDay := 0; App.minuteOfHour := 30; App.secondOfMinute := 0 |} in
  (App.QUIET_HOURS_START App.defaultConfig <= App.hourOfDay now <
   App.QUIET_HOURS_END App.defaultConfig)%Z /\
  App.isQuietHoursNow App.defaultConfig now = false.
Proof.
  intros now. split; [simpl; lia|].
  apply (proj1 (proj2 (isQuietHours_on_the_clock App.defaultConfig now
                         ltac:(simpl; lia)) eq_refl)).
  simpl. lia.
Defined.

(** X23. The same decision in [FetchData.js] has no overnight branch: it
    agrees with [app.js] when [start < end] and is never quiet when
    [start >= end]. *)
Lemma FetchData_isQuietHours_window (cfg : FetchData.Config) (t : FetchData.Time) :
  (FetchData.isQuietHours cfg t = true <->
   (FetchData.QUIET_HOURS_START cfg <= FetchData.hour t < FetchData.QUIET_HOURS_END cfg)%Z) /\
  ((FetchData.QUIET_HOURS_START cfg >= FetchData.QUIET_HOURS_END cfg)%Z ->
   FetchData.isQuietHours cfg t = false).
Proof.
  unfold FetchData.isQuietHours.
  destruct (Z.leb_spec (FetchData.QUIET_HOURS_START cfg) (FetchData.hour t));
    destruct (Z.ltb_spec (FetchData.hour t) (FetchData.QUIET_HOURS_END cfg));
    simpl; split; try split; intros; try lia; try reflexivity; try discriminate.
Qed.

Example FetchData_isQuietHours_overnight :
  FetchData.isQuietHours
    {| FetchData.QUIET_HOURS_START := 22; FetchData.QUIET_HOURS_END := 7;
       FetchData.keywordsToMonitor := []; FetchData.twilioClient := true |}
    {| FetchData.hour := 23; FetchData.minute := 5; FetchData.second := 30;
       FetchData.formatted := "" |} = false.
Proof. reflexivity. Qed.

(** ** Tokens *)

Lemma endsWith_unfold (d b : string) :
  endsWith d b =
  if String.eqb d b then true
  else match d with
       | EmptyString => false
       | String _ d' => endsWith d' b
       end.
Proof. destruct d; reflexivity. Qed.

Lemma endsWith_append (x b : string) : endsWith (x +:+ b) b = true.
Proof.
  induction x as [|c x IH].
  - rewrite append_nil_l, endsWith_unfold. now rewrite String.eqb_refl.
  - rewrite append_cons, endsWith_unfold, IH. now destruct (String.eqb _ _).
Qed.

Lemma append_eq_append (a b c d : string) :
  a +:+ b = c +:+ d ->
  exists x, (a = c +:+ x /\ d = x +:+ b) \/ (c = a +:+ x /\ b = x +:+ d).
Proof.
  revert c. induction a as [|ch a IH]; intros c H.
  - exists c. right. now rewrite append_nil_l in *.
  - destruct c as [|ch' c].
    + exists (String ch a). left. now rewrite append_nil_l in *.
    + rewrite !append_cons in H. injection H as -> H.
      destruct (IH _ H) as [x [[-> ->]|[-> ->]]]; exists x; [left|right];
        now rewrite append_cons.
Qed.

Lemma append_self_r (x d : string) : d = x +:+ d -> x = "".
Proof.
  intros H. apply (f_equal String.length) in H. rewrite append_length in H.
  destruct x; [reflexivity | simpl in H; lia].
Qed.

Ltac label_clash H :=
  let E := fresh in
  match type of H with
  | _ = ?x +:+ ?b =>
      pose proof (endsWith_append x b) as E;
      rewrite <- H in E; vm_compute in E; discriminate E
  end.

(** A token determines the name and the array it comes from. *)
Lemma App_token_inj (n1 n2 : string) (k1 k2 : App.CatKey) :
  token n1 (App.categoryMap k1) = token n2 (App.categoryMap k2) ->
  n1 = n2 /\ k1 = k2.
Proof.
  unfold token. intros H.
  apply append_eq_append in H as [x [[-> H]|[-> H]]].
  - destruct k1, k2; simpl in H;
      try (apply append_self_r in H as ->; now rewrite append_nil_r);
      label_clash H.
  - destruct k1, k2; simpl in H;
      try (apply append_self_r in H as ->; now rewrite append_nil_r);
      label_clash H.
Qed.

Lemma FetchData_token_inj (n1 n2 : string) (k1 k2 : FetchData.CatKey) :
  token n1 (FetchData.categoryMap k1) = token n2 (FetchData.categoryMap k2) ->
  n1 = n2 /\ k1 = k2.
Proof.
  unfold token. intros H.
  apply append_eq_append in H as [x [[-> H]|[-> H]]].
  - destruct k1, k2; simpl in H;
      try (apply append_self_r in H as ->; now rewrite append_nil_r);
      label_clash H.
  - destruct k1, k2; simpl in H;
      try (apply append_self_r in H as ->; now rewrite append_nil_r);
      label_clash H.
Qed.

(** ** Sorting and joining *)

Lemma sort_Permutation (l : list string) : JS.sort l ≡ₚ l.
Proof. apply merge_sort_Permutation. Qed.

Lemma sort_Sorted (l : list string) : Sorted String.le (JS.sort l).
Proof. apply (Sorted_merge_sort String.le). Qed.

(** The sorted array only depends on the multiset of its elements. *)
Lemma sort_ext (l1 l2 : list string) : l1 ≡ₚ l2 -> JS.sort l1 = JS.sort l2.
Proof.
  intros Hp. apply (Sorted_unique String.le); try apply sort_Sorted.
  now rewrite !sort_Permutation.
Qed.

Lemma join_cons_cons (sep x y : string) (l : list string) :
  JS.join sep (x :: y :: l) = x +:+ sep +:+ JS.join sep (y :: l).
Proof. reflexivity. Qed.

Lemma join_singleton (sep x : string) : JS.join sep [x] = x.
Proof. reflexivity. Qed.

Lemma join_length (l : list string) :
  String.length (JS.join "," l) = joinLength l.
Proof.
  unfold joinLength. induction l as [|x [|y l] IH].
  - reflexivity.
  - simpl. lia.
  - rewrite join_cons_cons, !append_length, IH. simpl. lia.
Qed.

Lemma list_sum_Permutation (l1 l2 : list nat) : l1 ≡ₚ l2 -> list_sum l1 = list_sum l2.
Proof. induction 1; simpl; lia. Qed.

Lemma joinLength_Permutation (l1 l2 : list string) :
  l1 ≡ₚ l2 -> joinLength l1 = joinLength l2.
Proof.
  intros Hp. unfold joinLength.
  rewrite (list_sum_Permutation _ _ (Permutation_map String.length Hp)).
  now rewrite (Permutation_length Hp).
Qed.

Lemma commaFree_append (a b : string) :
  commaFree (a +:+ b) = commaFree a && commaFree b.
Proof.
  induction a as [|c a IH]; [reflexivity|].
  rewrite append_cons. simpl. rewrite IH. now rewrite andb_assoc.
Qed.

Lemma comma_cons (x : string) : "," +:+ x = String "," x.
Proof. reflexivity. Qed.

(** A comma-free string ends at the first comma of what follows. *)
Lemma comma_split (a b x y : string) :
  commaFree a = true -> commaFree b = true ->
  a +:+ "," +:+ x = b +:+ "," +:+ y -> a = b /\ x = y.
Proof.
  revert b. induction a as [|c a IH]; intros [|c' b] Ha Hb H;
    rewrite ?append_nil_l, ?append_cons, ?comma_cons in H.
  - now injection H.
  - injection H as <- _. simpl in Hb. discriminate.
  - injection H as -> _. simpl in Ha. discriminate.
  - injection H as -> H. simpl in Ha, Hb.
    apply andb_true_iff in Ha as [_ Ha]. apply andb_true_iff in Hb as [_ Hb].
    destruct (IH _ Ha Hb H) as [-> ->]. split; reflexivity.
Qed.

Lemma commaFree_no_comma (a b y : string) :
  commaFree a = true -> a <> b +:+ "," +:+ y.
Proof.
  intros Ha H. rewrite H, commaFree_append, comma_cons in Ha.
  simpl in Ha. now rewrite andb_false_r in Ha.
Qed.

(** On such elements [join(',')] loses nothing. *)
Lemma join_inj (l1 l2 : list string) :
  Forall tokenLike l1 -> Forall tokenLike l2 ->
  JS.join "," l1 = JS.join "," l2 -> l1 = l2.
Proof.
  revert l2. induction l1 as [|x l1 IH]; intros l2 H1 H2 H.
  - destruct l2 as [|y [|z l2]]; [reflexivity| |].
    + inversion H2 as [|? ? [_ Hy] _]; subst. simpl in H. congruence.
    + inversion H2 as [|? ? [_ Hy] _]; subst. rewrite join_cons_cons in H.
      destruct y; [congruence | discriminate].
  - inversion H1 as [|? ? [Hx Hxe] H1']; subst.
    destruct l2 as [|y l2].
    + destruct l1 as [|z l1]; [simpl in H; congruence|].
      rewrite join_cons_cons in H. destruct x; [congruence | discriminate].
    + inversion H2 as [|? ? [Hy Hye] H2']; subst.
      destruct l1 as [|x' l1], l2 as [|y' l2].
      * simpl in H. now subst.
      * rewrite join_cons_cons, join_singleton in H.
        now apply commaFree_no_comma in H.
      * rewrite join_cons_cons, join_singleton in H. symmetry in H.
        now apply commaFree_no_comma in H.
      * rewrite !join_cons_cons in H.
        apply comma_split in H as [-> H]; [|assumption..].
        f_equal. now apply IH.
Qed.

Lemma Permutation_map_inj {A B : Type} (f : A -> B) (l1 l2 : list A) :
  (forall x y, f x = f y -> x = y) ->
  map f l1 ≡ₚ map f l2 -> l1 ≡ₚ l2.
Proof.
  intros Hf Hp. apply Permutation_map_inv in Hp as (l3 & Heq & Hp).
  assert (l1 = l3) as ->; [|now symmetry].
  clear Hp. revert l3 Heq. induction l1 as [|x l1 IH]; intros [|y l3] Heq;
    simpl in Heq; try discriminate; [reflexivity|].
  injection Heq as Hxy Heq. f_equal; [now apply Hf | now apply IH].
Qed.

(** ** The stock signature *)

Lemma sig_Permutation (l1 l2 : list string) :
  l1 ≡ₚ l2 -> sortedJoin l1 = sortedJoin l2.
Proof. intros Hp. unfold sortedJoin. now rewrite (sort_ext _ _ Hp). Qed.

Lemma sig_inj (l1 l2 : list string) :
  Forall tokenLike l1 -> Forall tokenLike l2 ->
  sortedJoin l1 = sortedJoin l2 -> l1 ≡ₚ l2.
Proof.
  intros H1 H2 H. unfold sortedJoin in H. apply join_inj in H.
  - rewrite <- (sort_Permutation l1), <- (sort_Permutation l2). now rewrite H.
  - now rewrite sort_Permutation.
  - now rewrite sort_Permutation.
Qed.

(** One more token makes the signature longer. *)
Lemma sig_grows (l1 l2 : list string) (t : string) :
  t <> "" -> l2 ≡ₚ t :: l1 -> sortedJoin l1 <> sortedJoin l2.
Proof.
  intros Ht Hp H. apply (f_equal String.length) in H. unfold sortedJoin in H.
  rewrite !join_length in H.
  rewrite (joinLength_Permutation _ _ (sort_Permutation l1)) in H.
  rewrite (joinLength_Permutation _ _ (sort_Permutation l2)) in H.
  rewrite (joinLength_Permutation _ _ Hp) in H.
  unfold joinLength in H. simpl in H.
  destruct t; [congruence|]. simpl in H. lia.
Qed.

Lemma token_nonempty (n c : string) : token n c <> "".
Proof. unfold token. destruct n; [rewrite append_nil_l|rewrite append_cons]; discriminate. Qed.

Lemma map_flat_map {A B C : Type} (f : B -> C) (g : A -> list B) (l : list A) :
  map f (flat_map g l) = flat_map (fun x => map f (g x)) l.
Proof. induction l as [|x l IH]; simpl; [reflexivity|]. now rewrite map_app, IH. Qed.

Lemma App_tokens_named (stock : App.Stock) :
  App.allCurrentStockItems stock = map App.tokenOf (App.namedItems stock).
Proof.
  unfold App.allCurrentStockItems, App.namedItems.
  rewrite map_flat_map. apply flat_map_ext. intros k.
  rewrite map_flat_map. apply flat_map_ext. intros item.
  unfold App.signatureToken, App.namedItem.
  destruct (name item) as [n|]; [|reflexivity]. now destruct (JS.truthy n).
Qed.

Lemma App_tokenOf_inj (p q : string * App.CatKey) : App.tokenOf p = App.tokenOf q -> p = q.
Proof.
  destruct p as [n k], q as [n' k']. unfold App.tokenOf. simpl.
  intros H. apply App_token_inj in H as [-> ->]. reflexivity.
Qed.

Lemma App_labelOf_inj (p q : string * App.CatKey) : App.labelOf p = App.labelOf q -> p = q.
Proof.
  destruct p as [n k], q as [n' k']. unfold App.labelOf. simpl.
  intros H. injection H as -> H. now destruct k, k'.
Qed.

Lemma App_pairs_tokens (a b : App.Stock) :
  App.pairs a ≡ₚ App.pairs b <->
  App.allCurrentStockItems a ≡ₚ App.allCurrentStockItems b.
Proof.
  rewrite !App_tokens_named. unfold App.pairs. split; intros H.
  - apply Permutation_map. eapply Permutation_map_inj; [apply App_labelOf_inj | exact H].
  - apply Permutation_map. eapply Permutation_map_inj; [apply App_tokenOf_inj | exact H].
Qed.

Lemma App_tokens_tokenLike (a : App.Stock) :
  App.commaFreeNames a -> Forall tokenLike (App.allCurrentStockItems a).
Proof.
  unfold App.commaFreeNames, App.pairs. rewrite App_tokens_named.
  rewrite !Forall_map. intros H. eapply Forall_impl; [exact H|].
  clear H. intros [n k] Hn. simpl in Hn.
  unfold App.tokenOf, tokenLike. simpl. split; [|apply token_nonempty].
  unfold token. rewrite !commaFree_append, Hn. now destruct k.
Qed.

(** X30. Two snapshots with the same multiset of (name, mapped
    category) pairs, over the items that have a non-empty name, have the
    same signature, so the order of the items is irrelevant; adding or
    removing an item always changes the signature; and when no name holds
    a comma, the signatures are equal if and only if the multisets are,
    so that renaming an item changes the signature too. *)
Theorem signature_multiset (a b : App.Stock) :
  (App.pairs a ≡ₚ App.pairs b ->
   App.currentOverallStockSignature a = App.currentOverallStockSignature b) /\
  (forall p, App.pairs b ≡ₚ p :: App.pairs a ->
             App.currentOverallStockSignature a <> App.currentOverallStockSignature b) /\
  (App.commaFreeNames a -> App.commaFreeNames b ->
   (App.currentOverallStockSignature a = App.currentOverallStockSignature b <->
    App.pairs a ≡ₚ App.pairs b) /\
   (forall n n' c rest, n <> n' ->
      App.pairs a ≡ₚ (n, c) :: rest -> App.pairs b ≡ₚ (n', c) :: rest ->
      App.currentOverallStockSignature a <> App.currentOverallStockSignature b)).
Proof.
  assert (Hperm : App.pairs a ≡ₚ App.pairs b ->
                  App.currentOverallStockSignature a = App.currentOverallStockSignature b).
  { intros H. apply sig_Permutation. now apply App_pairs_tokens. }
  split; [exact Hperm|]. split.
  - intros p Hp. unfold App.pairs in Hp.
    destruct (Permutation_map_inv _ _ (Permutation_sym Hp)) as (l3 & Heq & Hl3).
    destruct l3 as [|q l3]; [discriminate|]. simpl in Heq. injection Heq as -> Heq.
    apply (sig_grows _ _ (App.tokenOf q)); [apply token_nonempty|].
    rewrite !App_tokens_named, Hl3. simpl. constructor.
    apply Permutation_map. eapply Permutation_map_inj; [apply App_labelOf_inj|].
    now rewrite Heq.
  - intros Ha Hb.
    assert (Hinj : App.currentOverallStockSignature a = App.currentOverallStockSignature b ->
                   App.pairs a ≡ₚ App.pairs b).
    { intros H. apply App_pairs_tokens.
      apply sig_inj; auto using App_tokens_tokenLike. }
    split; [split; assumption|].
    intros n n' c rest Hne Hpa Hpb Hsig. apply Hinj in Hsig.
    rewrite Hpa, Hpb in Hsig.
    apply (inj (fun x => x :: rest)) in Hsig. congruence.
Qed.

Lemma signature_multiset_witness :
  let a := {| App.seedsStock := [item "Carrot"; item "Mango"];
              App.eggStock := [item "Bug Egg"]; App.gearStock := [] |} in
  let b := {| App.seedsStock := [item "Mango"; item "Carrot"];
              App.eggStock := [item "Bug Egg"]; App.gearStock := [] |} in
  App.currentOverallStockSignature a = App.currentOverallStockSignature b /\
  App.pairs a ≡ₚ App.pairs b.
Proof.
  intros a b.
  assert (Hp : App.pairs a ≡ₚ App.pairs b) by (vm_compute; apply perm_swap).
  assert (Ha : App.commaFreeNames a) by (repeat constructor).
  assert (Hb : App.commaFreeNames b) by (repeat constructor).
  split.
  - exact (proj1 (signature_multiset a b) Hp).
  - exact (proj1 (proj1 (proj2 (proj2 (signature_multiset a b)) Ha Hb))
             (proj1 (signature_multiset a b) Hp)).
Defined.

(** With a comma in a name the signature no longer tells snapshots
    apart: one item named [a|Seeds,b] and the two items [a] and [b]. *)
Lemma signature_comma_counterexample :
  let a := {| App.seedsStock := [item "a|Seeds,b"];
              App.eggStock := []; App.gearStock := [] |} in
  let b := {| App.seedsStock := [item "a"; item "b"];
              App.eggStock := []; App.gearStock := [] |} in
  ~ (App.currentOverallStockSignature a = App.currentOverallStockSignature b <->
     App.pairs a ≡ₚ App.pairs b).
Proof.
  intros a b [H _].
  assert (Hs : App.currentOverallStockSignature a = App.currentOverallStockSignature b)
    by reflexivity.
  apply H, Permutation_length in Hs. vm_compute in Hs. discriminate.
Qed.

(** C2. The signature does not tell every change of the stock: the
    tokens are joined with a comma that a name may hold.  The snapshot
    with the seeds [Kiwi] and [a|Seeds,b] and the snapshot with the seeds
    [Kiwi], [a] and [b] are different multisets with the same signature,
    so a cycle that receives the second after the first clears nothing:
    the epoch goes on, and the [Kiwi] notified before is not reported in
    the changed stock. *)
Theorem signature_collision_keeps_epoch :
  let a := {| App.seedsStock := [item "Kiwi"; item "a|Seeds,b"];
              App.eggStock := []; App.gearStock := [] |} in
  let b := {| App.seedsStock := [item "Kiwi"; item "a"; item "b"];
              App.eggStock := []; App.gearStock := [] |} in
  let w stock := {| App.fetched := Resolved (Some stock); App.hour := 12;
                    App.sent := Resolved true |} in
  let r1 := App.checkStockAndNotify App.defaultConfig (w a) App.initialState in
  let r2 := App.checkStockAndNotify App.defaultConfig (w b) (fst r1) in
  ~ App.pairs a ≡ₚ App.pairs b /\
  App.currentOverallStockSignature a = "Kiwi|Seeds,a|Seeds,b|Seeds" /\
  App.currentOverallStockSignature b = "Kiwi|Seeds,a|Seeds,b|Seeds" /\
  map resultToken (newlyFoundKeywordItems (snd r1)) = ["Kiwi|Seeds"] /\
  r2 = (fst r1, {| outcome := NoMatches; newlyFoundKeywordItems := [];
                   messageBody := None; trace := [EvFetch] |}).
Proof.
  intros a b w r1 r2. split; [|split; [|split; [|split]]].
  - intros H. apply Permutation_length in H. vm_compute in H. discriminate.
  - vm_compute. reflexivity.
  - vm_compute. reflexivity.
  - vm_compute. reflexivity.
  - vm_compute. reflexivity.
Qed.

(** Renaming is not safe either: next to [a|Egg,b|Egg,a], renaming
    [a|Egg,b] to [b|Egg,a] keeps the signature. *)
Lemma signature_rename_counterexample :
  let a := {| App.seedsStock := []; App.gearStock := [];
              App.eggStock := [item "a|Egg,b"; item "a|Egg,b|Egg,a"] |} in
  let b := {| App.seedsStock := []; App.gearStock := [];
              App.eggStock := [item "b|Egg,a"; item "a|Egg,b|Egg,a"] |} in
  App.currentOverallStockSignature a = App.currentOverallStockSignature b /\
  ~ App.pairs a ≡ₚ App.pairs b.
Proof.
  intros a b. split; [reflexivity|].
  intros H. vm_compute in H.
  apply (inj (fun x => x :: _)) in H. discriminate.
Qed.

Lemma FetchData_tokens_named (d : FetchData.StockData) :
  FetchData.allCurrentStockItemsForSignature d =
  map FetchData.tokenOf (FetchData.namedItems d).
Proof.
  unfold FetchData.allCurrentStockItemsForSignature, FetchData.namedItems.
  rewrite map_flat_map. apply flat_map_ext. intros k.
  destruct (FetchData.get d k) as [items|]; [|reflexivity].
  rewrite map_flat_map. apply flat_map_ext. intros it.
  unfold FetchData.signatureToken, FetchData.namedItem.
  now destruct (name it).
Qed.

Lemma FetchData_tokenOf_inj (p q : string * FetchData.CatKey) :
  FetchData.tokenOf p = FetchData.tokenOf q -> p = q.
Proof.
  destruct p as [n k], q as [n' k']. unfold FetchData.tokenOf. simpl.
  intros H. apply FetchData_token_inj in H as [-> ->]. reflexivity.
Qed.

Lemma FetchData_labelOf_inj (p q : string * FetchData.CatKey) :
  FetchData.labelOf p = FetchData.labelOf q -> p = q.
Proof.
  destruct p as [n k], q as [n' k']. unfold FetchData.labelOf. simpl.
  intros H. injection H as -> H. now destruct k, k'.
Qed.

Lemma FetchData_pairs_tokens (a b : FetchData.StockData) :
  FetchData.pairs a ≡ₚ FetchData.pairs b <->
  FetchData.allCurrentStockItemsForSignature a ≡ₚ
  FetchData.allCurrentStockItemsForSignature b.
Proof.
  rewrite !FetchData_tokens_named. unfold FetchData.pairs. split; intros H.
  - apply Permutation_map.
    eapply Permutation_map_inj; [apply FetchData_labelOf_inj | exact H].
  - apply Permutation_map.
    eapply Permutation_map_inj; [apply FetchData_tokenOf_inj | exact H].
Qed.

Lemma FetchData_tokens_tokenLike (a : FetchData.StockData) :
  FetchData.commaFreeNames a ->
  Forall tokenLike (FetchData.allCurrentStockItemsForSignature a).
Proof.
  unfold FetchData.commaFreeNames, FetchData.pairs. rewrite FetchData_tokens_named.
  rewrite !Forall_map. intros H. eapply Forall_impl; [exact H|].
  clear H. intros [n k] Hn. simpl in Hn.
  unfold FetchData.tokenOf, tokenLike. simpl. split; [|apply token_nonempty].
  unfold token. rewrite !commaFree_append, Hn. now destruct k.
Qed.

(** X24. The signature of [FetchData.js] has the same properties, over
    the items that have a string name: it is the same for snapshots with
    the same multiset of (name, category) pairs, it changes when an item
    is added, and with comma-free names it tells the multisets apart. *)
Lemma FetchData_signature_multiset (a b : FetchData.StockData) :
  (FetchData.pairs a ≡ₚ FetchData.pairs b ->
   FetchData.currentOverallStockSignature a = FetchData.currentOverallStockSignature b) /\
  (forall p, FetchData.pairs b ≡ₚ p :: FetchData.pairs a ->
     FetchData.currentOverallStockSignature a <> FetchData.currentOverallStockSignature b) /\
  (FetchData.commaFreeNames a -> FetchData.commaFreeNames b ->
   (FetchData.currentOverallStockSignature a = FetchData.currentOverallStockSignature b <->
    FetchData.pairs a ≡ₚ FetchData.pairs b)).
Proof.
  assert (Hperm :
    FetchData.pairs a ≡ₚ FetchData.pairs b ->
    FetchData.currentOverallStockSignature a = FetchData.currentOverallStockSignature b).
  { intros H. apply sig_Permutation. now apply FetchData_pairs_tokens. }
  split; [exact Hperm|]. split.
  - intros p Hp. unfold FetchData.pairs in Hp.
    destruct (Permutation_map_inv _ _ (Permutation_sym Hp)) as (l3 & Heq & Hl3).
    destruct l3 as [|q l3]; [discriminate|]. simpl in Heq. injection Heq as -> Heq.
    apply (sig_grows _ _ (FetchData.tokenOf q)); [apply token_nonempty|].
    rewrite !FetchData_tokens_named, Hl3. simpl. constructor.
    apply Permutation_map. eapply Permutation_map_inj; [apply FetchData_labelOf_inj|].
    now rewrite Heq.
  - intros Ha Hb. split; [|assumption].
    intros H. apply FetchData_pairs_tokens.
    apply sig_inj; auto using FetchData_tokens_tokenLike.
Qed.


(** ** The scraper *)

Lemma scrapeItem_fold (r : App.ArrayRef) (lis : list string) (stock : App.Stock) :
  let new := flat_map (fun text => if JS.truthy (JS.trim text)
                                   then [{| name := Some (JS.trim text) |}] else []) lis in
  fold_left (App.scrapeItem r) lis stock =
  match r with
  | App.RefSeeds => {| App.seedsStock := App.seedsStock stock ++ new;
                       App.eggStock := App.eggStock stock;
                       App.gearStock := App.gearStock stock |}
  | App.RefEgg => {| App.seedsStock := App.seedsStock stock;
                     App.eggStock := App.eggStock stock ++ new;
                     App.gearStock := App.gearStock stock |}
  | App.RefGear => {| App.seedsStock := App.seedsStock stock;
                      App.eggStock := App.eggStock stock;
                      App.gearStock := App.gearStock stock ++ new |}
  end.
Proof.
  revert stock. induction lis as [|text lis IH]; intros stock; simpl.
  - destruct r, stock; simpl; now rewrite app_nil_r.
  - rewrite IH. unfold App.scrapeItem.
    destruct (JS.truthy (JS.trim text)), r; simpl; now rewrite <- ?app_assoc.
Qed.

Lemma scrapeCategory_spec (page : App.Page) (stock : App.Stock)
    (heading : string) (r : App.ArrayRef) :
  App.scrapeCategory page stock (heading, r) =
  match r with
  | App.RefSeeds => {| App.seedsStock := App.seedsStock stock ++ App.scraped page heading;
                       App.eggStock := App.eggStock stock;
                       App.gearStock := App.gearStock stock |}
  | App.RefEgg => {| App.seedsStock := App.seedsStock stock;
                     App.eggStock := App.eggStock stock ++ App.scraped page heading;
                     App.gearStock := App.gearStock stock |}
  | App.RefGear => {| App.seedsStock := App.seedsStock stock;
                      App.eggStock := App.eggStock stock;
                      App.gearStock := App.gearStock stock ++ App.scraped page heading |}
  end.
Proof.
  unfold App.scrapeCategory, App.scraped. simpl.
  destruct (page heading) as [lis|].
  - apply scrapeItem_fold.
  - destruct r, stock; simpl; now rewrite app_nil_r.
Qed.

Lemma scraped_named (page : App.Page) (heading : string) :
  Forall named (App.scraped page heading).
Proof.
  unfold App.scraped. destruct (page heading) as [lis|]; [|constructor].
  induction lis as [|text lis IH]; simpl; [constructor|].
  apply Forall_app. split; [|exact IH].
  destruct (JS.trim text) eqn:E; simpl; repeat constructor.
  eexists. split; [reflexivity | discriminate].
Qed.

(** C10. When [fetchStockData] returns a snapshot, it holds the three
    arrays, filled from the sections of the page: the seeds and the eggs
    from their own section, and the gear array from the GEAR, HONEY and
    COSMETICS sections; every item has a non-empty name.  On every error
    the result is [null]. *)
Theorem fetchStockData_snapshot (resp : App.Response) :
  match App.fetchStockData resp with
  | Some stock =>
      exists page, resp = App.Html page /\
        App.seedsStock stock = App.scraped page "SEEDS STOCK" /\
        App.eggStock stock = App.scraped page "EGG STOCK" /\
        App.gearStock stock =
          App.scraped page "GEAR STOCK" ++ App.scraped page "HONEY STOCK" ++
          App.scraped page "COSMETICS STOCK" /\
        Forall named (App.seedsStock stock) /\
        Forall named (App.eggStock stock) /\
        Forall named (App.gearStock stock)
  | None => resp = App.BadProxy \/ resp = App.RequestFailed \/ resp = App.ParseFailed
  end.
Proof.
  destruct resp as [| | |page]; simpl; auto.
  exists page. unfold App.stockCategories. simpl fold_left.
  rewrite !scrapeCategory_spec. simpl.
  repeat split; rewrite ?app_assoc; try reflexivity;
    repeat (apply Forall_app; split); apply scraped_named.
Qed.


Example fetchStockData_example :
  App.fetchStockData
    (App.Html (fun heading =>
       if String.eqb heading "SEEDS STOCK" then Some ["  Carrot "; "   "; "Mango"]
       else if String.eqb heading "GEAR STOCK" then Some ["Trowel"]
       else if String.eqb heading "COSMETICS STOCK" then Some ["Bench"]
       else if String.eqb heading "HONEY STOCK" then Some ["Honey Comb"]
       else None)) =
  Some {| App.seedsStock := [item "Carrot"; item "Mango"];
          App.eggStock := [];
          App.gearStock := [item "Trowel"; item "Honey Comb"; item "Bench"] |}.
Proof. reflexivity. Qed.

(** ** The cycle of [app.js] *)

Lemma fold_left_inv {A B : Type} (P : A -> Prop) (f : A -> B -> A) (l : list B) (a : A) :
  P a -> (forall a b, P a -> P (f a b)) -> P (fold_left f l a).
Proof. revert a. induction l as [|b l IH]; simpl; auto. Qed.

Lemma beforeGate_app (A G : list Event) :
  Forall notGate A -> beforeGate (A ++ G) = A ++ beforeGate G.
Proof.
  induction 1 as [|e A He HA IH]; [reflexivity|].
  simpl. destruct e; simpl in He; try contradiction; now rewrite IH.
Qed.

Lemma resultToken_mk (n c kw : string) :
  resultToken {| itemName := n; category := c; matchedKeyword := kw |} = token n c.
Proof. reflexivity. Qed.

Lemma scanItem_inv (kws : list string) (k : App.CatKey) (N0 : gset string)
    (acc : App.Scan) (it : StockItem) :
  scanInv N0 acc -> scanInv N0 (App.scanItem kws k acc it).
Proof.
  destruct acc as [[N found] evs]. unfold scanInv, App.scanItem. simpl.
  intros (HN & Hev & Hfresh & Hnd).
  destruct (name it) as [n|]; [|auto].
  destruct (JS.truthy n); simpl; [|auto].
  destruct (decide (token n (App.categoryMap k) ∈ N)) as [|Hnotin]; [auto|].
  destruct (find _ kws) as [kw|]; [|auto].
  destruct (JS.truthy kw); [|auto]. simpl.
  rewrite !map_app. simpl. rewrite !resultToken_mk.
  subst N evs. repeat split.
  - rewrite list_to_set_app_L. set_solver.
  - apply Forall_app. split; [assumption|]. repeat constructor. set_solver.
  - apply NoDup_app. repeat split; [assumption| |apply NoDup_singleton].
    intros x Hx ->%list_elem_of_singleton. apply Hnotin. set_solver.
Qed.

Lemma scanStock_inv (kws : list string) (stock : App.Stock) (N0 : gset string) :
  scanInv N0 (App.scanStock kws stock N0).
Proof.
  unfold App.scanStock. apply fold_left_inv.
  - unfold scanInv. simpl. repeat split; try constructor. set_solver.
  - intros acc k Hacc. unfold App.scanCategory.
    apply fold_left_inv; [assumption|]. intros; now apply scanItem_inv.
Qed.

Lemma setRunning_release (s : App.State) :
  App.isCheckRunning s = false -> App.setRunning false (App.setRunning true s) = s.
Proof. destruct s as [N sig b]. simpl. now intros ->. Qed.

(** What one invocation does to the notified set: with [N1] the set
    after the signature check (the old set when the stored signature is
    kept), the final set is [N1] and the tokens of the matches; these
    tokens were not in [N1], are pairwise distinct, and are all added
    before the quiet-hours decision and the call of the sender. *)
Lemma App_check_effects (cfg : App.Config) (w : App.World) (s : App.State) :
  let r := App.checkStockAndNotify cfg w s in
  let found := newlyFoundKeywordItems (snd r) in
  exists N1 : gset string,
    (App.previousOverallStockSignature (fst r) = App.previousOverallStockSignature s ->
     N1 = App.notifiedItemsThisOverallStockCycle s) /\
    App.notifiedItemsThisOverallStockCycle (fst r) =
      list_to_set (map resultToken found) ∪ N1 /\
    Forall (fun m => resultToken m ∉ N1) found /\
    NoDup (map resultToken found) /\
    Forall (fun m => In (EvAdd (resultToken m)) (beforeGate (trace (snd r)))) found.
Proof.
  unfold App.checkStockAndNotify.
  destruct (App.isCheckRunning s) eqn:Hrun.
  { exists (App.notifiedItemsThisOverallStockCycle s). simpl.
    repeat split; try constructor. set_solver. }
  unfold App.tryBlock, App.untilSend. simpl.
  destruct (App.fetched w) as [[stock|]|].
  2,3: exists (App.notifiedItemsThisOverallStockCycle s); simpl;
       repeat split; try constructor; set_solver.
  set (s0 := App.setRunning true s).
  destruct (App.detectChange stock s0) as [s1 evs1] eqn:Hd.
  pose proof (scanStock_inv (App.KEYWORDS_TO_MONITOR cfg) stock
                (App.notifiedItemsThisOverallStockCycle s1)) as Hinv.
  destruct (App.scanStock _ stock _) as [[N found] evs2].
  destruct Hinv as (HN & Hev & Hfresh & Hnd). simpl in HN, Hev, Hfresh, Hnd.
  exists (App.notifiedItemsThisOverallStockCycle s1).
  assert (Hkeep : App.previousOverallStockSignature s1 =
                  App.previousOverallStockSignature s ->
                  App.notifiedItemsThisOverallStockCycle s1 =
                  App.notifiedItemsThisOverallStockCycle s).
  { unfold App.detectChange in Hd. simpl in Hd.
    destruct (decide (App.currentOverallStockSignature stock ≠
                      App.previousOverallStockSignature s));
      injection Hd as <- <-; simpl; [congruence | reflexivity]. }
  assert (Hgate : Forall notGate (EvFetch :: evs1 ++ evs2)).
  { constructor; [exact I|]. apply Forall_app. split.
    - unfold App.detectChange in Hd. destruct (decide _); injection Hd as <- <-;
        repeat constructor.
    - subst evs2. apply Forall_map. apply Forall_forall. intros; exact I. }
  assert (Hadds : forall tail, Forall (fun m => In (EvAdd (resultToken m))
                    (beforeGate ((EvFetch :: evs1 ++ evs2) ++ tail))) found).
  { intros tail. rewrite beforeGate_app by assumption.
    apply Forall_forall. intros m Hm. apply in_or_app. left. right.
    apply in_or_app. right. subst evs2.
    apply (in_map (fun m => EvAdd (resultToken m))), list_elem_of_In, Hm. }
  destruct found as [|m found].
  { simpl. repeat split; try constructor; auto. }
  destruct (App.isQuietHours cfg (App.hour w)); [|destruct (App.sent w)];
    simpl; repeat split; auto;
    rewrite <- ?(app_assoc (evs1 ++ evs2));
    match goal with
    | |- context [beforeGate ((evs1 ++ evs2) ++ ?t)] => exact (Hadds t)
    end.
Qed.

(** ** Epochs *)

Lemma runAll_cons {St W : Type} (step : W -> St -> St * Report)
    (w : W) (ws : list W) (s : St) :
  snd (runAll step (w :: ws) s) =
  snd (step w s) :: snd (runAll step ws (fst (step w s))).
Proof.
  simpl. destruct (step w s) as [s1 rep]. simpl.
  now destruct (runAll step ws s1) as [s2 reps].
Qed.

Lemma runAll_cons_state {St W : Type} (step : W -> St -> St * Report)
    (w : W) (ws : list W) (s : St) :
  fst (runAll step (w :: ws) s) = fst (runAll step ws (fst (step w s))).
Proof.
  simpl. destruct (step w s) as [s1 rep]. simpl.
  now destruct (runAll step ws s1) as [s2 reps].
Qed.

Section Epoch.

Context {St W : Type}.
Variable step : W -> St -> St * Report.
Variable notified : St -> gset string.
Variable stored : St -> string.

(** The effect of one invocation on the notified set, as both variants
    have it. *)
Hypothesis effects : forall w s,
  exists N1 : gset string,
    (stored (fst (step w s)) = stored s -> N1 = notified s) /\
    notified (fst (step w s)) =
      list_to_set (map resultToken (newlyFoundKeywordItems (snd (step w s)))) ∪ N1 /\
    Forall (fun m => resultToken m ∉ N1) (newlyFoundKeywordItems (snd (step w s))).

Lemma epoch_marks (w : W) (s : St) (m : MatchResult) :
  In m (newlyFoundKeywordItems (snd (step w s))) ->
  resultToken m ∈ notified (fst (step w s)).
Proof.
  intros Hm. destruct (effects w s) as (N1 & _ & -> & _).
  apply elem_of_union_l, elem_of_list_to_set, list_elem_of_In, in_map, Hm.
Qed.

Lemma epoch_keeps (w : W) (s : St) :
  stored (fst (step w s)) = stored s -> notified s ⊆ notified (fst (step w s)).
Proof.
  intros Hs. destruct (effects w s) as (N1 & HN1 & -> & _).
  rewrite (HN1 Hs). set_solver.
Qed.

Lemma epoch_fresh (w : W) (s : St) (m : MatchResult) :
  stored (fst (step w s)) = stored s ->
  In m (newlyFoundKeywordItems (snd (step w s))) ->
  resultToken m ∉ notified s.
Proof.
  intros Hs Hm. destruct (effects w s) as (N1 & HN1 & _ & Hfresh).
  rewrite <- (HN1 Hs). rewrite Forall_forall in Hfresh.
  apply Hfresh, list_elem_of_In, Hm.
Qed.

(** A notified token is not matched again while the epoch lasts. *)
Lemma epoch_silent (ws : list W) (s : St) (t : string) :
  t ∈ notified s -> sameEpoch stored step ws s ->
  forall rep, In rep (snd (runAll step ws s)) ->
  forall m, In m (newlyFoundKeywordItems rep) -> resultToken m <> t.
Proof.
  revert s. induction ws as [|w ws IH]; intros s Ht Hep rep Hrep m Hm.
  - contradiction.
  - rewrite runAll_cons in Hrep. destruct Hep as [Hs Hep].
    destruct Hrep as [<-|Hrep].
    + intros <-. now apply (epoch_fresh w s m).
    + apply (IH (fst (step w s))) with (rep := rep); auto.
      now apply epoch_keeps.
Qed.

End Epoch.

(** ** The invocation between its awaits *)

Lemma untilSend_lock (cfg : App.Config) (a : Awaited (option App.Stock)) (h : Z)
    (s : App.State) :
  App.isCheckRunning (fst (App.untilSend cfg a h s)) = App.isCheckRunning s.
Proof.
  unfold App.untilSend. destruct a as [[stock|]|]; try reflexivity.
  unfold App.detectChange. destruct (decide _);
    destruct (App.scanStock _ stock _) as [[N found] evs2];
    destruct found; try destruct (App.isQuietHours cfg h); reflexivity.
Qed.

Lemma catchFinally_lock (r : App.State * Report) :
  App.isCheckRunning (fst (App.catchFinally r)) = false.
Proof. now destruct r. Qed.

Lemma deliver_consistent (cfg : App.Config) (m : App.State * option App.Pending)
    (sg : App.Signal) :
  App.consistent m -> App.consistent (App.deliver cfg m sg).
Proof.
  destruct m as [s p]. unfold App.consistent, App.deliver. simpl. intros Hm.
  destruct sg as [|a h|a].
  - destruct (App.isCheckRunning s) eqn:Hrun; simpl; [now rewrite Hrun | reflexivity].
  - destruct p as [[|found body evs]|]; simpl; try exact Hm.
    pose proof (untilSend_lock cfg a h s) as Hl.
    destruct (App.untilSend cfg a h s) as [s' [rep|found body evs]]; simpl in *.
    + reflexivity.
    + congruence.
  - destruct p as [[|found body evs]|]; simpl; try exact Hm. reflexivity.
Qed.

(** While an invocation is suspended, the ticks of the timer change
    nothing: they are dropped, not queued. *)
Lemma ticks_dropped (cfg : App.Config) (m : App.State * option App.Pending) (k : nat) :
  App.isCheckRunning (fst m) = true ->
  fold_left (App.deliver cfg) (repeat App.Tick k) m = m.
Proof.
  intros Hrun.
  assert (Ht : App.deliver cfg m App.Tick = m).
  { unfold App.deliver. simpl. now rewrite Hrun. }
  induction k as [|k IH]; [reflexivity|].
  change (fold_left (App.deliver cfg) (repeat App.Tick k) (App.deliver cfg m App.Tick) = m).
  now rewrite Ht.
Qed.

Lemma deliver_fetch (cfg : App.Config) (s : App.State)
    (a : Awaited (option App.Stock)) (h : Z) :
  App.deliver cfg (s, Some App.PendingFetch) (App.FetchSettled a h) =
  match App.untilSend cfg a h s with
  | (s', App.Completed rep) => (fst (App.catchFinally (s', rep)), None)
  | (s', App.AwaitingSend found body evs) => (s', Some (App.PendingSend found body evs))
  end.
Proof. reflexivity. Qed.

(** X22. An invocation whose awaits are interleaved with any number of
    ticks ends in the state that [checkStockAndNotify] computes in one
    go: the ticks that arrive while it is suspended change nothing. *)
Lemma interleaved_invocation (cfg : App.Config) (w : App.World) (s : App.State)
    (k1 k2 : nat) :
  App.isCheckRunning s = false ->
  let m1 := fold_left (App.deliver cfg)
              (App.Tick :: repeat App.Tick k1 ++
               [App.FetchSettled (App.fetched w) (App.hour w)]) (s, None) in
  let m2 := fold_left (App.deliver cfg)
              (repeat App.Tick k2 ++ [App.SendSettled (App.sent w)]) m1 in
  match snd m1 with
  | None => m1 = (fst (App.checkStockAndNotify cfg w s), None)
  | Some _ => App.isCheckRunning (fst m1) = true /\
              m2 = (fst (App.checkStockAndNotify cfg w s), None)
  end.
Proof.
  intros Hrun m1 m2.
  assert (Ht : App.deliver cfg (s, None) App.Tick =
               (App.setRunning true s, Some App.PendingFetch)).
  { unfold App.deliver. simpl. now rewrite Hrun. }
  assert (Hm1 : m1 = App.deliver cfg (App.setRunning true s, Some App.PendingFetch)
                       (App.FetchSettled (App.fetched w) (App.hour w))).
  { subst m1.
    change (fold_left (App.deliver cfg) (App.Tick :: ?l) (s, None))
      with (fold_left (App.deliver cfg) l (App.deliver cfg (s, None) App.Tick)).
    now rewrite Ht, fold_left_app, ticks_dropped by reflexivity. }
  subst m2. clearbody m1. subst m1. rewrite deliver_fetch.
  unfold App.checkStockAndNotify, App.tryBlock. rewrite Hrun.
  pose proof (untilSend_lock cfg (App.fetched w) (App.hour w) (App.setRunning true s)) as Hl.
  destruct (App.untilSend cfg (App.fetched w) (App.hour w) (App.setRunning true s))
    as [s' [rep|found body evs]]; simpl in Hl |- *.
  - reflexivity.
  - split; [exact Hl|].
    rewrite fold_left_app, ticks_dropped by exact Hl. reflexivity.
Qed.

(** ** The cycle orchestrator of [app.js] *)

Lemma App_effects (cfg : App.Config) (w : App.World) (s : App.State) :
  exists N1 : gset string,
    (App.previousOverallStockSignature (fst (App.checkStockAndNotify cfg w s)) =
     App.previousOverallStockSignature s ->
     N1 = App.notifiedItemsThisOverallStockCycle s) /\
    App.notifiedItemsThisOverallStockCycle (fst (App.checkStockAndNotify cfg w s)) =
      list_to_set (map resultToken
        (newlyFoundKeywordItems (snd (App.checkStockAndNotify cfg w s)))) ∪ N1 /\
    Forall (fun m => resultToken m ∉ N1)
      (newlyFoundKeywordItems (snd (App.checkStockAndNotify cfg w s))).
Proof.
  destruct (App_check_effects cfg w s) as (N1 & H1 & H2 & H3 & _).
  exists N1. auto.
Qed.

(** C1. Once a token has been matched in an invocation, it is in the
    notified set, and no later invocation of the same epoch (the stored
    signature does not change) matches it again; within one batch the
    tokens are pairwise distinct. *)
Theorem notified_once_per_epoch (cfg : App.Config) (w : App.World)
    (ws : list App.World) (s : App.State) :
  let r := App.checkStockAndNotify cfg w s in
  sameEpoch App.previousOverallStockSignature (App.checkStockAndNotify cfg) ws (fst r) ->
  NoDup (map resultToken (newlyFoundKeywordItems (snd r))) /\
  forall m, In m (newlyFoundKeywordItems (snd r)) ->
    resultToken m ∈ App.notifiedItemsThisOverallStockCycle (fst r) /\
    forall rep, In rep (snd (App.run cfg ws (fst r))) ->
    forall m', In m' (newlyFoundKeywordItems rep) -> resultToken m' <> resultToken m.
Proof.
  intros r Hep. split.
  - now destruct (App_check_effects cfg w s) as (N1 & _ & _ & _ & Hnd & _).
  - intros m Hm.
    assert (Hin : resultToken m ∈ App.notifiedItemsThisOverallStockCycle (fst r)).
    { apply (epoch_marks _ _ _ (App_effects cfg)), Hm. }
    split; [exact Hin|].
    apply (epoch_silent _ _ _ (App_effects cfg) ws (fst r)); assumption.
Qed.

Lemma notified_once_per_epoch_witness :
  let cfg := {| App.QUIET_HOURS_START := 0; App.QUIET_HOURS_END := 9;
                App.KEYWORDS_TO_MONITOR := ["Mango"] |} in
  let stock := {| App.seedsStock := [item "Mango"; item "Carrot"];
                  App.eggStock := []; App.gearStock := [] |} in
  let w := {| App.fetched := Resolved (Some stock); App.hour := 12;
              App.sent := Resolved true |} in
  let r := App.checkStockAndNotify cfg w App.initialState in
  sameEpoch App.previousOverallStockSignature (App.checkStockAndNotify cfg) [w; w] (fst r) /\
  forall rep, In rep (snd (App.run cfg [w; w] (fst r))) ->
  forall m', In m' (newlyFoundKeywordItems rep) -> resultToken m' <> "Mango|Seeds".
Proof.
  intros cfg stock w r.
  assert (Hep : sameEpoch App.previousOverallStockSignature
                  (App.checkStockAndNotify cfg) [w; w] (fst r)).
  { vm_compute. repeat split. }
  split; [exact Hep|].
  apply (proj2 (notified_once_per_epoch cfg w [w; w] App.initialState Hep)
           {| itemName := "Mango"; category := "Seeds"; matchedKeyword := "Mango" |}).
  vm_compute. left. reflexivity.
Defined.

(** C5. In an invocation with matches, every matched token is added to
    the notified set before the quiet-hours decision and before the
    sender is called, and it is still in the set at the end, whether the
    alert was suppressed, delivered, refused ([false]) or failed with an
    exception. *)
Theorem matched_tokens_marked_first (cfg : App.Config) (w : App.World) (s : App.State) :
  let r := App.checkStockAndNotify cfg w s in
  newlyFoundKeywordItems (snd r) <> [] ->
  (outcome (snd r) = Suppressed \/ outcome (snd r) = Delivered true \/
   outcome (snd r) = Delivered false \/ outcome (snd r) = Threw) /\
  forall m, In m (newlyFoundKeywordItems (snd r)) ->
    In (EvAdd (resultToken m)) (beforeGate (trace (snd r))) /\
    resultToken m ∈ App.notifiedItemsThisOverallStockCycle (fst r).
Proof.
  intros r Hne. split.
  - revert Hne. subst r. unfold App.checkStockAndNotify.
    destruct (App.isCheckRunning s); [simpl; congruence|].
    unfold App.tryBlock, App.untilSend.
    destruct (App.fetched w) as [[stock|]|]; try (simpl; congruence).
    destruct (App.detectChange stock _) as [s1 evs1].
    destruct (App.scanStock _ stock _) as [[N found] evs2].
    destruct found as [|m found]; [simpl; congruence|].
    destruct (App.isQuietHours cfg (App.hour w)); [simpl; auto|].
    destruct (App.sent w) as [[|]|]; simpl; auto.
  - intros m Hm.
    destruct (App_check_effects cfg w s) as (N1 & _ & HN & _ & _ & Hadd).
    fold r in HN, Hadd. split.
    + rewrite Forall_forall in Hadd. apply Hadd, list_elem_of_In, Hm.
    + rewrite HN. apply elem_of_union_l, elem_of_list_to_set, list_elem_of_In, in_map, Hm.
Qed.

Lemma matched_tokens_marked_first_witness :
  let cfg := {| App.QUIET_HOURS_START := 22; App.QUIET_HOURS_END := 7;
                App.KEYWORDS_TO_MONITOR := ["bug egg"] |} in
  let stock := {| App.seedsStock := []; App.eggStock := [item "Bug Egg"];
                  App.gearStock := [] |} in
  let w := {| App.fetched := Resolved (Some stock); App.hour := 23;
              App.sent := Resolved false |} in
  let r := App.checkStockAndNotify cfg w App.initialState in
  outcome (snd r) = Suppressed /\
  In (EvAdd "Bug Egg|Egg") (beforeGate (trace (snd r))) /\
  "Bug Egg|Egg" ∈ App.notifiedItemsThisOverallStockCycle (fst r).
Proof.
  intros cfg stock w r. split; [reflexivity|].
  apply (proj2 (matched_tokens_marked_first cfg w App.initialState
                  ltac:(vm_compute; discriminate))
           {| itemName := "Bug Egg"; category := "Egg"; matchedKeyword := "bug egg" |}).
  vm_compute. left. reflexivity.
Defined.

(** C6. While a check is running, a further invocation only logs the
    skip: it awaits nothing and returns the state as it found it.  It is
    dropped, not queued: the later invocations behave as if it had never
    been made, and any number of ticks leaves the suspended invocation
    and the state as they are. *)
Theorem running_check_is_skipped (cfg : App.Config) (w : App.World)
    (ws : list App.World) (s : App.State) :
  App.isCheckRunning s = true ->
  App.checkStockAndNotify cfg w s =
    (s, {| outcome := Skipped; newlyFoundKeywordItems := [];
           messageBody := None; trace := [EvSkip] |}) /\
  fst (App.run cfg (w :: ws) s) = fst (App.run cfg ws s) /\
  snd (App.run cfg (w :: ws) s) =
    {| outcome := Skipped; newlyFoundKeywordItems := [];
       messageBody := None; trace := [EvSkip] |} :: snd (App.run cfg ws s) /\
  forall (p : option App.Pending) (k : nat),
    fold_left (App.deliver cfg) (repeat App.Tick k) (s, p) = (s, p).
Proof.
  intros Hrun.
  assert (H : App.checkStockAndNotify cfg w s =
    (s, {| outcome := Skipped; newlyFoundKeywordItems := [];
           messageBody := None; trace := [EvSkip] |})).
  { unfold App.checkStockAndNotify. now rewrite Hrun. }
  split; [exact H|]. unfold App.run.
  rewrite runAll_cons_state, runAll_cons, H. repeat split.
  intros p k. now apply ticks_dropped.
Qed.

Lemma running_check_is_skipped_witness :
  let s := App.setRunning true App.initialState in
  let w := {| App.fetched := Resolved (Some {| App.seedsStock := [item "Kiwi"];
                                               App.eggStock := []; App.gearStock := [] |});
              App.hour := 12; App.sent := Resolved true |} in
  fst (App.checkStockAndNotify App.defaultConfig w s) = s.
Proof.
  intros s w.
  now rewrite (proj1 (running_check_is_skipped App.defaultConfig w [] s eq_refl)).
Defined.

(** C7. An invocation that starts a check (no check is running) has
    released the lock when it completes, on every path: no stock, no
    match, suppressed, sent, refused, or an exception in the try block.
    Whatever the try block has done, [finally] leaves the lock released. *)
Theorem lock_released_on_exit (cfg : App.Config) (w : App.World) (s : App.State) :
  App.isCheckRunning s = false ->
  App.isCheckRunning (fst (App.checkStockAndNotify cfg w s)) = false /\
  In (outcome (snd (App.checkStockAndNotify cfg w s)))
     [NoStock; NoMatches; Suppressed; Delivered true; Delivered false; Threw] /\
  forall r : App.State * Report, App.isCheckRunning (fst (App.catchFinally r)) = false.
Proof.
  intros Hrun. split; [|split; [|apply catchFinally_lock]].
  - unfold App.checkStockAndNotify. rewrite Hrun. apply catchFinally_lock.
  - unfold App.checkStockAndNotify. rewrite Hrun.
    unfold App.tryBlock, App.untilSend.
    destruct (App.fetched w) as [[stock|]|]; try (simpl; tauto).
    destruct (App.detectChange stock _) as [s1 evs1].
    destruct (App.scanStock _ stock _) as [[N found] evs2].
    destruct found as [|m found]; [simpl; tauto|].
    destruct (App.isQuietHours cfg (App.hour w)); [simpl; tauto|].
    destruct (App.sent w) as [[|]|]; simpl; tauto.
Qed.

Lemma lock_released_on_exit_witness :
  let w := {| App.fetched := Rejected; App.hour := 12; App.sent := Rejected |} in
  App.isCheckRunning (fst (App.checkStockAndNotify App.defaultConfig w App.initialState))
  = false.
Proof.
  intros w.
  exact (proj1 (lock_released_on_exit App.defaultConfig w App.initialState eq_refl)).
Defined.

(** C8. When the provider returns [null], the invocation leaves the
    whole state as it was, matches nothing and neither clears, adds nor
    sends. *)
Theorem no_stock_no_change (cfg : App.Config) (w : App.World) (s : App.State) :
  App.fetched w = Resolved None ->
  fst (App.checkStockAndNotify cfg w s) = s /\
  newlyFoundKeywordItems (snd (App.checkStockAndNotify cfg w s)) = [] /\
  (trace (snd (App.checkStockAndNotify cfg w s)) = [EvFetch] \/
   trace (snd (App.checkStockAndNotify cfg w s)) = [EvSkip]).
Proof.
  intros Hnull. unfold App.checkStockAndNotify.
  destruct (App.isCheckRunning s) eqn:Hrun; [simpl; auto|].
  unfold App.tryBlock, App.untilSend. rewrite Hnull. simpl.
  rewrite setRunning_release by assumption. auto.
Qed.

Lemma no_stock_no_change_witness :
  let s := {| App.notifiedItemsThisOverallStockCycle := {["Kiwi|Seeds"]};
              App.previousOverallStockSignature := "Kiwi|Seeds";
              App.isCheckRunning := false |} in
  let w := App.world App.RequestFailed 12 true (Resolved tt) in
  fst (App.checkStockAndNotify App.defaultConfig w s) = s.
Proof.
  intros s w.
  exact (proj1 (no_stock_no_change App.defaultConfig w s eq_refl)).
Defined.


(** ** The keyword matcher of [FetchData.js] *)

Lemma find_first {A : Type} (p : A -> bool) (l : list A) :
  match find p l with
  | Some x => exists pre post, l = pre ++ x :: post /\ p x = true /\
                               Forall (fun y => p y = false) pre
  | None => Forall (fun y => p y = false) l
  end.
Proof.
  induction l as [|a l IH]; simpl; [constructor|].
  destruct (p a) eqn:Ha.
  - exists [], l. repeat split; auto.
  - destruct (find p l) as [x|].
    + destruct IH as (pre & post & -> & Hx & Hpre).
      exists (a :: pre), post. repeat split; auto.
    + constructor; assumption.
Qed.

(** The inner loop is a search for the first keyword that hits. *)
Lemma scanKeywords_find (n cat : string) (N : gset string) (kws : list string) :
  FetchData.scanKeywords n (JS.toLowerCase n) cat N kws =
  match find (keywordHit (JS.toLowerCase n)) kws with
  | Some kw =>
      if decide (token n cat ∈ N) then []
      else [{| itemName := n; category := cat; matchedKeyword := kw |}]
  | None => []
  end.
Proof.
  induction kws as [|kw kws IH]; simpl; [reflexivity|].
  unfold keywordHit at 1. now destruct (JS.includes _ _).
Qed.

Lemma Forall_miss (n : string) (kws : list string) :
  Forall (fun y => keywordHit (JS.toLowerCase n) y = false) kws ->
  Forall (fun k => ~ containsIgnoringCase n k) kws.
Proof.
  intros H. eapply Forall_impl; [exact H|]. simpl.
  intros k Hk Hc. apply keywordHit_spec in Hc. congruence.
Qed.

Lemma findInItem_spec (cat : string) (kws : list string) (N : gset string)
    (it : StockItem) :
  (wanted kws N (cat, it) /\
   exists m, FetchData.findInItem cat kws N it = [m] /\ reports kws (cat, it) m) \/
  (~ wanted kws N (cat, it) /\ FetchData.findInItem cat kws N it = []).
Proof.
  unfold FetchData.findInItem, wanted, reports. simpl.
  destruct (name it) as [n|]; [|right; split; [intros (n & Hn & _); discriminate | reflexivity]].
  rewrite scanKeywords_find.
  pose proof (find_first (keywordHit (JS.toLowerCase n)) kws) as Hf.
  destruct (find _ kws) as [kw|].
  - destruct Hf as (pre & post & Hkws & Hhit & Hpre).
    apply keywordHit_spec in Hhit.
    destruct (decide (token n cat ∈ N)) as [Hin|Hnotin].
    + right. split; [|reflexivity].
      intros (n' & Hn' & _ & Hno). injection Hn' as <-. contradiction.
    + left. split.
      * exists n. repeat split; auto. exists kw. split; [|assumption].
        rewrite Hkws. apply in_or_app. right. now left.
      * eexists. split; [reflexivity|]. simpl. repeat split.
        exists pre, post. auto using Forall_miss.
  - right. split; [|reflexivity].
    intros (n' & Hn' & (kw & Hkw & Hc) & _). injection Hn' as <-.
    apply Forall_miss in Hf. rewrite Forall_forall in Hf.
    apply (Hf kw); [apply list_elem_of_In|]; assumption.
Qed.

Lemma Matched_app (kws : list string) (N : gset string)
    (l1 l2 : list (string * StockItem)) (ms1 ms2 : list MatchResult) :
  Matched kws N l1 ms1 -> Matched kws N l2 ms2 ->
  Matched kws N (l1 ++ l2) (ms1 ++ ms2).
Proof. induction 1; simpl; intros; try (econstructor; eauto; fail); auto. Qed.

Lemma findNewKeywordItemsInCategory_spec (items : list StockItem) (cat : string)
    (kws : list string) (N : gset string) :
  Matched kws N (map (pair cat) items)
    (FetchData.findNewKeywordItemsInCategory (Some items) cat kws N).
Proof.
  simpl. induction items as [|it items IH]; simpl; [constructor|].
  destruct (findInItem_spec cat kws N it) as [(Hw & m & -> & Hr)|(Hw & ->)]; simpl.
  - now apply Matched_hit.
  - now apply Matched_miss.
Qed.

Lemma FetchData_found (cfg : FetchData.Config) (t : FetchData.Time)
    (w : FetchData.World) (s : FetchData.State) (d : FetchData.StockData) :
  FetchData.fetched w = Resolved (Some d) ->
  newlyFoundKeywordItems (snd (FetchData.checkStockAndNotify cfg t w s)) =
  FetchData.findAll (FetchData.keywordsToMonitor cfg) d
    (FetchData.notifiedItemsThisOverallStockCycle (fst (FetchData.detectChange d s))).
Proof.
  intros Hd. unfold FetchData.checkStockAndNotify. rewrite Hd.
  destruct (FetchData.detectChange d s) as [s1 evs1]. simpl fst.
  destruct (FetchData.findAll _ d _) as [|m found] eqn:Hf; [reflexivity|].
  destruct (FetchData.markAll _ _) as [N evs2].
  destruct (FetchData.isQuietHours cfg t); [reflexivity|].
  now destruct (FetchData.twilioClient cfg).
Qed.

Lemma findAll_Matched (kws : list string) (d : FetchData.StockData)
    (N : gset string) :
  Matched kws N (FetchData_tagged d) (FetchData.findAll kws d N).
Proof.
  unfold FetchData_tagged, FetchData.findAll.
  induction FetchData.categories as [|k ks IH]; simpl; [constructor|].
  apply Matched_app; [|exact IH].
  destruct (FetchData.get d k) as [items|]; [|constructor].
  apply findNewKeywordItemsInCategory_spec.
Qed.

Lemma firstMatch_unique (n : string) (kws : list string) (kw kw' : string) :
  firstMatch n kws kw -> firstMatch n kws kw' -> kw = kw'.
Proof.
  intros (pre & post & -> & Hkw & Hpre) (pre' & post' & Heq & Hkw' & Hpre').
  revert pre' Heq Hpre'. induction pre as [|x pre IH]; intros [|y pre'] Heq Hpre';
    simpl in Heq; injection Heq as Hxy Heq.
  - exact Hxy.
  - subst y. inversion Hpre'; subst. contradiction.
  - subst x. inversion Hpre; subst. contradiction.
  - inversion Hpre; subst. inversion Hpre'; subst. eapply IH; eauto.
Qed.

Lemma reports_unique (kws : list string) (tagged : string * StockItem)
    (m m' : MatchResult) :
  reports kws tagged m -> reports kws tagged m' -> m = m'.
Proof.
  destruct m as [n c k], m' as [n' c' k']. unfold reports. simpl.
  intros (Hn & -> & Hk) (Hn' & -> & Hk').
  rewrite Hn in Hn'. injection Hn' as <-.
  now rewrite (firstMatch_unique _ _ _ _ Hk Hk').
Qed.

(** The specification of the matcher leaves no choice. *)
Lemma Matched_unique (kws : list string) (N : gset string)
    (items : list (string * StockItem)) (ms ms' : list MatchResult) :
  Matched kws N items ms -> Matched kws N items ms' -> ms = ms'.
Proof.
  intros H. revert ms'.
  induction H as [|tagged m items ms Hw Hr _ IH|tagged items ms Hw _ IH];
    intros ms' H'; inversion H'; subst; try contradiction.
  - reflexivity.
  - f_equal; [eapply reports_unique; eauto | now apply IH].
  - now apply IH.
Qed.

(** C4. The keyword matcher reports, in order, exactly one result for
    every item whose name contains a keyword (ignoring case) and whose
    token is not in the notified set it is given, and nothing for the
    other items; the result carries the first keyword, in list order,
    that the name contains; no other output does so.  In a cycle the set
    it is given is the notified set as it is after the signature check. *)
Theorem keyword_matcher_exact (kws : list string) (d : FetchData.StockData)
    (N : gset string) :
  Matched kws N (FetchData_tagged d) (FetchData.findAll kws d N) /\
  (forall ms, Matched kws N (FetchData_tagged d) ms -> ms = FetchData.findAll kws d N) /\
  (forall items cat,
     Matched kws N (map (pair cat) items)
       (FetchData.findNewKeywordItemsInCategory (Some items) cat kws N)) /\
  (forall cfg t w s,
     FetchData.fetched w = Resolved (Some d) ->
     FetchData.keywordsToMonitor cfg = kws ->
     FetchData.notifiedItemsThisOverallStockCycle (fst (FetchData.detectChange d s)) = N ->
     Matched kws N (FetchData_tagged d)
       (newlyFoundKeywordItems (snd (FetchData.checkStockAndNotify cfg t w s)))).
Proof.
  split; [apply findAll_Matched|]. split; [|split].
  - intros ms Hms. eapply Matched_unique; [exact Hms | apply findAll_Matched].
  - intros items cat. apply findNewKeywordItemsInCategory_spec.
  - intros cfg t w s Hd Hk HN. rewrite (FetchData_found cfg t w s d Hd), Hk, HN.
    apply findAll_Matched.
Qed.

Lemma keyword_matcher_exact_witness :
  let d := {| FetchData.seedsStock := Some [item "Mango"; item "Carrot"];
              FetchData.eggStock := Some [item "Bug Egg"; item "Common Egg"];
              FetchData.gearStock := None |} in
  let w := {| FetchData.fetched := Resolved (Some d); FetchData.created := Resolved tt |} in
  let t := {| FetchData.hour := 12; FetchData.minute := 5; FetchData.second := 30;
              FetchData.formatted := "01/06/2025, 12:05:30" |} in
  let s := {| FetchData.notifiedItemsThisOverallStockCycle := {["Mango|Seed"]};
              FetchData.previousOverallStockSignature :=
                "Bug Egg|Egg,Carrot|Seed,Common Egg|Egg,Mango|Seed";
              FetchData.isCheckRunning := true |} in
  Matched ["bug"; "egg"; "mango"] {["Mango|Seed"]} (FetchData_tagged d)
    (newlyFoundKeywordItems
       (snd (FetchData.checkStockAndNotify
               {| FetchData.QUIET_HOURS_START := 0; FetchData.QUIET_HOURS_END := 9;
                  FetchData.keywordsToMonitor := ["bug"; "egg"; "mango"];
                  FetchData.twilioClient := true |} t w s))).
Proof.
  intros d w t s.
  apply (proj2 (proj2 (proj2
           (keyword_matcher_exact ["bug"; "egg"; "mango"] d {["Mango|Seed"]}))));
    reflexivity.
Defined.

Example keyword_matcher_example :
  FetchData.findAll ["bug"; "egg"; "mango"]
    {| FetchData.seedsStock := Some [item "Mango"; item "Carrot"];
       FetchData.eggStock := Some [item "Bug Egg"; item "Common Egg"];
       FetchData.gearStock := None |} {["Mango|Seed"]} =
  [{| itemName := "Bug Egg"; category := "Egg"; matchedKeyword := "bug" |};
   {| itemName := "Common Egg"; category := "Egg"; matchedKeyword := "egg" |}].
Proof. reflexivity. Qed.

(** ** The cycle of [FetchData.js] *)

Lemma Matched_fresh (kws : list string) (N : gset string)
    (items : list (string * StockItem)) (ms : list MatchResult) :
  Matched kws N items ms -> Forall (fun m => resultToken m ∉ N) ms.
Proof.
  induction 1 as [|tagged m items ms Hw Hr _ IH|]; [constructor| |assumption].
  constructor; [|exact IH].
  destruct Hw as (n & Hn & _ & Hfresh). destruct Hr as (Hm & Hc & _).
  unfold resultToken. rewrite Hc. congruence.
Qed.

Lemma markAll_fold (found : list MatchResult) (N : gset string) (evs : list Event) :
  fold_left (fun acc m => ({[resultToken m]} ∪ fst acc, snd acc ++ [EvAdd (resultToken m)]))
    found (N, evs) =
  (list_to_set (map resultToken found) ∪ N,
   evs ++ map (fun m => EvAdd (resultToken m)) found).
Proof.
  revert N evs. induction found as [|m found IH]; intros N evs; simpl.
  - f_equal; [set_solver | now rewrite app_nil_r].
  - rewrite IH. simpl. f_equal; [set_solver | now rewrite <- app_assoc].
Qed.

Lemma markAll_spec (found : list MatchResult) (N : gset string) :
  FetchData.markAll found N =
  (list_to_set (map resultToken found) ∪ N, map (fun m => EvAdd (resultToken m)) found).
Proof. unfold FetchData.markAll. now rewrite markAll_fold. Qed.

Lemma FetchData_setRunning_release (s : FetchData.State) :
  FetchData.isCheckRunning s = false ->
  FetchData.setRunning false (FetchData.setRunning true s) = s.
Proof. destruct s as [N sig b]. simpl. now intros ->. Qed.

Lemma FetchData_check_effects (cfg : FetchData.Config)
    (tick : FetchData.Time * FetchData.World) (s : FetchData.State) :
  let r := FetchData.mainScheduler cfg (fst tick) (snd tick) s in
  let found := newlyFoundKeywordItems (snd r) in
  exists N1 : gset string,
    (FetchData.previousOverallStockSignature (fst r) =
     FetchData.previousOverallStockSignature s ->
     N1 = FetchData.notifiedItemsThisOverallStockCycle s) /\
    FetchData.notifiedItemsThisOverallStockCycle (fst r) =
      list_to_set (map resultToken found) ∪ N1 /\
    Forall (fun m => resultToken m ∉ N1) found /\
    Forall (fun m => In (EvAdd (resultToken m)) (beforeGate (trace (snd r)))) found.
Proof.
  destruct tick as [t w]. unfold FetchData.mainScheduler. simpl fst. simpl snd.
  destruct (_ && _).
  2: { exists (FetchData.notifiedItemsThisOverallStockCycle s). simpl.
       repeat split; try constructor. set_solver. }
  destruct (FetchData.isCheckRunning s) eqn:Hrun.
  { exists (FetchData.notifiedItemsThisOverallStockCycle s). simpl.
    repeat split; try constructor. set_solver. }
  unfold FetchData.checkStockAndNotify.
  destruct (FetchData.fetched w) as [[d|]|].
  2,3: exists (FetchData.notifiedItemsThisOverallStockCycle s); simpl;
       repeat split; try constructor; set_solver.
  set (s0 := FetchData.setRunning true s).
  destruct (FetchData.detectChange d s0) as [s1 evs1] eqn:Hd.
  pose proof (Matched_fresh _ _ _ _
    (findAll_Matched (FetchData.keywordsToMonitor cfg) d
       (FetchData.notifiedItemsThisOverallStockCycle s1))) as Hfresh.
  exists (FetchData.notifiedItemsThisOverallStockCycle s1).
  assert (Hkeep : FetchData.previousOverallStockSignature s1 =
                  FetchData.previousOverallStockSignature s ->
                  FetchData.notifiedItemsThisOverallStockCycle s1 =
                  FetchData.notifiedItemsThisOverallStockCycle s).
  { unfold FetchData.detectChange in Hd. simpl in Hd.
    destruct (decide (FetchData.currentOverallStockSignature d ≠
                      FetchData.previousOverallStockSignature s));
      injection Hd as <- <-; simpl; [congruence | reflexivity]. }
  destruct (FetchData.findAll _ d _) as [|m found].
  { simpl. repeat split; try constructor; auto. set_solver. }
  rewrite markAll_spec.
  set (evs2 := map (fun m => EvAdd (resultToken m)) (m :: found)).
  assert (Hgate : Forall notGate (EvFetch :: evs1 ++ evs2)).
  { constructor; [exact I|]. apply Forall_app. split.
    - unfold FetchData.detectChange in Hd. destruct (decide _); injection Hd as <- <-;
        repeat constructor.
    - subst evs2. apply Forall_map. apply Forall_forall. intros; exact I. }
  assert (Hadds : forall tail, Forall (fun m => In (EvAdd (resultToken m))
                    (beforeGate ((EvFetch :: evs1 ++ evs2) ++ tail))) (m :: found)).
  { intros tail. rewrite beforeGate_app by assumption.
    apply Forall_forall. intros m' Hm. apply in_or_app. left. right.
    apply in_or_app. right. subst evs2.
    apply (in_map (fun m => EvAdd (resultToken m))), list_elem_of_In, Hm. }
  destruct (FetchData.isQuietHours cfg t); [|destruct (FetchData.twilioClient cfg)];
    simpl; repeat split; auto;
    match goal with
    | |- context [beforeGate ((evs1 ++ evs2) ++ ?t)] => exact (Hadds t)
    end.
Qed.

(** ** The two-match scenario *)

Lemma scenario_detectChange :
  FetchData.detectChange scenarioStock FetchData.initialState =
  ({| FetchData.notifiedItemsThisOverallStockCycle := ∅;
      FetchData.previousOverallStockSignature := "Bug Egg|Egg,Mango|Seed";
      FetchData.isCheckRunning := false |}, [EvClear]).
Proof. reflexivity. Qed.

Lemma scenario_findAll :
  FetchData.findAll ["Mango"; "Bug Egg"] scenarioStock ∅ =
  [{| itemName := "Mango"; category := "Seed"; matchedKeyword := "Mango" |};
   {| itemName := "Bug Egg"; category := "Egg"; matchedKeyword := "Bug Egg" |}].
Proof. reflexivity. Qed.

Lemma scenario_body (t : FetchData.Time) :
  let body :=
    FetchData.buildMessage t
      [{| itemName := "Mango"; category := "Seed"; matchedKeyword := "Mango" |};
       {| itemName := "Bug Egg"; category := "Egg"; matchedKeyword := "Bug Egg" |}] in
  JS.includes body "Mango" = true /\ JS.includes body "Bug Egg" = true.
Proof.
  intros body. subst body. unfold FetchData.buildMessage, FetchData.messageLine.
  simpl fold_left. simpl itemName. simpl category. simpl matchedKeyword.
  rewrite !append_assoc. split; apply includes_spec.
  - exists ("*GrowAGarden Stock Alert!* 🌱 (" +:+ FetchData.formatted t +:+ " " +:+
            FetchData.TIMEZONE +:+ ")" +:+ JS.nl +:+ JS.nl +:+
            "New keyword items in stock:" +:+ JS.nl +:+ JS.nl +:+ "- *").
    eexists. rewrite !append_assoc. reflexivity.
  - exists ("*GrowAGarden Stock Alert!* 🌱 (" +:+ FetchData.formatted t +:+ " " +:+
            FetchData.TIMEZONE +:+ ")" +:+ JS.nl +:+ JS.nl +:+
            "New keyword items in stock:" +:+ JS.nl +:+ JS.nl +:+ "- *" +:+
            "Mango" +:+ "* (Category: " +:+ "Seed" +:+ ", Keyword: " +:+ JS.dquote +:+
            "Mango" +:+ JS.dquote +:+ ")" +:+ JS.nl +:+ "- *").
    eexists. rewrite !append_assoc. reflexivity.
Qed.

(** C9. From the initial state (empty notified set, empty signature),
    one cycle of [FetchData.js] on the snapshot with Mango among the seeds
    and Bug Egg among the eggs, with the keywords Mango and Bug Egg, finds
    exactly these two matches, leaves the notified set equal to
    [{"Mango|Seed", "Bug Egg|Egg"}] and builds one body that mentions both
    items; the body is sent once, unless quiet hours or a missing client
    suppress the send. *)
Theorem scenario_two_matches (cfg : FetchData.Config) (t : FetchData.Time)
    (w : FetchData.World) :
  FetchData.keywordsToMonitor cfg = ["Mango"; "Bug Egg"] ->
  FetchData.fetched w = Resolved (Some scenarioStock) ->
  let r := FetchData.checkStockAndNotify cfg t w FetchData.initialState in
  newlyFoundKeywordItems (snd r) =
    [{| itemName := "Mango"; category := "Seed"; matchedKeyword := "Mango" |};
     {| itemName := "Bug Egg"; category := "Egg"; matchedKeyword := "Bug Egg" |}] /\
  FetchData.notifiedItemsThisOverallStockCycle (fst r) = {["Mango|Seed"; "Bug Egg|Egg"]} /\
  exists body,
    messageBody (snd r) = Some body /\
    JS.includes body "Mango" = true /\ JS.includes body "Bug Egg" = true /\
    sends (trace (snd r)) =
      if FetchData.isQuietHours cfg t then []
      else if FetchData.twilioClient cfg then [body] else [].
Proof.
  intros Hk Hf r. subst r. unfold FetchData.checkStockAndNotify.
  rewrite Hf, Hk, scenario_detectChange.
  cbv beta iota. cbn [FetchData.notifiedItemsThisOverallStockCycle].
  rewrite scenario_findAll, markAll_spec.
  destruct (scenario_body t) as [Hm Hb].
  destruct (FetchData.isQuietHours cfg t); [|destruct (FetchData.twilioClient cfg)];
    (split; [reflexivity|]); (split; [simpl; set_solver|]);
    eexists; (split; [reflexivity|]); repeat split; auto.
Qed.

Lemma scenario_two_matches_witness :
  let cfg := {| FetchData.QUIET_HOURS_START := 0; FetchData.QUIET_HOURS_END := 9;
                FetchData.keywordsToMonitor := ["Mango"; "Bug Egg"];
                FetchData.twilioClient := true |} in
  let t := {| FetchData.hour := 12; FetchData.minute := 5; FetchData.second := 30;
              FetchData.formatted := "01/06/2025, 12:05:30" |} in
  let w := {| FetchData.fetched := Resolved (Some scenarioStock);
              FetchData.created := Rejected |} in
  FetchData.notifiedItemsThisOverallStockCycle
    (fst (FetchData.checkStockAndNotify cfg t w FetchData.initialState)) =
  {["Mango|Seed"; "Bug Egg|Egg"]}.
Proof.
  intros cfg t w.
  exact (proj1 (proj2 (scenario_two_matches cfg t w eq_refl eq_refl))).
Defined.

(** The same scenario in [app.js]: the label of the seeds is [Seeds]. *)
Example App_scenario :
  let cfg := {| App.QUIET_HOURS_START := 0; App.QUIET_HOURS_END := 9;
                App.KEYWORDS_TO_MONITOR := ["Mango"; "Bug Egg"] |} in
  let w := {| App.fetched := Resolved (Some {| App.seedsStock := [item "Mango"];
                                               App.eggStock := [item "Bug Egg"];
                                               App.gearStock := [] |});
              App.hour := 12; App.sent := Resolved true |} in
  let r := App.checkStockAndNotify cfg w App.initialState in
  map resultToken (newlyFoundKeywordItems (snd r)) = ["Mango|Seeds"; "Bug Egg|Egg"] /\
  App.notifiedItemsThisOverallStockCycle (fst r) = {["Mango|Seeds"; "Bug Egg|Egg"]} /\
  length (sends (trace (snd r))) = 1.
Proof. intros cfg w r. split; [|split]; vm_compute; reflexivity. Qed.

(** ** The scheduler of [FetchData.js] *)

Lemma FetchData_effects (cfg : FetchData.Config)
    (tick : FetchData.Time * FetchData.World) (s : FetchData.State) :
  exists N1 : gset string,
    (FetchData.previousOverallStockSignature
       (fst (FetchData.mainScheduler cfg (fst tick) (snd tick) s)) =
     FetchData.previousOverallStockSignature s ->
     N1 = FetchData.notifiedItemsThisOverallStockCycle s) /\
    FetchData.notifiedItemsThisOverallStockCycle
      (fst (FetchData.mainScheduler cfg (fst tick) (snd tick) s)) =
      list_to_set (map resultToken
        (newlyFoundKeywordItems
           (snd (FetchData.mainScheduler cfg (fst tick) (snd tick) s)))) ∪ N1 /\
    Forall (fun m => resultToken m ∉ N1)
      (newlyFoundKeywordItems (snd (FetchData.mainScheduler cfg (fst tick) (snd tick) s))).
Proof.
  destruct (FetchData_check_effects cfg tick s) as (N1 & H1 & H2 & H3 & _).
  exists N1. auto.
Qed.

(** X25. Once per epoch, as in [app.js] (a batch of [FetchData.js] may
    name a token twice when the snapshot holds the item twice): a token
    matched by a tick of the scheduler is notified, and no later tick of
    the same epoch matches it again. *)
Lemma FetchData_notified_once_per_epoch (cfg : FetchData.Config)
    (tick : FetchData.Time * FetchData.World)
    (ticks : list (FetchData.Time * FetchData.World)) (s : FetchData.State) :
  let r := FetchData.mainScheduler cfg (fst tick) (snd tick) s in
  sameEpoch FetchData.previousOverallStockSignature
    (fun tick => FetchData.mainScheduler cfg (fst tick) (snd tick)) ticks (fst r) ->
  forall m, In m (newlyFoundKeywordItems (snd r)) ->
    resultToken m ∈ FetchData.notifiedItemsThisOverallStockCycle (fst r) /\
    forall rep, In rep (snd (FetchData.run cfg ticks (fst r))) ->
    forall m', In m' (newlyFoundKeywordItems rep) -> resultToken m' <> resultToken m.
Proof.
  intros r Hep m Hm.
  assert (Hin : resultToken m ∈ FetchData.notifiedItemsThisOverallStockCycle (fst r)).
  { apply (epoch_marks _ _ _ (FetchData_effects cfg) tick s), Hm. }
  split; [exact Hin|].
  apply (epoch_silent _ _ _ (FetchData_effects cfg) ticks (fst r)); assumption.
Qed.

Example FetchData_batch_duplicate :
  map resultToken
    (FetchData.findAll ["Mango"]
       {| FetchData.seedsStock := Some [item "Mango"; item "Mango"];
          FetchData.eggStock := None; FetchData.gearStock := None |} ∅) =
  ["Mango|Seed"; "Mango|Seed"].
Proof. reflexivity. Qed.

(** The matcher of [app.js] adds to the notified set while it scans: of
    two items with the same token it reports the first only. *)
Example App_matcher_duplicate :
  map resultToken
    (snd (fst (App.scanStock ["Mango"]
                 {| App.seedsStock := [item "Mango"; item "Mango"];
                    App.eggStock := []; App.gearStock := [] |} ∅))) =
  ["Mango|Seeds"].
Proof. reflexivity. Qed.

(** X26. In [FetchData.js] every matched token is marked before the
    quiet-hours decision and the send, and it is kept whatever becomes
    of the alert. *)
Lemma FetchData_matched_tokens_marked_first (cfg : FetchData.Config)
    (t : FetchData.Time) (w : FetchData.World) (s : FetchData.State) :
  let r := FetchData.mainScheduler cfg t w s in
  forall m, In m (newlyFoundKeywordItems (snd r)) ->
    In (EvAdd (resultToken m)) (beforeGate (trace (snd r))) /\
    resultToken m ∈ FetchData.notifiedItemsThisOverallStockCycle (fst r).
Proof.
  intros r m Hm.
  destruct (FetchData_check_effects cfg (t, w) s) as (N1 & _ & HN & _ & Hadd).
  simpl fst in HN, Hadd. simpl snd in HN, Hadd. fold r in HN, Hadd. split.
  - rewrite Forall_forall in Hadd. apply Hadd, list_elem_of_In, Hm.
  - rewrite HN. apply elem_of_union_l, elem_of_list_to_set, list_elem_of_In, in_map, Hm.
Qed.

(** X27. A tick of the scheduler of [FetchData.js] that finds a check
    running is dropped: the state stays as it is and nothing is fetched,
    matched or sent. *)
Lemma FetchData_running_check_is_skipped (cfg : FetchData.Config)
    (t : FetchData.Time) (w : FetchData.World) (s : FetchData.State) :
  FetchData.isCheckRunning s = true ->
  fst (FetchData.mainScheduler cfg t w s) = s /\
  newlyFoundKeywordItems (snd (FetchData.mainScheduler cfg t w s)) = [] /\
  (trace (snd (FetchData.mainScheduler cfg t w s)) = [EvSkip] \/
   trace (snd (FetchData.mainScheduler cfg t w s)) = []).
Proof.
  intros Hrun. unfold FetchData.mainScheduler.
  destruct (_ && _); [rewrite Hrun|]; simpl; auto.
Qed.

(** X28. The lock of [FetchData.js] is released on every path of a
    check that was started, an exception of the check included. *)
Lemma FetchData_lock_released_on_exit (cfg : FetchData.Config)
    (t : FetchData.Time) (w : FetchData.World) (s : FetchData.State) :
  FetchData.isCheckRunning s = false ->
  FetchData.isCheckRunning (fst (FetchData.mainScheduler cfg t w s)) = false.
Proof.
  intros Hrun. unfold FetchData.mainScheduler.
  destruct (_ && _); [rewrite Hrun|exact Hrun].
  destruct (FetchData.checkStockAndNotify cfg t w _). reflexivity.
Qed.

(** X29. No stock, no change: when the provider of [FetchData.js]
    returns [null], the check and the tick around it leave the state as
    it was. *)
Lemma FetchData_no_stock_no_change (cfg : FetchData.Config)
    (t : FetchData.Time) (w : FetchData.World) (s : FetchData.State) :
  FetchData.fetched w = Resolved None ->
  fst (FetchData.checkStockAndNotify cfg t w s) = s /\
  fst (FetchData.mainScheduler cfg t w s) = s.
Proof.
  intros Hnull. unfold FetchData.mainScheduler, FetchData.checkStockAndNotify.
  rewrite Hnull. split; [reflexivity|].
  destruct (_ && _); [|reflexivity].
  destruct (FetchData.isCheckRunning s) eqn:Hrun; [reflexivity|].
  simpl. now apply FetchData_setRunning_release.
Qed.

(** * Further properties of the code *)

(** ** The de-duplication keys *)

(** X1. In [app.js] two items have the same de-duplication key only if
    they have the same name and come from the same array: the labels of
    [categoryMap] cannot be confused, whatever the names hold. *)
Theorem App_key_determines_item (n1 n2 : string) (k1 k2 : App.CatKey) :
  token n1 (App.categoryMap k1) = token n2 (App.categoryMap k2) <->
  n1 = n2 /\ k1 = k2.
Proof.
  split; [apply App_token_inj|]. now intros [-> ->].
Qed.

(** X2. The same for the keys of [FetchData.js], with the labels Seed,
    Egg and Gear. *)
Theorem FetchData_key_determines_item (n1 n2 : string) (k1 k2 : FetchData.CatKey) :
  token n1 (FetchData.categoryMap k1) = token n2 (FetchData.categoryMap k2) <->
  n1 = n2 /\ k1 = k2.
Proof.
  split; [apply FetchData_token_inj|]. now intros [-> ->].
Qed.

(** ** The matching loop of [app.js] *)

Lemma fold_left_inv_in {A B : Type} (P : A -> Prop) (f : A -> B -> A)
    (l : list B) (a : A) :
  P a -> (forall a b, In b l -> P a -> P (f a b)) -> P (fold_left f l a).
Proof.
  revert a. induction l as [|b l IH]; intros a Ha Hf; simpl; [exact Ha|].
  apply IH.
  - apply Hf; [now left | exact Ha].
  - intros a' b' Hb'. apply Hf. now right.
Qed.

Lemma fold_left_reaches {A B : Type} (Q : A -> Prop) (f : A -> B -> A)
    (x : B) (l : list B) (a : A) :
  (forall a b, Q a -> Q (f a b)) -> (forall a, Q (f a x)) -> In x l ->
  Q (fold_left f l a).
Proof.
  intros Hmono Hx. revert a. induction l as [|b l IH]; intros a Hin; [contradiction|].
  simpl. destruct Hin as [->|Hin].
  - apply fold_left_inv; [apply Hx | intros; now apply Hmono].
  - now apply IH.
Qed.

Lemma fold_left_fixed {A B : Type} (f : A -> B -> A) (l : list B) (a : A) :
  (forall b, In b l -> f a b = a) -> fold_left f l a = a.
Proof.
  induction l as [|b l IH]; intros Hf; simpl; [reflexivity|].
  rewrite Hf by now left. apply IH. intros b' Hb'. apply Hf. now right.
Qed.

(** The body of the loop, in terms of [App_hit]. *)
Lemma scanItem_hit (kws : list string) (k : App.CatKey) (N : gset string)
    (found : list MatchResult) (evs : list Event) (it : StockItem) :
  App.scanItem kws k (N, found, evs) it =
  match App_hit kws it with
  | Some (n, kw) =>
      if decide (token n (App.categoryMap k) ∈ N) then (N, found, evs)
      else ({[token n (App.categoryMap k)]} ∪ N,
            found ++ [{| itemName := n; category := App.categoryMap k;
                         matchedKeyword := kw |}],
            evs ++ [EvAdd (token n (App.categoryMap k))])
  | None => (N, found, evs)
  end.
Proof.
  unfold App.scanItem, App_hit. destruct (name it) as [n|]; [|reflexivity].
  destruct (JS.truthy n); simpl; [|reflexivity].
  destruct (find _ kws) as [kw|]; [destruct (JS.truthy kw)|];
    now destruct (decide _).
Qed.

Lemma App_hit_spec (kws : list string) (it : StockItem) (n kw : string) :
  App_hit kws it = Some (n, kw) <->
  name it = Some n /\ n <> "" /\ firstMatch n kws kw /\ kw <> "".
Proof.
  unfold App_hit. split.
  - destruct (name it) as [n'|]; [|discriminate].
    destruct n' as [|c n']; simpl; [discriminate|].
    pose proof (find_first (keywordHit (JS.toLowerCase (String c n'))) kws) as Hf.
    destruct (find _ kws) as [kw'|]; [|discriminate].
    destruct kw' as [|c' kw']; simpl; [discriminate|].
    intros H. injection H as <- <-.
    destruct Hf as (pre & post & Hk & Hhit & Hpre).
    repeat split; try discriminate.
    exists pre, post. repeat split; auto using Forall_miss.
    now apply keywordHit_spec.
  - intros (Hn & Hne & Hfm & Hkw). rewrite Hn.
    destruct n as [|c n]; [congruence|]. simpl.
    pose proof (find_first (keywordHit (JS.toLowerCase (String c n))) kws) as Hf.
    destruct (find _ kws) as [kw'|].
    + destruct Hf as (pre & post & Hk & Hhit & Hpre).
      assert (firstMatch (String c n) kws kw') as Hfm'.
      { exists pre, post. repeat split; auto using Forall_miss.
        now apply keywordHit_spec. }
      rewrite (firstMatch_unique _ _ _ _ Hfm' Hfm).
      destruct kw; [congruence | reflexivity].
    + destruct Hfm as (pre & post & -> & Hc & _).
      apply Forall_app in Hf as [_ Hf]. inversion Hf as [|? ? Hmiss _]; subst.
      apply keywordHit_spec in Hc. congruence.
Qed.

Lemma scanItem_grows (kws : list string) (k : App.CatKey) (acc : App.Scan)
    (it : StockItem) (t : string) :
  t ∈ fst (fst acc) -> t ∈ fst (fst (App.scanItem kws k acc it)).
Proof.
  destruct acc as [[N found] evs]. rewrite scanItem_hit. simpl.
  destruct (App_hit kws it) as [[n kw]|]; [|auto].
  destruct (decide _); simpl; set_solver.
Qed.

Lemma scanCategory_grows (kws : list string) (stock : App.Stock) (acc : App.Scan)
    (k : App.CatKey) (t : string) :
  t ∈ fst (fst acc) -> t ∈ fst (fst (App.scanCategory kws stock acc k)).
Proof.
  intros H. unfold App.scanCategory.
  apply (fold_left_inv (fun acc => t ∈ fst (fst acc))); [exact H|].
  intros acc' it. apply scanItem_grows.
Qed.

(** After the loop the token of every reportable item is notified. *)
Lemma scanStock_covers (kws : list string) (stock : App.Stock) (N0 : gset string)
    (k : App.CatKey) (it : StockItem) (n kw : string) :
  In it (App.get stock k) -> App_hit kws it = Some (n, kw) ->
  token n (App.categoryMap k) ∈ fst (fst (App.scanStock kws stock N0)).
Proof.
  intros Hin Hhit. unfold App.scanStock.
  apply (fold_left_reaches (fun acc => token n (App.categoryMap k) ∈ fst (fst acc))
           (App.scanCategory kws stock) k).
  - intros acc k'. apply scanCategory_grows.
  - intros acc. unfold App.scanCategory.
    apply (fold_left_reaches (fun acc => token n (App.categoryMap k) ∈ fst (fst acc))
             (App.scanItem kws k) it); [| |exact Hin].
    + intros acc' it'. apply scanItem_grows.
    + intros [[N found] evs]. rewrite scanItem_hit, Hhit.
      destruct (decide _); simpl; set_solver.
  - destruct k; simpl; auto.
Qed.

(** When these tokens are notified already, the loop finds nothing. *)
Lemma scanStock_nothing (kws : list string) (stock : App.Stock) (N : gset string) :
  (forall k it n kw, In it (App.get stock k) -> App_hit kws it = Some (n, kw) ->
                     token n (App.categoryMap k) ∈ N) ->
  App.scanStock kws stock N = (N, [], []).
Proof.
  intros H. unfold App.scanStock. apply fold_left_fixed. intros k _.
  unfold App.scanCategory. apply fold_left_fixed. intros it Hit.
  rewrite scanItem_hit. destruct (App_hit kws it) as [[n kw]|] eqn:Hhit; [|reflexivity].
  destruct (decide _) as [|Hn]; [reflexivity|]. exfalso. apply Hn. eauto.
Qed.

(** What the loop reports comes from the snapshot. *)
Lemma scanStock_sound (kws : list string) (stock : App.Stock) (N0 : gset string) :
  Forall (fun m => exists k it,
            In it (App.get stock k) /\
            App_hit kws it = Some (itemName m, matchedKeyword m) /\
            category m = App.categoryMap k)
    (snd (fst (App.scanStock kws stock N0))).
Proof.
  unfold App.scanStock.
  apply (fold_left_inv_in (fun acc : App.Scan => Forall _ (snd (fst acc))));
    [constructor|].
  intros acc k _ Hacc. unfold App.scanCategory.
  apply (fold_left_inv_in (fun acc : App.Scan => Forall _ (snd (fst acc))));
    [exact Hacc|].
  intros [[N found] evs] it Hit Hf. rewrite scanItem_hit.
  destruct (App_hit kws it) as [[n kw]|] eqn:Hhit; [|exact Hf].
  destruct (decide _); [exact Hf|]. simpl in *.
  apply Forall_app. split; [exact Hf|]. constructor; [|constructor].
  exists k, it. simpl. auto.
Qed.

(** Started with an empty set, the loop reports every reportable item. *)
Lemma scanStock_reports (kws : list string) (stock : App.Stock) (k : App.CatKey)
    (it : StockItem) (n kw : string) :
  In it (App.get stock k) -> App_hit kws it = Some (n, kw) ->
  In {| itemName := n; category := App.categoryMap k; matchedKeyword := kw |}
     (snd (fst (App.scanStock kws stock ∅))).
Proof.
  intros Hin Hhit.
  pose proof (scanStock_covers kws stock ∅ k it n kw Hin Hhit) as Hcov.
  pose proof (scanStock_sound kws stock ∅) as Hsound.
  destruct (scanStock_inv kws stock ∅) as (HN & _).
  rewrite HN in Hcov.
  apply elem_of_union in Hcov as [Hcov|Hcov]; [|set_solver].
  apply elem_of_list_to_set, list_elem_of_In, in_map_iff in Hcov
    as (m & Htok & Hm).
  rewrite Forall_forall in Hsound.
  destruct (Hsound m (proj2 (list_elem_of_In _ _) Hm))
    as (k' & it' & _ & Hhit' & Hcat).
  unfold resultToken in Htok. rewrite Hcat in Htok.
  apply App_token_inj in Htok as [Hname ->].
  apply App_hit_spec in Hhit' as (_ & _ & Hfm' & _). rewrite Hname in Hfm'.
  apply App_hit_spec in Hhit as (_ & _ & Hfm & _).
  pose proof (firstMatch_unique _ _ _ _ Hfm' Hfm) as Hkw.
  destruct m as [mn mc mk]. simpl in *. now subst.
Qed.

(** ** One cycle of [app.js] on a snapshot *)

Lemma sends_app (a b : list Event) : sends (a ++ b) = sends a ++ sends b.
Proof.
  induction a as [|e a IH]; [reflexivity|].
  destruct e; simpl; now rewrite IH.
Qed.

Lemma sends_adds (found : list MatchResult) :
  sends (map (fun m => EvAdd (resultToken m)) found) = [].
Proof. induction found as [|m found IH]; [reflexivity | exact IH]. Qed.

(** An invocation that starts a check and receives a snapshot, in terms
    of the matching loop. *)
Lemma App_check_resolved (cfg : App.Config) (w : App.World) (s : App.State)
    (stock : App.Stock) :
  App.isCheckRunning s = false -> App.fetched w = Resolved (Some stock) ->
  let N1 : gset string :=
    if decide (App.currentOverallStockSignature stock ≠
               App.previousOverallStockSignature s)
    then ∅ else App.notifiedItemsThisOverallStockCycle s in
  let sc := App.scanStock (App.KEYWORDS_TO_MONITOR cfg) stock N1 in
  let r := App.checkStockAndNotify cfg w s in
  fst r = {| App.notifiedItemsThisOverallStockCycle := fst (fst sc);
             App.previousOverallStockSignature := App.currentOverallStockSignature stock;
             App.isCheckRunning := false |} /\
  newlyFoundKeywordItems (snd r) = snd (fst sc) /\
  messageBody (snd r) =
    match snd (fst sc) with
    | [] => None
    | _ :: _ => Some (App.buildMessage (snd (fst sc)))
    end /\
  sends (trace (snd r)) =
    match snd (fst sc) with
    | [] => []
    | _ :: _ => if App.isQuietHours cfg (App.hour w) then []
                else [App.buildMessage (snd (fst sc))]
    end.
Proof.
  intros Hrun Hf N1 sc r. subst r sc.
  unfold App.checkStockAndNotify. rewrite Hrun.
  unfold App.tryBlock, App.untilSend. rewrite Hf.
  unfold App.detectChange.
  change (App.previousOverallStockSignature (App.setRunning true s))
    with (App.previousOverallStockSignature s).
  assert (HN1 : exists evs1 s1,
            (if decide (App.currentOverallStockSignature stock ≠
                        App.previousOverallStockSignature s)
             then ({| App.notifiedItemsThisOverallStockCycle := ∅;
                      App.previousOverallStockSignature :=
                        App.currentOverallStockSignature stock;
                      App.isCheckRunning := App.isCheckRunning (App.setRunning true s) |},
                   [EvClear])
             else (App.setRunning true s, [])) = (s1, evs1) /\
            App.notifiedItemsThisOverallStockCycle s1 = N1 /\
            App.previousOverallStockSignature s1 =
              App.currentOverallStockSignature stock /\
            sends evs1 = []).
  { subst N1. destruct (decide _) as [Hne|Heq].
    - eexists _, _. split; [reflexivity|]. simpl. auto.
    - eexists _, _. split; [reflexivity|]. simpl. split; [reflexivity|].
      split; [|reflexivity].
      destruct (decide (App.currentOverallStockSignature stock =
                        App.previousOverallStockSignature s)) as [He|He];
        [now rewrite He | contradiction]. }
  destruct HN1 as (evs1 & s1 & -> & HN & Hsig & Hs1). rewrite HN.
  pose proof (scanStock_inv (App.KEYWORDS_TO_MONITOR cfg) stock N1) as (_ & Hev & _).
  destruct (App.scanStock _ stock N1) as [[N found] evs2]. simpl in Hev. simpl fst. simpl snd.
  assert (Hs2 : sends evs2 = []) by (rewrite Hev; apply sends_adds).
  assert (Hst : App.setRunning false (App.setNotified N s1) =
                {| App.notifiedItemsThisOverallStockCycle := N;
                   App.previousOverallStockSignature :=
                     App.currentOverallStockSignature stock;
                   App.isCheckRunning := false |}).
  { unfold App.setRunning, App.setNotified. simpl. now rewrite Hsig. }
  destruct found as [|m found].
  - simpl. rewrite Hst, sends_app, Hs1, Hs2. auto.
  - destruct (App.isQuietHours cfg (App.hour w)).
    + simpl. rewrite Hst, !sends_app, Hs1, Hs2. auto.
    + destruct (App.sent w) as [ok|]; simpl;
        rewrite Hst, !sends_app, Hs1, Hs2; auto.
Qed.

(** X3. An invocation of [checkStockAndNotify] hands at most one body
    to the sender: the consolidated message, when there are matches and
    the hour is not quiet; nothing otherwise.  There is a message exactly
    when there are matches. *)
Theorem App_one_alert_per_cycle (cfg : App.Config) (w : App.World) (s : App.State) :
  let r := App.checkStockAndNotify cfg w s in
  sends (trace (snd r)) =
    match messageBody (snd r) with
    | Some body => if App.isQuietHours cfg (App.hour w) then [] else [body]
    | None => []
    end /\
  (messageBody (snd r) = None <-> newlyFoundKeywordItems (snd r) = []).
Proof.
  intros r. subst r.
  destruct (App.isCheckRunning s) eqn:Hrun.
  { unfold App.checkStockAndNotify. rewrite Hrun. simpl. tauto. }
  destruct (App.fetched w) as [[stock|]|] eqn:Hf.
  - pose proof (App_check_resolved cfg w s stock Hrun Hf) as H. cbv zeta in H.
    destruct H as (_ & -> & -> & ->).
    destruct (snd (fst _)); split; try reflexivity; split; congruence.
  - unfold App.checkStockAndNotify. rewrite Hrun.
    unfold App.tryBlock, App.untilSend. rewrite Hf. simpl. tauto.
  - unfold App.checkStockAndNotify. rewrite Hrun.
    unfold App.tryBlock, App.untilSend. rewrite Hf. simpl. tauto.
Qed.

(** X4. The clock and the sender have no influence on the state: two
    invocations that receive the same answer of the provider end in the
    same state, with the same matches and the same message, whatever the
    hour is and whether the sender delivers, refuses or fails. *)
Theorem App_state_ignores_clock_and_sender (cfg : App.Config)
    (a : Awaited (option App.Stock)) (h h' : Z) (sn sn' : Awaited bool)
    (s : App.State) :
  let r := App.checkStockAndNotify cfg
             {| App.fetched := a; App.hour := h; App.sent := sn |} s in
  let r' := App.checkStockAndNotify cfg
              {| App.fetched := a; App.hour := h'; App.sent := sn' |} s in
  fst r = fst r' /\
  newlyFoundKeywordItems (snd r) = newlyFoundKeywordItems (snd r') /\
  messageBody (snd r) = messageBody (snd r').
Proof.
  intros r r'. subst r r'.
  destruct (App.isCheckRunning s) eqn:Hrun.
  { unfold App.checkStockAndNotify. rewrite Hrun. simpl. tauto. }
  destruct a as [[stock|]|].
  - pose proof (App_check_resolved cfg
                  {| App.fetched := Resolved (Some stock); App.hour := h; App.sent := sn |}
                  s stock Hrun eq_refl) as H.
    pose proof (App_check_resolved cfg
                  {| App.fetched := Resolved (Some stock); App.hour := h'; App.sent := sn' |}
                  s stock Hrun eq_refl) as H'.
    cbv zeta in H, H'.
    destruct H as (-> & -> & -> & _). destruct H' as (-> & -> & -> & _). auto.
  - unfold App.checkStockAndNotify. rewrite Hrun. simpl. auto.
  - unfold App.checkStockAndNotify. rewrite Hrun. simpl. auto.
Qed.

(** X5. A snapshot whose signature differs from the stored one opens a
    new epoch: the signature is stored and the notified set is emptied
    before the matching, so at the end it holds the tokens of this
    cycle's matches and nothing of the epochs before. *)
Theorem App_new_epoch_forgets (cfg : App.Config) (w : App.World) (s : App.State)
    (stock : App.Stock) :
  App.isCheckRunning s = false -> App.fetched w = Resolved (Some stock) ->
  App.currentOverallStockSignature stock <> App.previousOverallStockSignature s ->
  let r := App.checkStockAndNotify cfg w s in
  App.previousOverallStockSignature (fst r) = App.currentOverallStockSignature stock /\
  App.notifiedItemsThisOverallStockCycle (fst r) =
    list_to_set (map resultToken (newlyFoundKeywordItems (snd r))).
Proof.
  intros Hrun Hf Hne r. subst r.
  pose proof (App_check_resolved cfg w s stock Hrun Hf) as H. cbv zeta in H.
  destruct H as (-> & -> & _). simpl. split; [reflexivity|].
  destruct (decide _) as [_|Heq]; [|contradiction].
  destruct (scanStock_inv (App.KEYWORDS_TO_MONITOR cfg) stock ∅) as (-> & _).
  apply union_empty_r_L.
Qed.

Lemma App_new_epoch_forgets_witness :
  let s := {| App.notifiedItemsThisOverallStockCycle := {["Kiwi|Seeds"]};
              App.previousOverallStockSignature := "Kiwi|Seeds";
              App.isCheckRunning := false |} in
  let stock := {| App.seedsStock := [item "Kiwi"]; App.eggStock := [item "Bug Egg"];
                  App.gearStock := [] |} in
  let w := {| App.fetched := Resolved (Some stock); App.hour := 12;
              App.sent := Resolved true |} in
  App.notifiedItemsThisOverallStockCycle
    (fst (App.checkStockAndNotify App.defaultConfig w s)) =
  list_to_set (map resultToken
    (newlyFoundKeywordItems (snd (App.checkStockAndNotify App.defaultConfig w s)))).
Proof.
  intros s stock w.
  exact (proj2 (App_new_epoch_forgets App.defaultConfig w s stock eq_refl eq_refl
                  ltac:(vm_compute; discriminate))).
Defined.

(** X6. A cycle that receives the snapshot of the cycle before it finds
    nothing new, awaits no sender and leaves the state as it is,
    whatever the first cycle found and whether its alert went out. *)
Theorem App_same_snapshot_is_silent (cfg : App.Config) (w w' : App.World)
    (s : App.State) (stock : App.Stock) :
  App.isCheckRunning s = false ->
  App.fetched w = Resolved (Some stock) -> App.fetched w' = Resolved (Some stock) ->
  let r := App.checkStockAndNotify cfg w s in
  App.checkStockAndNotify cfg w' (fst r) =
  (fst r, {| outcome := NoMatches; newlyFoundKeywordItems := [];
             messageBody := None; trace := [EvFetch] |}).
Proof.
  intros Hrun Hf Hf' r. subst r.
  pose proof (App_check_resolved cfg w s stock Hrun Hf) as H. cbv zeta in H.
  destruct H as (-> & _).
  set (N1 := if decide (App.currentOverallStockSignature stock ≠
                        App.previousOverallStockSignature s)
             then ∅ else App.notifiedItemsThisOverallStockCycle s).
  set (N := fst (fst (App.scanStock (App.KEYWORDS_TO_MONITOR cfg) stock N1))).
  assert (Hnone : App.scanStock (App.KEYWORDS_TO_MONITOR cfg) stock N = (N, [], [])).
  { apply scanStock_nothing. intros k it n kw Hin Hhit.
    now apply (scanStock_covers _ _ _ _ it n kw). }
  unfold App.checkStockAndNotify. cbn [App.isCheckRunning].
  unfold App.tryBlock, App.untilSend. rewrite Hf'.
  unfold App.detectChange.
  cbn [App.setRunning App.previousOverallStockSignature
       App.notifiedItemsThisOverallStockCycle App.isCheckRunning].
  destruct (decide (App.currentOverallStockSignature stock ≠
                    App.currentOverallStockSignature stock)) as [Hne|_];
    [contradiction|].
  cbv beta iota. simpl (App.notifiedItemsThisOverallStockCycle _).
  rewrite Hnone. reflexivity.
Qed.

Lemma App_same_snapshot_is_silent_witness :
  let stock := {| App.seedsStock := [item "Kiwi"; item "Carrot"];
                  App.eggStock := [item "Bug Egg"]; App.gearStock := [] |} in
  let w := {| App.fetched := Resolved (Some stock); App.hour := 3;
              App.sent := Rejected |} in
  let w' := {| App.fetched := Resolved (Some stock); App.hour := 12;
               App.sent := Resolved true |} in
  newlyFoundKeywordItems
    (snd (App.checkStockAndNotify App.defaultConfig w'
            (fst (App.checkStockAndNotify App.defaultConfig w App.initialState)))) = [].
Proof.
  intros stock w w'.
  now rewrite (App_same_snapshot_is_silent App.defaultConfig w w' App.initialState stock
                 eq_refl eq_refl eq_refl).
Defined.

(** X7. What a cycle reports comes from the snapshot it received: every
    match is an item of one of the three arrays, with its non-empty name,
    the label of that array, and the first keyword of the list that the
    name contains, which is not empty. *)
Theorem App_matches_come_from_snapshot (cfg : App.Config) (w : App.World)
    (s : App.State) (stock : App.Stock) :
  App.isCheckRunning s = false -> App.fetched w = Resolved (Some stock) ->
  Forall (fun m => exists k it,
            In it (App.get stock k) /\ name it = Some (itemName m) /\
            itemName m <> "" /\ category m = App.categoryMap k /\
            firstMatch (itemName m) (App.KEYWORDS_TO_MONITOR cfg) (matchedKeyword m) /\
            matchedKeyword m <> "")
    (newlyFoundKeywordItems (snd (App.checkStockAndNotify cfg w s))).
Proof.
  intros Hrun Hf.
  pose proof (App_check_resolved cfg w s stock Hrun Hf) as H. cbv zeta in H.
  destruct H as (_ & -> & _).
  eapply Forall_impl; [apply scanStock_sound|].
  intros m (k & it & Hin & Hhit & Hcat). exists k, it.
  apply App_hit_spec in Hhit as (Hn & Hne & Hfm & Hkw). auto 10.
Qed.

Lemma App_matches_come_from_snapshot_witness :
  let stock := {| App.seedsStock := [item "Golden Kiwi"; item "Carrot"];
                  App.eggStock := []; App.gearStock := [item "Lightning Rod"] |} in
  let w := {| App.fetched := Resolved (Some stock); App.hour := 12;
              App.sent := Resolved true |} in
  Forall (fun m => exists k it,
            In it (App.get stock k) /\ name it = Some (itemName m) /\
            itemName m <> "" /\ category m = App.categoryMap k /\
            firstMatch (itemName m) (App.KEYWORDS_TO_MONITOR App.defaultConfig)
              (matchedKeyword m) /\
            matchedKeyword m <> "")
    (newlyFoundKeywordItems
       (snd (App.checkStockAndNotify App.defaultConfig w App.initialState))).
Proof.
  intros stock w.
  exact (App_matches_come_from_snapshot App.defaultConfig w App.initialState stock
           eq_refl eq_refl).
Defined.

(** X8. No reportable item is passed over: after a cycle, the token of
    every item of the snapshot whose non-empty name contains a keyword,
    the first such keyword not being empty, is in the notified set; and
    when the cycle has opened a new epoch, the item is among the matches
    with that keyword. *)
Theorem App_every_hit_is_notified (cfg : App.Config) (w : App.World)
    (s : App.State) (stock : App.Stock) (k : App.CatKey) (it : StockItem)
    (n kw : string) :
  App.isCheckRunning s = false -> App.fetched w = Resolved (Some stock) ->
  In it (App.get stock k) -> name it = Some n -> n <> "" ->
  firstMatch n (App.KEYWORDS_TO_MONITOR cfg) kw -> kw <> "" ->
  let r := App.checkStockAndNotify cfg w s in
  token n (App.categoryMap k) ∈ App.notifiedItemsThisOverallStockCycle (fst r) /\
  (App.currentOverallStockSignature stock <> App.previousOverallStockSignature s ->
   In {| itemName := n; category := App.categoryMap k; matchedKeyword := kw |}
      (newlyFoundKeywordItems (snd r))).
Proof.
  intros Hrun Hf Hin Hn Hne Hfm Hkw r. subst r.
  assert (Hhit : App_hit (App.KEYWORDS_TO_MONITOR cfg) it = Some (n, kw))
    by (apply App_hit_spec; auto).
  pose proof (App_check_resolved cfg w s stock Hrun Hf) as H. cbv zeta in H.
  destruct H as (-> & -> & _). simpl. split.
  - now apply (scanStock_covers _ _ _ _ it n kw).
  - intros Hsig. destruct (decide _) as [_|Heq]; [|contradiction].
    now apply (scanStock_reports _ _ _ it).
Qed.

Lemma App_every_hit_is_notified_witness :
  let stock := {| App.seedsStock := [item "Carrot"; item "Golden Kiwi"];
                  App.eggStock := []; App.gearStock := [] |} in
  let w := {| App.fetched := Resolved (Some stock); App.hour := 2;
              App.sent := Resolved true |} in
  In {| itemName := "Golden Kiwi"; category := "Seeds"; matchedKeyword := "Kiwi" |}
     (newlyFoundKeywordItems
        (snd (App.checkStockAndNotify App.defaultConfig w App.initialState))).
Proof.
  intros stock w.
  refine (proj2 (App_every_hit_is_notified App.defaultConfig w App.initialState stock
                   App.KeySeeds (item "Golden Kiwi") "Golden Kiwi" "Kiwi"
                   eq_refl eq_refl _ eq_refl _ _ _) _).
  - simpl. auto.
  - discriminate.
  - exists ["Sugar Apple"; "Feijoa"; "Loquat"; "Prickly Pear"; "Bell Pepper"],
           ["Pineapple"; "Bug Egg"; "Lightning Rod"; "Master Sprinkler"].
    split; [reflexivity|]. split.
    + apply keywordHit_spec. reflexivity.
    + repeat constructor; intros Hc%keywordHit_spec; discriminate.
  - discriminate.
  - vm_compute. discriminate.
Defined.

(** ** Sequences of cycles of [app.js] *)

Lemma App_check_unlocks (cfg : App.Config) (w : App.World) (s : App.State) :
  App.isCheckRunning s = false ->
  App.isCheckRunning (fst (App.checkStockAndNotify cfg w s)) = false /\
  outcome (snd (App.checkStockAndNotify cfg w s)) <> Skipped.
Proof.
  intros Hrun. unfold App.checkStockAndNotify. rewrite Hrun.
  split; [apply catchFinally_lock|].
  unfold App.tryBlock, App.untilSend.
  destruct (App.fetched w) as [[stock|]|]; try (simpl; discriminate).
  destruct (App.detectChange stock _) as [s1 evs1].
  destruct (App.scanStock _ stock _) as [[N found] evs2].
  destruct found as [|m found]; [simpl; discriminate|].
  destruct (App.isQuietHours cfg (App.hour w)); [simpl; discriminate|].
  destruct (App.sent w) as [[|]|]; simpl; discriminate.
Qed.

(** X9. When every invocation completes before the next one is made,
    none is skipped and the lock is free after each of them: skipping
    needs a tick that arrives while an invocation is suspended. *)
Theorem App_sequential_run_never_skips (cfg : App.Config) (ws : list App.World)
    (s : App.State) :
  App.isCheckRunning s = false ->
  App.isCheckRunning (fst (App.run cfg ws s)) = false /\
  Forall (fun rep => outcome rep <> Skipped) (snd (App.run cfg ws s)).
Proof.
  unfold App.run. revert s. induction ws as [|w ws IH]; intros s Hrun.
  - simpl. split; [exact Hrun | constructor].
  - rewrite runAll_cons_state, runAll_cons.
    destruct (App_check_unlocks cfg w s Hrun) as [Hl Ho].
    destruct (IH _ Hl) as [IH1 IH2]. split; [exact IH1|]. now constructor.
Qed.

Lemma App_sequential_run_never_skips_witness :
  let stock := {| App.seedsStock := [item "Kiwi"]; App.eggStock := [];
                  App.gearStock := [] |} in
  let ws := [ {| App.fetched := Resolved (Some stock); App.hour := 12;
                 App.sent := Rejected |};
              {| App.fetched := Rejected; App.hour := 12; App.sent := Rejected |};
              {| App.fetched := Resolved None; App.hour := 12;
                 App.sent := Resolved true |} ] in
  App.isCheckRunning (fst (App.run App.defaultConfig ws App.initialState)) = false.
Proof.
  intros stock ws.
  exact (proj1 (App_sequential_run_never_skips App.defaultConfig ws App.initialState
                  eq_refl)).
Defined.

Lemma App_check_stored (cfg : App.Config) (w : App.World) (s : App.State) :
  App.isCheckRunning s = false ->
  App.previousOverallStockSignature (fst (App.checkStockAndNotify cfg w s)) =
  match App.fetched w with
  | Resolved (Some stock) => App.currentOverallStockSignature stock
  | _ => App.previousOverallStockSignature s
  end.
Proof.
  intros Hrun. destruct (App.fetched w) as [[stock|]|] eqn:Hf.
  - pose proof (App_check_resolved cfg w s stock Hrun Hf) as H. cbv zeta in H.
    now destruct H as (-> & _).
  - unfold App.checkStockAndNotify. rewrite Hrun.
    unfold App.tryBlock, App.untilSend. now rewrite Hf.
  - unfold App.checkStockAndNotify. rewrite Hrun.
    unfold App.tryBlock, App.untilSend. now rewrite Hf.
Qed.

(** X10. After any sequence of completed invocations the stored
    signature is that of the last snapshot received: the invocations
    without a snapshot (the provider returned [null] or failed) leave it
    as it is, and no failure of the sender loses it. *)
Theorem App_stored_signature_is_last_snapshot (cfg : App.Config)
    (ws : list App.World) (s : App.State) :
  App.isCheckRunning s = false ->
  App.previousOverallStockSignature (fst (App.run cfg ws s)) =
  match lastStock ws with
  | Some stock => App.currentOverallStockSignature stock
  | None => App.previousOverallStockSignature s
  end.
Proof.
  unfold App.run. revert s. induction ws as [|w ws IH]; intros s Hrun.
  - reflexivity.
  - rewrite runAll_cons_state.
    rewrite (IH _ (proj1 (App_check_unlocks cfg w s Hrun))).
    simpl. destruct (lastStock ws) as [stock|]; [reflexivity|].
    rewrite (App_check_stored cfg w s Hrun).
    now destruct (App.fetched w) as [[stock|]|].
Qed.

Lemma App_stored_signature_is_last_snapshot_witness :
  let stock := {| App.seedsStock := [item "Kiwi"]; App.eggStock := [];
                  App.gearStock := [] |} in
  let ws := [ {| App.fetched := Resolved (Some stock); App.hour := 12;
                 App.sent := Rejected |};
              {| App.fetched := Resolved None; App.hour := 12;
                 App.sent := Resolved true |} ] in
  App.previousOverallStockSignature (fst (App.run App.defaultConfig ws App.initialState))
  = "Kiwi|Seeds".
Proof.
  intros stock ws.
  exact (App_stored_signature_is_last_snapshot App.defaultConfig ws App.initialState
           eq_refl).
Defined.

(** ** The lock under arbitrary interleavings *)

(** X11. Whatever the order in which the timer ticks and the provider
    and the sender answer, the lock is held exactly while an invocation
    is suspended at an await: no sequence of signals leaves the lock
    held with no invocation to release it, nor starts a second
    invocation beside a suspended one. *)
Theorem machine_lock_invariant (cfg : App.Config) (sigs : list App.Signal)
    (s : App.State) :
  App.isCheckRunning s = false ->
  App.consistent (fold_left (App.deliver cfg) sigs (s, None)).
Proof.
  intros Hrun. apply fold_left_inv; [exact Hrun|].
  intros m sg. apply deliver_consistent.
Qed.

Lemma machine_lock_invariant_witness :
  let stock := {| App.seedsStock := [item "Kiwi"]; App.eggStock := [];
                  App.gearStock := [] |} in
  App.consistent
    (fold_left (App.deliver App.defaultConfig)
       [App.Tick; App.Tick; App.SendSettled (Resolved true);
        App.FetchSettled (Resolved (Some stock)) 12; App.Tick;
        App.FetchSettled Rejected 12; App.SendSettled Rejected; App.Tick]
       (App.initialState, None)).
Proof.
  intros stock.
  exact (machine_lock_invariant App.defaultConfig _ App.initialState eq_refl).
Defined.

Lemma interleaved_invocation_witness :
  let stock := {| App.seedsStock := [item "Kiwi"]; App.eggStock := [];
                  App.gearStock := [] |} in
  let w := {| App.fetched := Resolved (Some stock); App.hour := 12;
              App.sent := Resolved true |} in
  fold_left (App.deliver App.defaultConfig)
    (repeat App.Tick 3 ++ [App.SendSettled (App.sent w)])
    (fold_left (App.deliver App.defaultConfig)
       (App.Tick :: repeat App.Tick 2 ++ [App.FetchSettled (App.fetched w) (App.hour w)])
       (App.initialState, None)) =
  (fst (App.checkStockAndNotify App.defaultConfig w App.initialState), None).
Proof.
  intros stock w.
  exact (proj2 (interleaved_invocation App.defaultConfig w App.initialState 2 3 eq_refl)).
Defined.

(** ** The scraper and its users *)

Lemma rev_app_spec (s1 s2 : string) :
  String.rev_app s1 s2 = String.rev_app s1 "" +:+ s2.
Proof.
  revert s2. induction s1 as [|a s1 IH]; intros s2; simpl.
  - now rewrite append_nil_l.
  - rewrite (IH (String a s2)), (IH (String a "")), append_assoc.
    now rewrite append_cons, append_nil_l.
Qed.

Lemma rev_cons (c : ascii) (s : string) :
  String.rev (String c s) = String.rev s +:+ String c "".
Proof. unfold String.rev. simpl. apply rev_app_spec. Qed.

Lemma rev_snoc (c : ascii) (s : string) :
  String.rev (s +:+ String c "") = String c (String.rev s).
Proof.
  induction s as [|a s IH].
  - now rewrite append_nil_l.
  - now rewrite append_cons, !rev_cons, IH, append_cons.
Qed.

Lemma rev_involutive (s : string) : String.rev (String.rev s) = s.
Proof.
  induction s as [|a s IH]; [reflexivity|].
  now rewrite rev_cons, rev_snoc, IH.
Qed.

Lemma trimStart_idemp (s : string) : JS.trimStart (JS.trimStart s) = JS.trimStart s.
Proof.
  induction s as [|c s IH]; [reflexivity|]. simpl.
  destruct (Ascii.is_space c) eqn:E; [exact IH|]. simpl. now rewrite E.
Qed.

Lemma trimStart_snoc (x y : string) (c : ascii) :
  Ascii.is_space c = false ->
  JS.trimStart (x +:+ String c y) = JS.trimStart x +:+ String c y.
Proof.
  intros Hc. induction x as [|d x IH].
  - rewrite !append_nil_l. simpl. now rewrite Hc.
  - rewrite append_cons. simpl. destruct (Ascii.is_space d); [exact IH|].
    now rewrite append_cons.
Qed.

Lemma trimStart_head (s : string) :
  match JS.trimStart s with
  | EmptyString => True
  | String c _ => Ascii.is_space c = false
  end.
Proof.
  induction s as [|c s IH]; [exact I|]. simpl.
  destruct (Ascii.is_space c) eqn:E; [exact IH | exact E].
Qed.

(** [trim] leaves no white space at either end: trimming again changes
    nothing. *)
Lemma trim_idemp (s : string) : JS.trim (JS.trim s) = JS.trim s.
Proof.
  unfold JS.trim at 1.
  assert (Hstart : JS.trimStart (JS.trim s) = JS.trim s).
  { unfold JS.trim. pose proof (trimStart_head s) as Hh.
    destruct (JS.trimStart s) as [|c u]; [reflexivity|].
    rewrite rev_cons, trimStart_snoc, rev_snoc by exact Hh.
    simpl. now rewrite Hh. }
  rewrite Hstart. unfold JS.trim.
  now rewrite rev_involutive, trimStart_idemp.
Qed.

Lemma fetchStockData_Html (page : App.Page) :
  App.fetchStockData (App.Html page) =
  Some {| App.seedsStock := App.scraped page "SEEDS STOCK";
          App.eggStock := App.scraped page "EGG STOCK";
          App.gearStock := App.scraped page "GEAR STOCK" ++
                           App.scraped page "HONEY STOCK" ++
                           App.scraped page "COSMETICS STOCK" |}.
Proof.
  unfold App.fetchStockData, App.stockCategories. simpl fold_left.
  rewrite !scrapeCategory_spec. simpl. now rewrite <- app_assoc.
Qed.

Lemma scraped_trimmed (page : App.Page) (heading : string) :
  Forall (fun it => exists n, name it = Some n /\ n <> "" /\ JS.trim n = n)
    (App.scraped page heading).
Proof.
  unfold App.scraped. destruct (page heading) as [lis|]; [|constructor].
  induction lis as [|text lis IH]; simpl; [constructor|].
  apply Forall_app. split; [|exact IH].
  destruct (JS.trim text) eqn:E; simpl; repeat constructor.
  eexists. split; [reflexivity|]. split; [discriminate|].
  rewrite <- E. apply trim_idemp.
Qed.

(** X12. Every item of a snapshot that [fetchStockData] returns has a
    name that is not empty and carries no white space at its ends:
    trimming it again changes nothing. *)
Theorem fetchStockData_names_trimmed (resp : App.Response) (stock : App.Stock) :
  App.fetchStockData resp = Some stock ->
  forall k, Forall (fun it => exists n, name it = Some n /\ n <> "" /\ JS.trim n = n)
              (App.get stock k).
Proof.
  destruct resp as [| | |page]; try discriminate.
  rewrite fetchStockData_Html. intros [= <-] k.
  destruct k; simpl; repeat (apply Forall_app; split); apply scraped_trimmed.
Qed.

Lemma fetchStockData_names_trimmed_witness :
  let page : App.Page := fun heading =>
    if String.eqb heading "EGG STOCK" then Some ["  Bug Egg  "; "   "] else None in
  Forall (fun it => exists n, name it = Some n /\ n <> "" /\ JS.trim n = n)
         [item "Bug Egg"].
Proof.
  intros page.
  exact (fetchStockData_names_trimmed (App.Html page) _ eq_refl App.KeyEgg).
Defined.

Lemma scraped_blank (page : App.Page) (heading : string) :
  match page heading with
  | Some lis => Forall (fun text => JS.trim text = "") lis
  | None => True
  end ->
  App.scraped page heading = [].
Proof.
  unfold App.scraped. destruct (page heading) as [lis|]; [|reflexivity].
  induction 1 as [|text lis Ht _ IH]; [reflexivity|].
  simpl. now rewrite Ht, IH.
Qed.

(** X13. A page on which every stock section is missing, or lists only
    entries whose text is blank, still gives a snapshot (not [null]); its
    signature is empty, so a cycle that receives it after a snapshot
    with items puts the program back into its initial state: the
    notified set is emptied and nothing is matched. *)
Theorem App_blank_page_resets (cfg : App.Config) (page : App.Page) (h : Z)
    (isInitialized : bool) (twilio : Awaited unit) (s : App.State) :
  App.isCheckRunning s = false -> App.previousOverallStockSignature s <> "" ->
  (forall heading, match page heading with
                   | Some lis => Forall (fun text => JS.trim text = "") lis
                   | None => True
                   end) ->
  App.checkStockAndNotify cfg (App.world (App.Html page) h isInitialized twilio) s =
  (App.initialState, {| outcome := NoMatches; newlyFoundKeywordItems := [];
                        messageBody := None; trace := [EvFetch; EvClear] |}).
Proof.
  intros Hrun Hsig Hpage.
  unfold App.world. rewrite fetchStockData_Html.
  rewrite !scraped_blank by apply Hpage.
  unfold App.checkStockAndNotify. rewrite Hrun.
  unfold App.tryBlock, App.untilSend. cbn [App.fetched].
  unfold App.detectChange.
  change (App.previousOverallStockSignature (App.setRunning true s))
    with (App.previousOverallStockSignature s).
  change (App.currentOverallStockSignature
            {| App.seedsStock := []; App.eggStock := []; App.gearStock := [] ++ [] ++ [] |})
    with "".
  destruct (decide ("" ≠ App.previousOverallStockSignature s)) as [_|Heq].
  - reflexivity.
  - exfalso. apply Heq. intros E. now apply Hsig.
Qed.

Lemma App_blank_page_resets_witness :
  let s := {| App.notifiedItemsThisOverallStockCycle := {["Kiwi|Seeds"]};
              App.previousOverallStockSignature := "Kiwi|Seeds";
              App.isCheckRunning := false |} in
  let page : App.Page := fun heading =>
    if String.eqb heading "SEEDS STOCK" then Some ["   "] else None in
  fst (App.checkStockAndNotify App.defaultConfig
         (App.world (App.Html page) 12 true (Resolved tt)) s) = App.initialState.
Proof.
  intros s page.
  rewrite (App_blank_page_resets App.defaultConfig page 12 true (Resolved tt) s
             eq_refl ltac:(discriminate)).
  - reflexivity.
  - intros heading. unfold page.
    destruct (String.eqb heading "SEEDS STOCK"); [|exact I].
    repeat constructor.
Defined.

Lemma allStockItems_get (stock : App.Stock) (it : StockItem) :
  In it (TestProxy.allStockItems stock) <-> exists k, In it (App.get stock k).
Proof.
  unfold TestProxy.allStockItems. rewrite !in_app_iff. split.
  - intros [H|[H|H]];
      [exists App.KeySeeds | exists App.KeyEgg | exists App.KeyGear]; exact H.
  - intros [[] H]; simpl in H; auto.
Qed.

Lemma keywordHit_self (n : string) : keywordHit (JS.toLowerCase n) n = true.
Proof.
  apply keywordHit_spec. exists "", "".
  now rewrite append_nil_l, append_nil_r.
Qed.

(** X14. What the manual test of [test-proxy.js] reports as in stock, an
    item whose name is one of the keywords letter for letter, is also
    reported by the matching loop of [app.js] when the notified set is
    empty, provided that no keyword is the empty string. *)
Theorem TestProxy_found_is_alerted (kws : list string) (stock : App.Stock)
    (it : StockItem) :
  Forall (fun kw => kw <> "") kws ->
  In it (TestProxy.foundItems kws stock) ->
  exists m, In m (snd (fst (App.scanStock kws stock ∅))) /\
            name it = Some (itemName m).
Proof.
  intros Hkws Hit. unfold TestProxy.foundItems in Hit.
  apply filter_In in Hit as [Hin Hmon].
  apply allStockItems_get in Hin as [k Hin].
  unfold TestProxy.monitored in Hmon.
  destruct (name it) as [n|] eqn:Hn; [|discriminate].
  apply existsb_exists in Hmon as (kw & Hkw & Heq).
  apply String.eqb_eq in Heq. subst kw.
  rewrite Forall_forall in Hkws.
  assert (Hne : n <> "") by (apply Hkws, list_elem_of_In, Hkw).
  destruct (find (keywordHit (JS.toLowerCase n)) kws) as [kw|] eqn:Hfind.
  - apply find_some in Hfind as Hkw'. destruct Hkw' as [Hkw' _].
    assert (Hne' : kw <> "") by (apply Hkws, list_elem_of_In, Hkw').
    assert (Hhit : App_hit kws it = Some (n, kw)).
    { unfold App_hit. rewrite Hn.
      destruct n; [congruence|]. simpl JS.truthy. cbv iota. rewrite Hfind.
      destruct kw; [congruence | reflexivity]. }
    eexists. split; [apply (scanStock_reports kws stock k it n kw Hin Hhit)|].
    reflexivity.
  - pose proof (find_none _ _ Hfind n Hkw) as Hmiss.
    rewrite keywordHit_self in Hmiss. discriminate.
Qed.

Lemma TestProxy_found_is_alerted_witness :
  let stock := {| App.seedsStock := [item "Kiwi"; item "Carrot"];
                  App.eggStock := []; App.gearStock := [] |} in
  exists m,
    In m (snd (fst (App.scanStock (App.KEYWORDS_TO_MONITOR App.defaultConfig) stock ∅))) /\
    name (item "Kiwi") = Some (itemName m).
Proof.
  intros stock.
  apply (TestProxy_found_is_alerted (App.KEYWORDS_TO_MONITOR App.defaultConfig) stock
           (item "Kiwi")).
  - repeat constructor; discriminate.
  - vm_compute. left. reflexivity.
Defined.

(** ** One cycle of [FetchData.js] on a snapshot *)

Lemma scanKeywords_mono (n nl c : string) (N N' : gset string) (kws : list string)
    (m : MatchResult) :
  N ⊆ N' -> In m (FetchData.scanKeywords n nl c N' kws) ->
  In m (FetchData.scanKeywords n nl c N kws).
Proof.
  intros Hsub. induction kws as [|kw kws IH]; simpl; [auto|].
  destruct (JS.includes nl (JS.toLowerCase kw)); [|exact IH].
  destruct (decide (token n c ∈ N')) as [|Hn']; [contradiction|].
  destruct (decide (token n c ∈ N)) as [Hn|]; [|auto].
  exfalso. apply Hn'. now apply Hsub.
Qed.

Lemma scanKeywords_fresh (n nl c : string) (N : gset string) (kws : list string) :
  Forall (fun m => resultToken m ∉ N) (FetchData.scanKeywords n nl c N kws).
Proof.
  induction kws as [|kw kws IH]; simpl; [constructor|].
  destruct (JS.includes nl (JS.toLowerCase kw)); [|exact IH].
  destruct (decide (token n c ∈ N)); repeat constructor. assumption.
Qed.

Lemma FetchData_findAll_mono (kws : list string) (d : FetchData.StockData)
    (N N' : gset string) (m : MatchResult) :
  N ⊆ N' -> In m (FetchData.findAll kws d N') -> In m (FetchData.findAll kws d N).
Proof.
  intros Hsub. unfold FetchData.findAll. rewrite !in_flat_map.
  intros (k & Hk & Hm). exists k. split; [exact Hk|].
  destruct (FetchData.get d k) as [items|]; [|exact Hm].
  unfold FetchData.findNewKeywordItemsInCategory in *. rewrite in_flat_map in *.
  destruct Hm as (it & Hit & Hm). exists it. split; [exact Hit|].
  unfold FetchData.findInItem in *. destruct (name it) as [n|]; [|exact Hm].
  now apply (scanKeywords_mono _ _ _ N N').
Qed.

Lemma FetchData_findAll_fresh (kws : list string) (d : FetchData.StockData)
    (N : gset string) :
  Forall (fun m => resultToken m ∉ N) (FetchData.findAll kws d N).
Proof.
  apply Forall_forall. intros m Hm%list_elem_of_In.
  unfold FetchData.findAll in Hm. apply in_flat_map in Hm as (k & _ & Hm).
  destruct (FetchData.get d k) as [items|]; [|contradiction].
  unfold FetchData.findNewKeywordItemsInCategory in Hm.
  apply in_flat_map in Hm as (it & _ & Hm).
  unfold FetchData.findInItem in Hm. destruct (name it) as [n|]; [|contradiction].
  pose proof (scanKeywords_fresh n (JS.toLowerCase n) (FetchData.categoryMap k) N kws) as Hf.
  rewrite Forall_forall in Hf. apply Hf, list_elem_of_In, Hm.
Qed.

(** Once the matches are notified, the matcher finds nothing more in the
    same snapshot. *)
Lemma FetchData_findAll_exhausted (kws : list string) (d : FetchData.StockData)
    (N : gset string) :
  FetchData.findAll kws d
    (list_to_set (map resultToken (FetchData.findAll kws d N)) ∪ N) = [].
Proof.
  set (N' := list_to_set (map resultToken (FetchData.findAll kws d N)) ∪ N).
  destruct (FetchData.findAll kws d N') as [|m l] eqn:E; [reflexivity|].
  exfalso.
  assert (Hm : In m (FetchData.findAll kws d N')) by (rewrite E; now left).
  pose proof (FetchData_findAll_fresh kws d N') as Hf.
  rewrite Forall_forall in Hf. apply (Hf m); [now apply list_elem_of_In|].
  apply (FetchData_findAll_mono kws d N N') in Hm; [|subst N'; set_solver].
  subst N'. apply elem_of_union_l, elem_of_list_to_set, list_elem_of_In, in_map, Hm.
Qed.

(** [checkStockAndNotify] of [FetchData.js] on a snapshot, in terms of
    the matcher. *)
Lemma FetchData_check_resolved (cfg : FetchData.Config) (t : FetchData.Time)
    (w : FetchData.World) (s : FetchData.State) (d : FetchData.StockData) :
  FetchData.fetched w = Resolved (Some d) ->
  let N1 : gset string :=
    if decide (FetchData.currentOverallStockSignature d ≠
               FetchData.previousOverallStockSignature s)
    then ∅ else FetchData.notifiedItemsThisOverallStockCycle s in
  let found := FetchData.findAll (FetchData.keywordsToMonitor cfg) d N1 in
  let r := FetchData.checkStockAndNotify cfg t w s in
  fst r = {| FetchData.notifiedItemsThisOverallStockCycle :=
               list_to_set (map resultToken found) ∪ N1;
             FetchData.previousOverallStockSignature :=
               FetchData.currentOverallStockSignature d;
             FetchData.isCheckRunning := FetchData.isCheckRunning s |} /\
  newlyFoundKeywordItems (snd r) = found /\
  messageBody (snd r) =
    match found with
    | [] => None
    | _ :: _ => Some (FetchData.buildMessage t found)
    end /\
  sends (trace (snd r)) =
    match found with
    | [] => []
    | _ :: _ => if FetchData.isQuietHours cfg t then []
                else if FetchData.twilioClient cfg
                     then [FetchData.buildMessage t found] else []
    end.
Proof.
  intros Hf N1 found r. subst r.
  unfold FetchData.checkStockAndNotify. rewrite Hf.
  unfold FetchData.detectChange.
  assert (HN1 : exists evs1 s1,
            (if decide (FetchData.currentOverallStockSignature d ≠
                        FetchData.previousOverallStockSignature s)
             then ({| FetchData.notifiedItemsThisOverallStockCycle := ∅;
                      FetchData.previousOverallStockSignature :=
                        FetchData.currentOverallStockSignature d;
                      FetchData.isCheckRunning := FetchData.isCheckRunning s |},
                   [EvClear])
             else (s, [])) = (s1, evs1) /\
            s1 = {| FetchData.notifiedItemsThisOverallStockCycle := N1;
                    FetchData.previousOverallStockSignature :=
                      FetchData.currentOverallStockSignature d;
                    FetchData.isCheckRunning := FetchData.isCheckRunning s |} /\
            sends evs1 = []).
  { subst N1. destruct (decide _) as [Hne|Heq].
    - eexists _, _. split; [reflexivity|]. auto.
    - eexists _, _. split; [reflexivity|]. split; [|reflexivity].
      destruct (decide (FetchData.currentOverallStockSignature d =
                        FetchData.previousOverallStockSignature s)) as [He|He];
        [|contradiction].
      rewrite He. now destruct s. }
  destruct HN1 as (evs1 & s1 & -> & -> & Hs1).
  cbn [FetchData.notifiedItemsThisOverallStockCycle]. fold found.
  destruct found as [|m found'] eqn:Efound.
  - simpl. rewrite Hs1. repeat split. f_equal. set_solver.
  - rewrite markAll_spec.
    set (evs2 := map (fun m => EvAdd (resultToken m)) (m :: found')).
    assert (Hs2 : sends evs2 = []) by apply sends_adds.
    destruct (FetchData.isQuietHours cfg t); [|destruct (FetchData.twilioClient cfg)];
      simpl; rewrite !sends_app, Hs1, Hs2; auto.
Qed.

(** X15. An invocation of [checkStockAndNotify] of [FetchData.js] hands
    at most one body to Twilio: the consolidated message, when there are
    matches, the hour is not quiet and the client exists; nothing
    otherwise.  There is a message exactly when there are matches. *)
Theorem FetchData_one_alert_per_cycle (cfg : FetchData.Config) (t : FetchData.Time)
    (w : FetchData.World) (s : FetchData.State) :
  let r := FetchData.checkStockAndNotify cfg t w s in
  sends (trace (snd r)) =
    match messageBody (snd r) with
    | Some body =>
        if FetchData.isQuietHours cfg t then []
        else if FetchData.twilioClient cfg then [body] else []
    | None => []
    end /\
  (messageBody (snd r) = None <-> newlyFoundKeywordItems (snd r) = []).
Proof.
  intros r. subst r.
  destruct (FetchData.fetched w) as [[d|]|] eqn:Hf.
  - pose proof (FetchData_check_resolved cfg t w s d Hf) as H. cbv zeta in H.
    destruct H as (_ & -> & -> & ->).
    destruct (FetchData.findAll _ d _); split; try reflexivity; split; congruence.
  - unfold FetchData.checkStockAndNotify. rewrite Hf. simpl. tauto.
  - unfold FetchData.checkStockAndNotify. rewrite Hf. simpl. tauto.
Qed.

(** X16. In [FetchData.js] too, a cycle that receives the snapshot of
    the cycle before it finds nothing new, calls no sender and leaves
    the state as it is, whether the first alert was suppressed, sent,
    or lost. *)
Theorem FetchData_same_snapshot_is_silent (cfg : FetchData.Config)
    (t t' : FetchData.Time) (w w' : FetchData.World) (s : FetchData.State)
    (d : FetchData.StockData) :
  FetchData.fetched w = Resolved (Some d) -> FetchData.fetched w' = Resolved (Some d) ->
  let r := FetchData.checkStockAndNotify cfg t w s in
  FetchData.checkStockAndNotify cfg t' w' (fst r) =
  (fst r, {| outcome := NoMatches; newlyFoundKeywordItems := [];
             messageBody := None; trace := [EvFetch] |}).
Proof.
  intros Hf Hf' r. subst r.
  pose proof (FetchData_check_resolved cfg t w s d Hf) as H. cbv zeta in H.
  destruct H as (-> & _).
  unfold FetchData.checkStockAndNotify. rewrite Hf'.
  unfold FetchData.detectChange.
  cbn [FetchData.previousOverallStockSignature].
  destruct (decide (FetchData.currentOverallStockSignature d ≠
                    FetchData.currentOverallStockSignature d)) as [Hne|_];
    [contradiction|].
  cbv beta iota. cbn [FetchData.notifiedItemsThisOverallStockCycle].
  now rewrite FetchData_findAll_exhausted.
Qed.

Lemma FetchData_same_snapshot_is_silent_witness :
  let t := {| FetchData.hour := 3; FetchData.minute := 5; FetchData.second := 30;
              FetchData.formatted := "03:05:30" |} in
  let w := {| FetchData.fetched := Resolved (Some scenarioStock);
              FetchData.created := Rejected |} in
  newlyFoundKeywordItems
    (snd (FetchData.checkStockAndNotify (FetchData.defaultConfig true) t w
            (fst (FetchData.checkStockAndNotify (FetchData.defaultConfig true) t w
                    FetchData.initialState)))) = [].
Proof.
  intros t w.
  now rewrite (FetchData_same_snapshot_is_silent (FetchData.defaultConfig true) t t w w
                 FetchData.initialState scenarioStock eq_refl eq_refl).
Defined.

(** ** The second version of [FetchData.js] *)

Lemma flat_map_filter {A B : Type} (p : A -> bool) (f : A -> list B) (l : list A) :
  flat_map f (List.filter p l) = flat_map (fun x => if p x then f x else []) l.
Proof.
  induction l as [|x l IH]; [reflexivity|]. simpl.
  destruct (p x); simpl; now rewrite IH.
Qed.

Lemma FetchData2_findInItem_hasName (c : string) (kws : list string) (N : gset string)
    (it : StockItem) :
  FetchData2.findInItem c kws N it =
  if hasName it then FetchData.findInItem c kws N it else [].
Proof.
  unfold FetchData2.findInItem, FetchData.findInItem, hasName.
  destruct (name it) as [n|]; [|reflexivity]. now destruct (JS.truthy n).
Qed.

(** The matcher of the second version is the later matcher on the
    snapshot without the items that have no name or an empty one. *)
Lemma FetchData2_findAll_withNames (kws : list string) (d : FetchData.StockData)
    (N : gset string) :
  FetchData2.findAll kws d N = FetchData.findAll kws (withNames d) N.
Proof.
  unfold FetchData2.findAll, FetchData.findAll, FetchData.categories.
  assert (H : forall k,
    match FetchData.get d k with
    | Some items =>
        FetchData2.findNewKeywordItemsInCategory (Some items)
          (FetchData.categoryMap k) kws N
    | None => []
    end =
    match FetchData.get (withNames d) k with
    | Some items =>
        FetchData.findNewKeywordItemsInCategory (Some items)
          (FetchData.categoryMap k) kws N
    | None => []
    end).
  { intros k.
    assert (Hg : FetchData.get (withNames d) k =
                 option_map (List.filter hasName) (FetchData.get d k))
      by now destruct k.
    rewrite Hg. destruct (FetchData.get d k) as [items|]; [|reflexivity].
    simpl. rewrite flat_map_filter. apply flat_map_ext.
    intros it. apply FetchData2_findInItem_hasName. }
  apply flat_map_ext. exact H.
Qed.

Lemma scanKeywords_empty_name (c : string) (N : gset string) (kws : list string) :
  Forall (fun kw => kw <> "") kws -> FetchData.scanKeywords "" "" c N kws = [].
Proof.
  induction 1 as [|kw kws Hkw _ IH]; [reflexivity|].
  destruct kw as [|a kw]; [contradiction | exact IH].
Qed.

Lemma FetchData2_findInItem_agrees (c : string) (kws : list string) (N : gset string)
    (it : StockItem) :
  Forall (fun kw => kw <> "") kws ->
  FetchData2.findInItem c kws N it = FetchData.findInItem c kws N it.
Proof.
  intros Hkws. rewrite FetchData2_findInItem_hasName.
  unfold hasName, FetchData.findInItem.
  destruct (name it) as [n|]; [|reflexivity].
  destruct n as [|a n]; [|reflexivity].
  simpl. symmetry. now apply scanKeywords_empty_name.
Qed.

Lemma findInEntry_spec (c : string) (kws : list string) (N : gset string) (e : Entry) :
  FetchData2.findInEntry c kws N e =
  if entryThrows e then None else Some (FetchData2.findInItem c kws N (toItem e)).
Proof. destruct e as [|[|s|[|]]]; reflexivity. Qed.

(** X17. On an array of arbitrary entries,
    [findNewKeywordItemsInCategory] of the second version of
    [FetchData.js] throws exactly when an entry is [null] or has a
    truthy name that is not a string, where the last version skips the
    entry.  On every other array, and as long as no keyword is the empty
    string, the two versions report the same matches: the second skips
    the empty names, in which the last finds no keyword. *)
Theorem FetchData2_matcher_agrees_unless_it_throws (kws : list string) (c : string)
    (N : gset string) (items : list Entry) :
  Forall (fun kw => kw <> "") kws ->
  FetchData2.findNewKeywordItemsInEntries items c kws N =
  if existsb entryThrows items then None
  else Some (FetchData.findNewKeywordItemsInCategory (Some (map toItem items)) c kws N).
Proof.
  intros Hkws. induction items as [|e items IH]; [reflexivity|].
  cbn [FetchData2.findNewKeywordItemsInEntries existsb map].
  rewrite findInEntry_spec. destruct (entryThrows e); [reflexivity|].
  rewrite IH. cbn [orb]. destruct (existsb entryThrows items); [reflexivity|].
  rewrite (FetchData2_findInItem_agrees _ _ _ _ Hkws). reflexivity.
Qed.

Lemma FetchData2_matcher_agrees_unless_it_throws_witness :
  let kws := FetchData2.keywordsToMonitor (FetchData2.defaultConfig true) in
  let items := [EntryValue (NameString ""); EntryValue NameUndefined;
                EntryValue (NameOther false); EntryValue (NameString "Golden Mango")] in
  FetchData2.findNewKeywordItemsInEntries items "Seed" kws ∅ =
  Some (FetchData.findNewKeywordItemsInCategory (Some (map toItem items)) "Seed" kws ∅).
Proof.
  intros kws items.
  exact (FetchData2_matcher_agrees_unless_it_throws kws "Seed" ∅ items
           ltac:(repeat constructor; discriminate)).
Defined.

(** [checkStockAndNotify] of the second version on a snapshot: the
    matches are marked only when the message has been delivered. *)
Lemma FetchData2_check_resolved (cfg : FetchData2.Config) (w : FetchData.World)
    (s : FetchData2.State) (d : FetchData.StockData) :
  FetchData.fetched w = Resolved (Some d) ->
  let N1 : gset string :=
    if decide (FetchData2.currentOverallStockSignature d ≠
               FetchData2.previousOverallStockSignature s)
    then ∅ else FetchData2.notifiedItemsThisOverallStockCycle s in
  let found := FetchData2.findAll (FetchData2.keywordsToMonitor cfg) d N1 in
  let delivered :=
    match found, FetchData.created w with
    | _ :: _, Resolved _ => FetchData2.twilioClient cfg
    | _, _ => false
    end in
  let r := FetchData2.checkStockAndNotify cfg w s in
  fst r = {| FetchData2.notifiedItemsThisOverallStockCycle :=
               if delivered then list_to_set (map resultToken found) ∪ N1 else N1;
             FetchData2.previousOverallStockSignature :=
               FetchData2.currentOverallStockSignature d |} /\
  newlyFoundKeywordItems (snd r) = found /\
  messageBody (snd r) =
    match found with
    | [] => None
    | _ :: _ => Some (FetchData2.buildMessage found)
    end /\
  sends (trace (snd r)) =
    match found with
    | [] => []
    | _ :: _ => if FetchData2.twilioClient cfg
                then [FetchData2.buildMessage found] else []
    end.
Proof.
  intros Hf N1 found delivered r. subst r.
  unfold FetchData2.checkStockAndNotify. rewrite Hf.
  unfold FetchData2.detectChange.
  assert (HN1 : exists evs1 s1,
            (if decide (FetchData2.currentOverallStockSignature d ≠
                        FetchData2.previousOverallStockSignature s)
             then ({| FetchData2.notifiedItemsThisOverallStockCycle := ∅;
                      FetchData2.previousOverallStockSignature :=
                        FetchData2.currentOverallStockSignature d |},
                   [EvClear])
             else (s, [])) = (s1, evs1) /\
            s1 = {| FetchData2.notifiedItemsThisOverallStockCycle := N1;
                    FetchData2.previousOverallStockSignature :=
                      FetchData2.currentOverallStockSignature d |} /\
            sends evs1 = []).
  { subst N1. destruct (decide _) as [Hne|Heq].
    - eexists _, _. split; [reflexivity|]. auto.
    - eexists _, _. split; [reflexivity|]. split; [|reflexivity].
      destruct (decide (FetchData2.currentOverallStockSignature d =
                        FetchData2.previousOverallStockSignature s)) as [He|He];
        [|contradiction].
      rewrite He. now destruct s. }
  destruct HN1 as (evs1 & s1 & -> & -> & Hs1).
  cbn [FetchData2.notifiedItemsThisOverallStockCycle
       FetchData2.previousOverallStockSignature]. fold found.
  subst delivered.
  destruct found as [|m found'] eqn:Efound.
  - simpl. rewrite Hs1. auto.
  - destruct (FetchData2.twilioClient cfg).
    + destruct (FetchData.created w) as [u|].
      * rewrite markAll_spec. simpl.
        rewrite !sends_app, Hs1. simpl. rewrite sends_adds. auto.
      * simpl. rewrite !sends_app, Hs1. auto.
    + destruct (FetchData.created w) as [u|]; simpl; rewrite Hs1; auto.
Qed.

(** X18. In the second version an alert that could not be delivered
    (Twilio failed, or there is no client) is tried again: the matches
    are not marked, so the next cycle on the same snapshot finds the same
    matches and builds the same message. *)
Theorem FetchData2_alert_retried_until_sent (cfg : FetchData2.Config)
    (w w' : FetchData.World) (s : FetchData2.State) (d : FetchData.StockData) :
  FetchData.fetched w = Resolved (Some d) -> FetchData.fetched w' = Resolved (Some d) ->
  FetchData2.twilioClient cfg = false \/ FetchData.created w = Rejected ->
  let r := FetchData2.checkStockAndNotify cfg w s in
  let r' := FetchData2.checkStockAndNotify cfg w' (fst r) in
  newlyFoundKeywordItems (snd r') = newlyFoundKeywordItems (snd r) /\
  messageBody (snd r') = messageBody (snd r) /\
  sends (trace (snd r')) = sends (trace (snd r)).
Proof.
  intros Hf Hf' Hfail r r'. subst r' r.
  pose proof (FetchData2_check_resolved cfg w' (fst (FetchData2.checkStockAndNotify cfg w s))
                d Hf') as H'.
  cbv zeta in H'. destruct H' as (_ & -> & -> & ->).
  pose proof (FetchData2_check_resolved cfg w s d Hf) as H. cbv zeta in H.
  destruct H as (-> & -> & -> & ->).
  cbn [FetchData2.notifiedItemsThisOverallStockCycle
       FetchData2.previousOverallStockSignature].
  destruct (decide (FetchData2.currentOverallStockSignature d ≠
                    FetchData2.currentOverallStockSignature d)) as [Hne|_];
    [contradiction|].
  match goal with
  | |- context [if ?b then _ ∪ ?N else ?N] =>
      assert (Hb : b = false)
  end.
  { destruct (FetchData2.findAll _ d _); [reflexivity|].
    destruct Hfail as [-> | ->]; [now destruct (FetchData.created w) | reflexivity]. }
  rewrite Hb. auto.
Qed.

Lemma FetchData2_alert_retried_until_sent_witness :
  let w := {| FetchData.fetched := Resolved (Some scenarioStock);
              FetchData.created := Rejected |} in
  let cfg := FetchData2.defaultConfig true in
  map resultToken
    (newlyFoundKeywordItems
       (snd (FetchData2.checkStockAndNotify cfg w
               (fst (FetchData2.checkStockAndNotify cfg w FetchData2.initialState))))) =
  ["Mango|Seed"; "Bug Egg|Egg"].
Proof.
  intros w cfg.
  rewrite (proj1 (FetchData2_alert_retried_until_sent cfg w w FetchData2.initialState
                    scenarioStock eq_refl eq_refl (or_intror eq_refl))).
  reflexivity.
Defined.

(** X19. Once the alert has been delivered, the second version marks
    the matches, and the next cycle on the same snapshot finds nothing
    and leaves the state as it is. *)
Theorem FetchData2_silent_after_delivery (cfg : FetchData2.Config)
    (w w' : FetchData.World) (s : FetchData2.State) (d : FetchData.StockData)
    (u : unit) :
  FetchData.fetched w = Resolved (Some d) -> FetchData.fetched w' = Resolved (Some d) ->
  FetchData2.twilioClient cfg = true -> FetchData.created w = Resolved u ->
  let r := FetchData2.checkStockAndNotify cfg w s in
  FetchData2.checkStockAndNotify cfg w' (fst r) =
  (fst r, {| outcome := NoMatches; newlyFoundKeywordItems := [];
             messageBody := None; trace := [EvFetch] |}).
Proof.
  intros Hf Hf' Hc Hu r. subst r.
  pose proof (FetchData2_check_resolved cfg w s d Hf) as H. cbv zeta in H.
  destruct H as (-> & _). rewrite Hc, Hu.
  set (N1 := if decide (FetchData2.currentOverallStockSignature d ≠
                        FetchData2.previousOverallStockSignature s)
             then ∅ else FetchData2.notifiedItemsThisOverallStockCycle s).
  set (found := FetchData2.findAll (FetchData2.keywordsToMonitor cfg) d N1).
  set (N := match found with
            | [] => N1
            | _ :: _ => list_to_set (map resultToken found) ∪ N1
            end).
  assert (HN : N = list_to_set (map resultToken found) ∪ N1).
  { subst N. destruct found; [set_solver | reflexivity]. }
  assert (Hnone : FetchData2.findAll (FetchData2.keywordsToMonitor cfg) d N = []).
  { rewrite HN. subst found. rewrite !FetchData2_findAll_withNames.
    apply FetchData_findAll_exhausted. }
  assert (Hst : (if match found with
                    | [] => false
                    | _ :: _ => true
                    end
                 then list_to_set (map resultToken found) ∪ N1 else N1) = N).
  { subst N. now destruct found. }
  rewrite Hst.
  unfold FetchData2.checkStockAndNotify. rewrite Hf'.
  unfold FetchData2.detectChange.
  cbn [FetchData2.previousOverallStockSignature].
  destruct (decide (FetchData2.currentOverallStockSignature d ≠
                    FetchData2.currentOverallStockSignature d)) as [Hne|_];
    [contradiction|].
  cbv beta iota. cbn [FetchData2.notifiedItemsThisOverallStockCycle].
  now rewrite Hnone.
Qed.

Lemma FetchData2_silent_after_delivery_witness :
  let w := {| FetchData.fetched := Resolved (Some scenarioStock);
              FetchData.created := Resolved tt |} in
  let cfg := FetchData2.defaultConfig true in
  newlyFoundKeywordItems
    (snd (FetchData2.checkStockAndNotify cfg w
            (fst (FetchData2.checkStockAndNotify cfg w FetchData2.initialState)))) = [].
Proof.
  intros w cfg.
  now rewrite (FetchData2_silent_after_delivery cfg w w FetchData2.initialState
                 scenarioStock tt eq_refl eq_refl eq_refl eq_refl).
Defined.

(** ** The scheduler of [FetchData.js] at work *)

Lemma FetchData_signature_multiset_witness :
  let a := {| FetchData.seedsStock := Some [item "Grape"; item "Mango"];
              FetchData.eggStock := Some [item "Bug Egg"];
              FetchData.gearStock := None |} in
  let b := {| FetchData.seedsStock := Some [item "Mango"; item "Grape"];
              FetchData.eggStock := Some [item "Bug Egg"];
              FetchData.gearStock := Some [] |} in
  FetchData.currentOverallStockSignature a = FetchData.currentOverallStockSignature b.
Proof.
  intros a b.
  exact (proj1 (FetchData_signature_multiset a b) ltac:(vm_compute; apply perm_swap)).
Defined.

Lemma FetchData_notified_once_per_epoch_witness :
  let cfg := FetchData.defaultConfig true in
  let t := {| FetchData.hour := 12; FetchData.minute := 5; FetchData.second := 30;
              FetchData.formatted := "12:05:30" |} in
  let w := {| FetchData.fetched := Resolved (Some scenarioStock);
              FetchData.created := Resolved tt |} in
  let r := FetchData.mainScheduler cfg t w FetchData.initialState in
  sameEpoch FetchData.previousOverallStockSignature
    (fun tick => FetchData.mainScheduler cfg (fst tick) (snd tick))
    [(t, w); (t, w)] (fst r) /\
  forall rep, In rep (snd (FetchData.run cfg [(t, w); (t, w)] (fst r))) ->
  forall m', In m' (newlyFoundKeywordItems rep) -> resultToken m' <> "Mango|Seed".
Proof.
  intros cfg t w r.
  assert (Hep : sameEpoch FetchData.previousOverallStockSignature
                  (fun tick => FetchData.mainScheduler cfg (fst tick) (snd tick))
                  [(t, w); (t, w)] (fst r)).
  { vm_compute. repeat split. }
  split; [exact Hep|].
  apply (proj2 (FetchData_notified_once_per_epoch cfg (t, w) [(t, w); (t, w)]
                  FetchData.initialState Hep
                  {| itemName := "Mango"; category := "Seed"; matchedKeyword := "Mango" |}
                  ltac:(vm_compute; left; reflexivity))).
Defined.

Lemma FetchData_matched_tokens_marked_first_witness :
  let cfg := FetchData.defaultConfig false in
  let t := {| FetchData.hour := 3; FetchData.minute := 5; FetchData.second := 30;
              FetchData.formatted := "03:05:30" |} in
  let w := {| FetchData.fetched := Resolved (Some scenarioStock);
              FetchData.created := Rejected |} in
  let r := FetchData.mainScheduler cfg t w FetchData.initialState in
  In (EvAdd "Bug Egg|Egg") (beforeGate (trace (snd r))) /\
  "Bug Egg|Egg" ∈ FetchData.notifiedItemsThisOverallStockCycle (fst r).
Proof.
  intros cfg t w r.
  apply (FetchData_matched_tokens_marked_first cfg t w FetchData.initialState
           {| itemName := "Bug Egg"; category := "Egg"; matchedKeyword := "Bug Egg" |}).
  vm_compute. right. left. reflexivity.
Defined.

Lemma FetchData_running_check_is_skipped_witness :
  let s := FetchData.setRunning true FetchData.initialState in
  let t := {| FetchData.hour := 12; FetchData.minute := 5; FetchData.second := 30;
              FetchData.formatted := "12:05:30" |} in
  let w := {| FetchData.fetched := Resolved (Some scenarioStock);
              FetchData.created := Resolved tt |} in
  fst (FetchData.mainScheduler (FetchData.defaultConfig true) t w s) = s.
Proof.
  intros s t w.
  exact (proj1 (FetchData_running_check_is_skipped (FetchData.defaultConfig true) t w s
                  eq_refl)).
Defined.

Lemma FetchData_lock_released_on_exit_witness :
  let t := {| FetchData.hour := 12; FetchData.minute := 5; FetchData.second := 30;
              FetchData.formatted := "12:05:30" |} in
  let w := {| FetchData.fetched := Rejected; FetchData.created := Rejected |} in
  FetchData.isCheckRunning
    (fst (FetchData.mainScheduler (FetchData.defaultConfig true) t w
            FetchData.initialState)) = false.
Proof.
  intros t w.
  exact (FetchData_lock_released_on_exit (FetchData.defaultConfig true) t w
           FetchData.initialState eq_refl).
Defined.

Lemma FetchData_no_stock_no_change_witness :
  let s := {| FetchData.notifiedItemsThisOverallStockCycle := {["Mango|Seed"]};
              FetchData.previousOverallStockSignature := "Mango|Seed";
              FetchData.isCheckRunning := false |} in
  let t := {| FetchData.hour := 12; FetchData.minute := 5; FetchData.second := 30;
              FetchData.formatted := "12:05:30" |} in
  let w := {| FetchData.fetched := Resolved None; FetchData.created := Resolved tt |} in
  fst (FetchData.mainScheduler (FetchData.defaultConfig true) t w s) = s.
Proof.
  intros s t w.
  exact (proj2 (FetchData_no_stock_no_change (FetchData.defaultConfig true) t w s eq_refl)).
Defined.

(** ** The first version of [FetchData.js] *)

Lemma nonEmpty_app {A : Type} (l1 l2 : list A) :
  nonEmpty (l1 ++ l2) = nonEmpty l1 || nonEmpty l2.
Proof. now destruct l1. Qed.

Section FirstVersion.

Variable cfg : FetchData1.Config.
Variable w : FetchData1.World.

Lemma tried_app (ms1 ms2 : list MatchResult) :
  tried cfg (ms1 ++ ms2) = tried cfg ms1 ++ tried cfg ms2.
Proof. unfold tried. destruct (FetchData1.twilioClient cfg); [apply map_app|reflexivity]. Qed.

Lemma scanKeywords1_undelivered (n nl c : string) (p : FetchData1.Loop)
    (kws : list string) :
  undelivered cfg w ->
  let ms := FetchData.scanKeywords n nl c (FetchData1.notifiedItemsSet p) kws in
  let p' := FetchData1.scanKeywords cfg w n nl c p kws in
  FetchData1.notifiedItemsSet p' = FetchData1.notifiedItemsSet p /\
  sends (FetchData1.events p') = sends (FetchData1.events p) ++ tried cfg ms /\
  FetchData1.keywordFoundInCategoryThisCycle p' =
    FetchData1.keywordFoundInCategoryThisCycle p || nonEmpty ms.
Proof.
  intros Hfail. unfold tried. induction kws as [|kw kws IH]; simpl.
  - destruct (FetchData1.twilioClient cfg); simpl; now rewrite app_nil_r, orb_false_r.
  - destruct (JS.includes nl (JS.toLowerCase kw)); [|exact IH].
    destruct (decide (token n c ∈ FetchData1.notifiedItemsSet p)).
    + destruct (FetchData1.twilioClient cfg); simpl; now rewrite app_nil_r, orb_false_r.
    + destruct (FetchData1.twilioClient cfg) eqn:Hc.
      * destruct Hfail as [Hfail|Hfail]; [congruence|]. rewrite Hfail. simpl.
        rewrite sends_app, orb_true_r. auto.
      * simpl. rewrite app_nil_r, orb_true_r. auto.
Qed.

Lemma scanItem1_undelivered (c : string) (kws : list string) (p : FetchData1.Loop)
    (it : StockItem) :
  undelivered cfg w ->
  let ms := FetchData2.findInItem c kws (FetchData1.notifiedItemsSet p) it in
  let p' := FetchData1.scanItem cfg w c kws p it in
  FetchData1.notifiedItemsSet p' = FetchData1.notifiedItemsSet p /\
  sends (FetchData1.events p') = sends (FetchData1.events p) ++ tried cfg ms /\
  FetchData1.keywordFoundInCategoryThisCycle p' =
    FetchData1.keywordFoundInCategoryThisCycle p || nonEmpty ms.
Proof.
  intros Hfail. unfold FetchData1.scanItem, FetchData2.findInItem.
  assert (Hnone : FetchData1.notifiedItemsSet p = FetchData1.notifiedItemsSet p /\
                  sends (FetchData1.events p) = sends (FetchData1.events p) ++ tried cfg [] /\
                  FetchData1.keywordFoundInCategoryThisCycle p =
                    FetchData1.keywordFoundInCategoryThisCycle p || nonEmpty (@nil MatchResult)).
  { unfold tried.
    destruct (FetchData1.twilioClient cfg); simpl; now rewrite app_nil_r, orb_false_r. }
  destruct (name it) as [n|]; [|exact Hnone].
  destruct (JS.truthy n); [|exact Hnone].
  now apply scanKeywords1_undelivered.
Qed.

Lemma items1_undelivered (c : string) (kws : list string) (items : list StockItem)
    (p : FetchData1.Loop) :
  undelivered cfg w ->
  let ms := flat_map (FetchData2.findInItem c kws (FetchData1.notifiedItemsSet p)) items in
  let p' := fold_left (FetchData1.scanItem cfg w c kws) items p in
  FetchData1.notifiedItemsSet p' = FetchData1.notifiedItemsSet p /\
  sends (FetchData1.events p') = sends (FetchData1.events p) ++ tried cfg ms /\
  FetchData1.keywordFoundInCategoryThisCycle p' =
    FetchData1.keywordFoundInCategoryThisCycle p || nonEmpty ms.
Proof.
  intros Hfail. revert p. induction items as [|it items IH]; intros p; simpl.
  - unfold tried.
    destruct (FetchData1.twilioClient cfg); simpl; now rewrite app_nil_r, orb_false_r.
  - destruct (scanItem1_undelivered c kws p it Hfail) as (HN & Hs & Hk).
    destruct (IH (FetchData1.scanItem cfg w c kws p it)) as (HN' & Hs' & Hk').
    rewrite HN in HN', Hs', Hk'.
    rewrite HN', Hs', Hk', Hs, Hk, tried_app, nonEmpty_app, app_assoc, orb_assoc. auto.
Qed.

Lemma stock1_undelivered (d : FetchData.StockData) (ks : list FetchData.CatKey)
    (acc : FetchData1.Loop * bool) :
  undelivered cfg w ->
  let ms := flat_map (fun k =>
              match FetchData.get d k with
              | Some items =>
                  FetchData2.findNewKeywordItemsInCategory (Some items)
                    (FetchData.categoryMap k) (FetchData1.keywordsToMonitor cfg)
                    (FetchData1.notifiedItemsSet (fst acc))
              | None => []
              end) ks in
  let r := fold_left (FetchData1.processStock cfg w d) ks acc in
  FetchData1.notifiedItemsSet (fst r) = FetchData1.notifiedItemsSet (fst acc) /\
  sends (FetchData1.events (fst r)) = sends (FetchData1.events (fst acc)) ++ tried cfg ms /\
  snd r = snd acc || nonEmpty ms.
Proof.
  intros Hfail. revert acc. induction ks as [|k ks IH]; intros acc; simpl.
  - unfold tried.
    destruct (FetchData1.twilioClient cfg); simpl; now rewrite app_nil_r, orb_false_r.
  - destruct (IH (FetchData1.processStock cfg w d acc k)) as (HN' & Hs' & Hk').
    rewrite HN', Hs', Hk'. clear HN' Hs' Hk' IH.
    unfold FetchData1.processStock.
    destruct (FetchData.get d k) as [items|]; [|auto].
    unfold FetchData1.processCategoryForKeywords. cbn [fst snd].
    match goal with
    | |- context [fold_left _ items ?p0] =>
        destruct (items1_undelivered (FetchData.categoryMap k)
                    (FetchData1.keywordsToMonitor cfg) items p0 Hfail) as (HN & Hs & Hk)
    end.
    cbn [FetchData1.notifiedItemsSet FetchData1.events
         FetchData1.keywordFoundInCategoryThisCycle] in HN, Hs, Hk.
    rewrite orb_false_l in Hk. rewrite HN, Hs, Hk.
    unfold FetchData2.findNewKeywordItemsInCategory.
    rewrite tried_app, nonEmpty_app, app_assoc, orb_assoc. auto.
Qed.

Lemma scanKeywords1_delivered (n nl c : string) (N1 : gset string)
    (p : FetchData1.Loop) (kws : list string) :
  delivered cfg w -> N1 ⊆ FetchData1.notifiedItemsSet p ->
  FetchData1.notifiedItemsSet (FetchData1.scanKeywords cfg w n nl c p kws) =
  list_to_set (map resultToken (FetchData.scanKeywords n nl c N1 kws)) ∪
  FetchData1.notifiedItemsSet p.
Proof.
  intros [Hc Hok] Hsub. induction kws as [|kw kws IH]; simpl.
  - set_solver.
  - destruct (JS.includes nl (JS.toLowerCase kw)); [|exact IH].
    destruct (decide (token n c ∈ FetchData1.notifiedItemsSet p)) as [Hin|Hnotin].
    + destruct (decide (token n c ∈ N1)); simpl; rewrite ?resultToken_mk; set_solver.
    + destruct (decide (token n c ∈ N1)) as [Hin1|]; [set_solver|].
      rewrite Hc. destruct (Hok (FetchData1.calls p)) as [u ->]. simpl.
      rewrite resultToken_mk. set_solver.
Qed.

Lemma items1_delivered (c : string) (kws : list string) (N1 : gset string)
    (items : list StockItem) (p : FetchData1.Loop) :
  delivered cfg w -> N1 ⊆ FetchData1.notifiedItemsSet p ->
  FetchData1.notifiedItemsSet (fold_left (FetchData1.scanItem cfg w c kws) items p) =
  list_to_set (map resultToken (flat_map (FetchData2.findInItem c kws N1) items)) ∪
  FetchData1.notifiedItemsSet p.
Proof.
  intros Hd. revert p. induction items as [|it items IH]; intros p Hsub; simpl.
  - set_solver.
  - assert (Hstep : FetchData1.notifiedItemsSet (FetchData1.scanItem cfg w c kws p it) =
                    list_to_set (map resultToken (FetchData2.findInItem c kws N1 it)) ∪
                    FetchData1.notifiedItemsSet p).
    { unfold FetchData1.scanItem, FetchData2.findInItem.
      destruct (name it) as [n|]; [|set_solver].
      destruct (JS.truthy n); [|set_solver].
      now apply scanKeywords1_delivered. }
    rewrite IH by (rewrite Hstep; set_solver).
    rewrite Hstep, map_app, list_to_set_app_L. set_solver.
Qed.

Lemma stock1_delivered (d : FetchData.StockData) (N1 : gset string)
    (ks : list FetchData.CatKey) (acc : FetchData1.Loop * bool) :
  delivered cfg w -> N1 ⊆ FetchData1.notifiedItemsSet (fst acc) ->
  FetchData1.notifiedItemsSet (fst (fold_left (FetchData1.processStock cfg w d) ks acc)) =
  list_to_set (map resultToken
    (flat_map (fun k =>
       match FetchData.get d k with
       | Some items =>
           FetchData2.findNewKeywordItemsInCategory (Some items)
             (FetchData.categoryMap k) (FetchData1.keywordsToMonitor cfg) N1
       | None => []
       end) ks)) ∪
  FetchData1.notifiedItemsSet (fst acc).
Proof.
  intros Hd. revert acc. induction ks as [|k ks IH]; intros acc Hsub; simpl.
  - set_solver.
  - assert (Hstep : FetchData1.notifiedItemsSet
                      (fst (FetchData1.processStock cfg w d acc k)) =
                    list_to_set (map resultToken
                      match FetchData.get d k with
                      | Some items =>
                          FetchData2.findNewKeywordItemsInCategory (Some items)
                            (FetchData.categoryMap k)
                            (FetchData1.keywordsToMonitor cfg) N1
                      | None => []
                      end) ∪ FetchData1.notifiedItemsSet (fst acc)).
    { unfold FetchData1.processStock.
      destruct (FetchData.get d k) as [items|]; [|set_solver].
      unfold FetchData1.processCategoryForKeywords. cbn [fst].
      now rewrite (items1_delivered _ _ N1). }
    rewrite IH by (rewrite Hstep; set_solver).
    rewrite Hstep, map_app, list_to_set_app_L. set_solver.
Qed.

End FirstVersion.

Lemma FetchData2_detectChange_spec (d : FetchData.StockData) (s : FetchData2.State) :
  let N1 : gset string :=
    if decide (FetchData2.currentOverallStockSignature d ≠
               FetchData2.previousOverallStockSignature s)
    then ∅ else FetchData2.notifiedItemsThisOverallStockCycle s in
  fst (FetchData2.detectChange d s) =
    {| FetchData2.notifiedItemsThisOverallStockCycle := N1;
       FetchData2.previousOverallStockSignature :=
         FetchData2.currentOverallStockSignature d |} /\
  sends (snd (FetchData2.detectChange d s)) = [].
Proof.
  unfold FetchData2.detectChange. destruct (decide _) as [Hne|Heq]; [auto|].
  split; [|reflexivity]. simpl.
  destruct (decide (FetchData2.currentOverallStockSignature d =
                    FetchData2.previousOverallStockSignature s)) as [He|He];
    [|contradiction].
  rewrite He. now destruct s.
Qed.

(** X20. When no message can be delivered (there is no client, or
    Twilio fails every time), the first version of [FetchData.js] marks
    nothing: it hands Twilio, if there is a client, one message for
    every match of the matcher of the second version on the set left by
    the signature check, and the next cycle on the same snapshot tries
    the same messages again. *)
Theorem FetchData1_undelivered_not_marked (cfg : FetchData1.Config)
    (w w' : FetchData1.World) (s : FetchData2.State) (d : FetchData.StockData) :
  FetchData1.fetched w = Resolved (Some d) -> undelivered cfg w ->
  FetchData1.fetched w' = Resolved (Some d) -> undelivered cfg w' ->
  let N1 : gset string :=
    if decide (FetchData2.currentOverallStockSignature d ≠
               FetchData2.previousOverallStockSignature s)
    then ∅ else FetchData2.notifiedItemsThisOverallStockCycle s in
  let ms := FetchData2.findAll (FetchData1.keywordsToMonitor cfg) d N1 in
  let r := FetchData1.checkStockAndNotify cfg w s in
  let r' := FetchData1.checkStockAndNotify cfg w' (fst r) in
  FetchData2.notifiedItemsThisOverallStockCycle (fst r) = N1 /\
  sends (FetchData1.steps (snd r)) = tried cfg ms /\
  FetchData1.anyKeywordsFoundThisRun (snd r) = nonEmpty ms /\
  sends (FetchData1.steps (snd r')) = sends (FetchData1.steps (snd r)).
Proof.
  intros Hf Hfail Hf' Hfail' N1 ms r r'.
  assert (Hone : forall w0 s0, FetchData1.fetched w0 = Resolved (Some d) ->
            undelivered cfg w0 ->
            let N0 : gset string :=
              if decide (FetchData2.currentOverallStockSignature d ≠
                         FetchData2.previousOverallStockSignature s0)
              then ∅ else FetchData2.notifiedItemsThisOverallStockCycle s0 in
            let r0 := FetchData1.checkStockAndNotify cfg w0 s0 in
            fst r0 = {| FetchData2.notifiedItemsThisOverallStockCycle := N0;
                        FetchData2.previousOverallStockSignature :=
                          FetchData2.currentOverallStockSignature d |} /\
            sends (FetchData1.steps (snd r0)) =
              tried cfg (FetchData2.findAll (FetchData1.keywordsToMonitor cfg) d N0) /\
            FetchData1.anyKeywordsFoundThisRun (snd r0) =
              nonEmpty (FetchData2.findAll (FetchData1.keywordsToMonitor cfg) d N0)).
  { intros w0 s0 Hf0 Hfail0 N0 r0. subst r0.
    unfold FetchData1.checkStockAndNotify. rewrite Hf0.
    pose proof (FetchData2_detectChange_spec d s0) as Hd. cbv zeta in Hd. fold N0 in Hd.
    destruct (FetchData2.detectChange d s0) as [s1 evs1].
    destruct Hd as [Hs1 Hevs1]. simpl in Hs1, Hevs1. subst s1.
    cbn [FetchData2.notifiedItemsThisOverallStockCycle
         FetchData2.previousOverallStockSignature].
    match goal with
    | |- context [fold_left _ _ ?acc] =>
        pose proof (stock1_undelivered cfg w0 d FetchData.categories acc Hfail0) as H
    end.
    cbv zeta in H.
    destruct (fold_left _ FetchData.categories _) as [p any].
    cbn [fst snd FetchData1.notifiedItemsSet FetchData1.events] in H.
    destruct H as (HN & Hs & Hany). simpl in Hs. rewrite Hevs1 in Hs.
    cbn [fst snd FetchData1.steps FetchData1.anyKeywordsFoundThisRun].
    rewrite HN, Hs, Hany. auto. }
  destruct (Hone w s Hf Hfail) as (Hst & Hs & Hany). fold N1 r in Hst, Hs, Hany.
  destruct (Hone w' (fst r) Hf' Hfail') as (_ & Hs' & _). fold r' in Hs'.
  rewrite Hst in Hs'.
  cbn [FetchData2.notifiedItemsThisOverallStockCycle
       FetchData2.previousOverallStockSignature] in Hs'.
  destruct (decide (FetchData2.currentOverallStockSignature d ≠
                    FetchData2.currentOverallStockSignature d)) as [Hne|_];
    [contradiction|].
  rewrite Hst. cbn [FetchData2.notifiedItemsThisOverallStockCycle].
  rewrite Hs', Hs. auto.
Qed.

Lemma FetchData1_undelivered_not_marked_witness :
  let cfg := FetchData1.defaultConfig true in
  let w := {| FetchData1.fetched := Resolved (Some scenarioStock);
              FetchData1.created := fun _ => Rejected |} in
  let r := FetchData1.checkStockAndNotify cfg w FetchData2.initialState in
  FetchData2.notifiedItemsThisOverallStockCycle (fst r) = ∅ /\
  length (sends (FetchData1.steps (snd r))) = 2.
Proof.
  intros cfg w r.
  destruct (FetchData1_undelivered_not_marked cfg w w FetchData2.initialState
              scenarioStock eq_refl (or_intror (fun _ => eq_refl)) eq_refl
              (or_intror (fun _ => eq_refl))) as (HN & Hs & _).
  fold r in HN, Hs. split.
  - rewrite HN. reflexivity.
  - rewrite Hs. reflexivity.
Defined.

(** X21. When every message is delivered, the first version ends the
    cycle with the notified set that the second version reaches with its
    single message: the set left by the signature check and the tokens
    of all its matches. *)
Theorem FetchData1_delivered_marks_all (cfg : FetchData1.Config)
    (w : FetchData1.World) (s : FetchData2.State) (d : FetchData.StockData) :
  FetchData1.fetched w = Resolved (Some d) -> delivered cfg w ->
  let N1 : gset string :=
    if decide (FetchData2.currentOverallStockSignature d ≠
               FetchData2.previousOverallStockSignature s)
    then ∅ else FetchData2.notifiedItemsThisOverallStockCycle s in
  FetchData2.notifiedItemsThisOverallStockCycle
    (fst (FetchData1.checkStockAndNotify cfg w s)) =
  list_to_set (map resultToken
    (FetchData2.findAll (FetchData1.keywordsToMonitor cfg) d N1)) ∪ N1.
Proof.
  intros Hf Hd N1.
  unfold FetchData1.checkStockAndNotify. rewrite Hf.
  pose proof (FetchData2_detectChange_spec d s) as Hdc. cbv zeta in Hdc. fold N1 in Hdc.
  destruct (FetchData2.detectChange d s) as [s1 evs1].
  destruct Hdc as [Hs1 _]. simpl in Hs1. subst s1.
  cbn [FetchData2.notifiedItemsThisOverallStockCycle
       FetchData2.previousOverallStockSignature].
  match goal with
  | |- context [fold_left _ _ ?acc] =>
      pose proof (stock1_delivered cfg w d N1 FetchData.categories acc Hd) as H
  end.
  cbn [fst FetchData1.notifiedItemsSet] in H. specialize (H ltac:(set_solver)).
  destruct (fold_left _ FetchData.categories _) as [p any].
  cbn [fst] in H. cbn [fst FetchData2.notifiedItemsThisOverallStockCycle].
  exact H.
Qed.

Lemma FetchData1_delivered_marks_all_witness :
  let cfg := FetchData1.defaultConfig true in
  let w := {| FetchData1.fetched := Resolved (Some scenarioStock);
              FetchData1.created := fun _ => Resolved tt |} in
  FetchData2.notifiedItemsThisOverallStockCycle
    (fst (FetchData1.checkStockAndNotify cfg w FetchData2.initialState)) =
  {["Mango|Seed"; "Bug Egg|Egg"]}.
Proof.
  intros cfg w.
  rewrite (FetchData1_delivered_marks_all cfg w FetchData2.initialState scenarioStock
             eq_refl (conj eq_refl (fun _ => ex_intro _ tt eq_refl))).
  vm_compute. reflexivity.
Defined.
